(** * Automated email sender: a shallow embedding of [final.py]

    The development follows the source file top to bottom:
    - [Regex], [EmailValidator]: the address pattern and [re.match];
    - [Effects]: exceptions, messages, the observable events and the monad
      in which the methods of [EmailAutomation] are written;
    - [Env]: the library calls the program depends on, as a class;
    - [Text], [Csv]: [str.lower], [in], [str.strip] and [csv.DictReader];
    - [Automation]: [read_csv_content], [setup_smtp], [create_message],
      [send_emails] and [main];
    - [Observe]: what is read off a trace of events;
    - [Doubles]: a scripted relay and a plain CSV tokenizer, to run the
      embedding on concrete campaigns;
    - [Stated], [Shapes]: the vocabulary of the specification and the shape
      of the traces of the dispatch loop;
    - then the properties, module by module.

    Python [str] values are modelled as [string] (one character per code
    point below 256), [bytes] as [list byte], a row dictionary of
    [csv.DictReader] as a [gmap].  The progress values, floats in the
    source, are kept as exact rationals. *)

From Stdlib Require Import String Ascii List Bool Arith ZArith QArith Lia.
From Stdlib.Strings Require Import Byte.
From Stdlib Require Import DecimalString Sorted.
From stdpp Require Import base option gmap strings.
Import ListNotations.

Local Open Scope string_scope.
Local Open Scope list_scope.
Local Open Scope nat_scope.

(* ===================================================================== *)
(** ** Regular expressions, as far as the address pattern needs them     *)
(* ===================================================================== *)

Module Regex.

(** A pattern is a term; [Cls p] is a bracket expression or a literal. *)
Inductive regex : Type :=
| Void : regex
| Eps : regex
| Cls : (ascii -> bool) -> regex
| Cat : regex -> regex -> regex
| Alt : regex -> regex -> regex
| Star : regex -> regex.

(** [r+] and [r{2,}] *)
Definition Plus (r : regex) : regex := Cat r (Star r).
Definition AtLeast2 (r : regex) : regex := Cat r (Cat r (Star r)).
Definition Chr (c : ascii) : regex := Cls (Ascii.eqb c).

(** The words of a pattern. *)
Inductive lang : regex -> list ascii -> Prop :=
| L_eps : lang Eps []
| L_cls p c : p c = true -> lang (Cls p) [c]
| L_cat r1 r2 u v : lang r1 u -> lang r2 v -> lang (Cat r1 r2) (u ++ v)
| L_alt_l r1 r2 u : lang r1 u -> lang (Alt r1 r2) u
| L_alt_r r1 r2 u : lang r2 u -> lang (Alt r1 r2) u
| L_star_nil r : lang (Star r) []
| L_star_cons r u v : lang r u -> lang (Star r) v -> lang (Star r) (u ++ v).

Fixpoint nullable (r : regex) : bool :=
  match r with
  | Void => false
  | Eps => true
  | Cls _ => false
  | Cat r1 r2 => nullable r1 && nullable r2
  | Alt r1 r2 => nullable r1 || nullable r2
  | Star _ => true
  end.

(** What remains of [r] after reading [c]. *)
Fixpoint deriv (c : ascii) (r : regex) : regex :=
  match r with
  | Void => Void
  | Eps => Void
  | Cls p => if p c then Eps else Void
  | Cat r1 r2 =>
      if nullable r1
      then Alt (Cat (deriv c r1) r2) (deriv c r2)
      else Cat (deriv c r1) r2
  | Alt r1 r2 => Alt (deriv c r1) (deriv c r2)
  | Star r1 => Cat (deriv c r1) (Star r1)
  end.

(** Whole-word matching: a backtracking matcher without groups finds a
    match exactly when the word is in the language. *)
Fixpoint matches (r : regex) (w : list ascii) : bool :=
  match w with
  | [] => nullable r
  | c :: w' => matches (deriv c r) w'
  end.

End Regex.

(* ===================================================================== *)
(** ** class EmailValidator                                              *)
(* ===================================================================== *)

Module EmailValidator.
Import Regex.

Definition between (lo hi : nat) (c : ascii) : bool :=
  (lo <=? nat_of_ascii c) && (nat_of_ascii c <=? hi).

Definition is_lower (c : ascii) : bool := between 97 122 c.   (* a-z *)
Definition is_upper (c : ascii) : bool := between 65 90 c.    (* A-Z *)
Definition is_digit (c : ascii) : bool := between 48 57 c.    (* 0-9 *)
Definition is_alpha (c : ascii) : bool := is_lower c || is_upper c.

Definition one_of (s : string) (c : ascii) : bool :=
  existsb (Ascii.eqb c) (list_ascii_of_string s).

(** [[a-zA-Z0-9._%+-]] *)
Definition local_char (c : ascii) : bool :=
  is_alpha c || is_digit c || one_of "._%+-" c.
(** [[a-zA-Z0-9.-]] *)
Definition domain_char (c : ascii) : bool :=
  is_alpha c || is_digit c || one_of ".-" c.

Definition newline : ascii := ascii_of_nat 10.

(** [^] under [re.match]: the match starts at position 0 anyway. *)
Definition caret : regex := Eps.
(** [$] without [re.MULTILINE] holds at the end of the string and also just
    before a newline that is the last character.  [re.match] does not ask
    the match to reach the end of the string, so as the last item of a
    pattern [$] admits exactly one optional final newline. *)
Definition dollar : regex := Alt Eps (Chr newline).

(** [r'^[a-zA-Z0-9._%+-]+@[a-zA-Z0-9.-]+\.[a-zA-Z]{2,}$'] *)
Definition pattern : regex :=
  Cat caret
    (Cat (Plus (Cls local_char))
      (Cat (Chr "@")
        (Cat (Plus (Cls domain_char))
          (Cat (Chr ".")
            (Cat (AtLeast2 (Cls is_alpha))
              dollar))))).

(** [bool(re.match(pattern, email))] *)
Definition is_valid_email (email : string) : bool :=
  matches pattern (list_ascii_of_string email).

End EmailValidator.

(* ===================================================================== *)
(** ** Exceptions, messages, events and the monad of the methods         *)
(* ===================================================================== *)

Module Effects.

(** The exceptions the program meets; all are subclasses of [Exception],
    so every [except Exception] clause catches them. *)
Inductive exn : Type :=
| ValueError (msg : string)
| TypeError (msg : string)
| AttributeError (msg : string)
| KeyError (msg : string)
| UnboundLocalError (msg : string)
| UnicodeDecodeError (msg : string)
| OSError (msg : string)
| SMTPException (msg : string)
| CsvReaderError (msg : string).   (* csv.Error *)

(** [str(e)] *)
Definition str_exn (e : exn) : string :=
  match e with
  | ValueError m | TypeError m | AttributeError m | KeyError m
  | UnboundLocalError m | UnicodeDecodeError m | OSError m
  | SMTPException m | CsvReaderError m => m
  end.

(** A header line with its parameters, e.g.
    [Content-Disposition: attachment; filename="a.png"]. *)
Record header : Type := mkHeader {
  h_name : string;
  h_value : string;
  h_params : list (string * string)
}.

Inductive Part : Type :=
| TextPart (subtype : string) (text : string)
| ImagePart (subtype : string) (data : list byte) (part_headers : list header).

(** A [MIMEMultipart] object: its header lines in the order they were set
    and the attached parts in the order they were attached. *)
Record Message : Type := mkMessage {
  msg_headers : list (string * string);
  msg_parts : list Part
}.

(** [str(n)] for a non-negative [int] *)
Definition str_nat (n : nat) : string := NilEmpty.string_of_uint (Nat.to_uint n).

(** Lines written through [self.logger]. *)
Inductive log_msg : Type :=
| InvalidEmail (email : string)
| CsvError (e : exn)
| SmtpEstablished
| SmtpSetupFailed (e : exn)
| AttachError (file_name : string) (e : exn)
| SentOk (email : string)
| SendFailed (email : string) (e : exn)
| MaxRetries (email : string).

Inductive level : Type := INFO | WARNING | ERROR.

Definition level_of (m : log_msg) : level :=
  match m with
  | SmtpEstablished | SentOk _ => INFO
  | InvalidEmail _ => WARNING
  | _ => ERROR
  end.

Definition render_log (m : log_msg) : string :=
  match m with
  | InvalidEmail email => "Invalid email found: " +:+ email
  | CsvError e => "Error reading CSV: " +:+ str_exn e
  | SmtpEstablished => "SMTP connection established successfully"
  | SmtpSetupFailed e => "SMTP setup failed: " +:+ str_exn e
  | AttachError f e => "Error attaching file " +:+ f +:+ ": " +:+ str_exn e
  | SentOk email => "Email sent successfully to " +:+ email
  | SendFailed email e => "Failed to send email to " +:+ email +:+ ": " +:+ str_exn e
  | MaxRetries email => "Max retries reached for " +:+ email
  end.

(** Lines printed by [DebugLogger.debug] when debug mode is on. *)
Inductive debug_msg : Type :=
| DReadingCsv
| DFound (n : nat)
| DSettingUp
| DCreating (recipient : string)
| DStarting
| DSentTo (email : string)
| DRetrying (email : string) (retries : nat).

Definition render_debug (m : debug_msg) : string :=
  "[DEBUG] " +:+
  match m with
  | DReadingCsv => "Reading CSV content"
  | DFound n => "Found " +:+ str_nat n +:+ " valid emails"
  | DSettingUp => "Setting up SMTP connection"
  | DCreating r => "Creating email message for: " +:+ r
  | DStarting => "Starting email sending process"
  | DSentTo email => "Email sent to: " +:+ email
  | DRetrying email n =>
      "Retrying email to " +:+ email +:+ ". Attempts remaining: " +:+ str_nat n
  end.

(** Texts shown in the status placeholder of [send_emails]. *)
Inductive status_msg : Type :=
| SSent (email : string)
| SRetrying (email : string) (retries : nat)
| SFailed (email : string)
| SCompleted.

Definition render_status (m : status_msg) : string :=
  match m with
  | SSent email => "Sent email to: " +:+ email
  | SRetrying email n =>
      "Retrying email to " +:+ email +:+ "... (" +:+ str_nat n +:+ " attempts remaining)"
  | SFailed email => "Failed to send email to " +:+ email +:+ " after maximum retries"
  | SCompleted => "Email campaign completed!"
  end.

(** Boxes drawn by [main]. *)
Inductive ui_msg : Type :=
| UiNoCsv
| UiNoSubjectOrContent
| UiNoValidEmails
| UiFound (n : nat)
| UiCompleted
| UiErrorOccurred (e : exn).

Definition render_ui (m : ui_msg) : string :=
  match m with
  | UiNoCsv => "Please upload a CSV file"
  | UiNoSubjectOrContent => "Please fill in both subject and content"
  | UiNoValidEmails => "No valid email addresses found in CSV"
  | UiFound n => "Found " +:+ str_nat n +:+ " valid email addresses"
  | UiCompleted => "Email campaign completed successfully!"
  | UiErrorOccurred e => "An error occurred: " +:+ str_exn e
  end.

(** Calls on the relay, each with what it answered ([None]: no error). *)
Inductive smtp_call : Type :=
| Connect (host : string) (port : nat) (r : option exn)
| StartTls (r : option exn)
| Login (user : string) (r : option exn)
| SendMessage (m : Message) (r : option exn)
| Quit (r : option exn).

(** Everything the program does that an observer can see, in order. *)
Inductive event : Type :=
| Print (m : debug_msg)
| Log (m : log_msg)
| RootLogError (e : exn)          (* logging.error(f"Critical error: ...") *)
| NewProgress                     (* st.progress(0) *)
| NewStatus                       (* st.empty() *)
| StatusText (m : status_msg)     (* status_text.text(...) *)
| Progress (value : Q)            (* progress_bar.progress(...) *)
| Sleep (seconds : nat)           (* sleep(...) *)
| Smtp (c : smtp_call)
| Ui (m : ui_msg).                (* st.error / st.info / st.success *)

Section Monad.
(** The state of the relay connection, as far as the program can tell. *)
Variable conn : Type.

(** The mutable state a run of [main] owns. *)
Record store : Type := mkStore {
  automation_bound : bool;      (* the local [automation] of main is assigned *)
  debug_mode : bool;            (* automation.debug_logger.debug_mode *)
  smtp_server : option conn     (* automation.smtp_server; None is None *)
}.

Inductive result (A : Type) : Type :=
| Ok (a : A)
| Raised (e : exn).
Arguments Ok {A} a.
Arguments Raised {A} e.

(** A statement: from a store to how it ended, the store it left and the
    events it performed. *)
Definition M (A : Type) : Type := store -> result A * store * list event.

Definition ret {A} (a : A) : M A := fun s => (Ok a, s, []).
Definition raise {A} (e : exn) : M A := fun s => (Raised e, s, []).

Definition bind {A B} (c : M A) (k : A -> M B) : M B :=
  fun s =>
    match c s with
    | (Ok a, s1, t1) =>
        match k a s1 with
        | (r, s2, t2) => (r, s2, t1 ++ t2)
        end
    | (Raised e, s1, t1) => (Raised e, s1, t1)
    end.

Definition emit (e : event) : M unit := fun s => (Ok tt, s, [e]).
Definition get : M store := fun s => (Ok s, s, []).
Definition put (s : store) : M unit := fun _ => (Ok tt, s, []).

(** [try: c  except Exception as e: h e] *)
Definition try_except {A} (c : M A) (h : exn -> M A) : M A :=
  fun s =>
    match c s with
    | (Ok a, s1, t1) => (Ok a, s1, t1)
    | (Raised e, s1, t1) =>
        match h e s1 with
        | (r, s2, t2) => (r, s2, t1 ++ t2)
        end
    end.

(** [try: c  finally: f]: [f] runs however [c] ended; an exception raised
    by [f] replaces the outcome of [c]. *)
Definition try_finally {A} (c : M A) (f : M unit) : M A :=
  fun s =>
    match c s with
    | (r, s1, t1) =>
        match f s1 with
        | (Ok _, s2, t2) => (r, s2, t1 ++ t2)
        | (Raised e, s2, t2) => (Raised e, s2, t1 ++ t2)
        end
    end.

End Monad.

Arguments mkStore {conn} _ _ _.
Arguments automation_bound {conn} _.
Arguments debug_mode {conn} _.
Arguments smtp_server {conn} _.
Arguments Ok {A} a.
Arguments Raised {A} e.
Arguments ret {conn A} a _.
Arguments raise {conn A} e _.
Arguments bind {conn A B} c k _.
Arguments emit {conn} e _.
Arguments get {conn} _.
Arguments put {conn} s _.
Arguments try_except {conn A} c h _.
Arguments try_finally {conn A} c f _.

Declare Scope py_scope.
Delimit Scope py_scope with py.
Notation "x <- c ;; k" := (bind c (fun x => k))
  (at level 100, c at next level, right associativity) : py_scope.
Notation "c ;; k" := (bind c (fun _ => k))
  (at level 100, right associativity) : py_scope.

End Effects.

(* ===================================================================== *)
(** ** What the program takes from its libraries                         *)
(* ===================================================================== *)

Module Env.
Import Effects.

(** The library calls whose results the program depends on.  Every
    property below is proved for all platforms. *)
Class Platform : Type := {
  conn : Type;
  (** [smtplib.SMTP(host, port)]: a connection, or the error raised *)
  SMTP : string -> nat -> conn + exn;
  starttls : conn -> conn * option exn;
  login : conn -> string -> string -> conn * option exn;
  send_message : conn -> Message -> conn * option exn;
  quit : conn -> conn * option exn;
  (** the image type [MIMEImage] guesses from the payload *)
  what : list byte -> option string;
  (** the rows [csv.reader] yields for a text, one list of fields a line,
      up to the end of the text or to the row it cannot read *)
  csv_reader : string -> list (list string);
  (** the [csv.Error] it raises in place of the next row when it cannot
      read the text to its end (a bare carriage return in an unquoted
      field, a field longer than the field size limit) *)
  csv_error : string -> option exn;
  (** [bytes.decode('utf-8')] *)
  decode_utf8 : list byte -> string + exn;
  (** [_setup_logging]: the error of [os.makedirs] or [FileHandler], if any *)
  setup_logging : option exn
}.

End Env.

(* ===================================================================== *)
(** ** Text helpers: [str.lower], [in], [str.strip]                      *)
(* ===================================================================== *)

Module Text.

Definition code (c : ascii) : nat := nat_of_ascii c.

(** [str.lower] on one character: A-Z and the Latin-1 capitals. *)
Definition lower_char (c : ascii) : ascii :=
  let n := code c in
  if ((65 <=? n) && (n <=? 90))
     || ((192 <=? n) && (n <=? 222) && negb (n =? 215))
  then ascii_of_nat (n + 32)
  else c.

Fixpoint lower (s : string) : string :=
  match s with
  | EmptyString => EmptyString
  | String c t => String (lower_char c) (lower t)
  end.

(** [needle in hay] *)
Fixpoint contains (needle hay : string) : bool :=
  String.prefix needle hay ||
  match hay with
  | EmptyString => false
  | String _ t => contains needle t
  end.

(** [str.isspace] on one character *)
Definition is_space (c : ascii) : bool :=
  let n := code c in
  ((9 <=? n) && (n <=? 13)) || ((28 <=? n) && (n <=? 32))
  || (n =? 133) || (n =? 160).

Fixpoint lstrip (l : list ascii) : list ascii :=
  match l with
  | c :: t => if is_space c then lstrip t else l
  | [] => []
  end.

(** [s.strip()] *)
Definition strip (s : string) : string :=
  string_of_list_ascii
    (rev (lstrip (rev (lstrip (list_ascii_of_string s))))).

End Text.

(* ===================================================================== *)
(** ** csv.DictReader                                                    *)
(* ===================================================================== *)

Module Csv.

(** A value of a row dictionary: a field, [None] for a field the row is
    too short to have ([restval]), or the list of surplus fields that is
    stored under the key [None] ([restkey]). *)
Inductive cell : Type :=
| CStr (s : string)
| CNone
| CList (l : list string).

(** [dict(zip(fieldnames, row))]: a later pair overwrites an earlier one
    with the same key. *)
Definition dict_of_zip (fieldnames row : list string)
  : gmap (option string) cell :=
  fold_left (fun d kv => <[Some (fst kv) := CStr (snd kv)]> d)
            (combine fieldnames row) ∅.

(** The dictionary [DictReader.__next__] builds for a non-empty row. *)
Definition row_dict (fieldnames row : list string)
  : gmap (option string) cell :=
  let d := dict_of_zip fieldnames row in
  let lf := length fieldnames in
  let lr := length row in
  if lf <? lr then <[None := CList (drop lf row)]> d
  else if lr <? lf
       then fold_left (fun d key => <[Some key := CNone]> d)
                      (drop lr fieldnames) d
       else d.

Definition is_blank (row : list string) : bool :=
  match row with [] => true | _ => false end.

(** [reader.fieldnames] is the first row the reader yields, [None] when it
    yields nothing.  Iterating the reader gives one dictionary for each
    later row, rows without any field being passed over. *)
Definition fieldnames (lines : list (list string)) : option (list string) :=
  head lines.

Definition dicts (lines : list (list string))
  : list (gmap (option string) cell) :=
  match lines with
  | [] => []
  | names :: rest =>
      map (row_dict names) (List.filter (fun r => negb (is_blank r)) rest)
  end.

End Csv.

(* ===================================================================== *)
(** ** class EmailAutomation and main                                    *)
(* ===================================================================== *)

Module Automation.
Import Effects Env.
Local Open Scope py_scope.

Section WithPlatform.
Context {P : Platform}.

Local Abbreviation M := (Effects.M conn).
Local Abbreviation store := (Effects.store conn).

(** [self.debug_logger.debug(m)] *)
Definition debug (m : debug_msg) : M unit :=
  s <- get ;;
  if debug_mode s then emit (Print m) else ret tt.

(** [self.logger.info / warning / error] *)
Definition log (m : log_msg) : M unit := emit (Log m).

(** [for x in l: body x] *)
Fixpoint for_each {A} (l : list A) (body : A -> M unit) : M unit :=
  match l with
  | [] => ret tt
  | x :: rest => body x ;; for_each rest body
  end.

(** A loop that updates one local variable. *)
Fixpoint for_fold {A B} (l : list A) (body : B -> A -> M B) (acc : B) : M B :=
  match l with
  | [] => ret acc
  | x :: rest => acc' <- body acc x ;; for_fold rest body acc'
  end.

(** *** read_csv_content *)

Inductive csv_input : Type :=
| CsvStr (text : string)
| CsvBytes (raw : list byte).

(** The loop over [reader.fieldnames] with its [break]. *)
Fixpoint find_email_column (columns : list string) : option string :=
  match columns with
  | [] => None
  | column :: rest =>
      if Text.contains "email" (Text.lower column)
      then Some column
      else find_email_column rest
  end.

(** [row[email_column].strip()] *)
Definition stripped_field (row : gmap (option string) Csv.cell)
    (email_column : string) : M string :=
  match row !! Some email_column with
  | None => raise (KeyError ("'" +:+ email_column +:+ "'"))
  | Some (Csv.CStr s) => ret (Text.strip s)
  | Some Csv.CNone =>
      raise (AttributeError "'NoneType' object has no attribute 'strip'")
  | Some (Csv.CList _) =>
      raise (AttributeError "'list' object has no attribute 'strip'")
  end.

(** The body of [for row in reader]. *)
Definition validate_row (email_column : string) (valid_emails : list string)
    (row : gmap (option string) Csv.cell) : M (list string) :=
  email <- stripped_field row email_column ;;
  if EmailValidator.is_valid_email email
  then ret (valid_emails ++ [email])
  else (log (InvalidEmail email) ;; ret valid_emails).

(** [next(self.reader)] once the rows [csv_reader] yields are used up:
    the end of the iteration, or the error of the reader. *)
Definition next_row (text : string) : M unit :=
  match csv_error text with
  | Some e => raise e
  | None => ret tt
  end.

Definition read_csv_content (csv_content : csv_input) : M (list string) :=
  debug DReadingCsv ;;
  valid_emails <-
    try_except
      (text <- match csv_content with
               | CsvBytes raw =>
                   match decode_utf8 raw with
                   | inl text => ret text
                   | inr e => raise e
                   end
               | CsvStr text => ret text
               end ;;
       let lines := csv_reader text in
       columns <- match Csv.fieldnames lines with
                  | Some columns => ret columns
                  | None => next_row text ;;
                            raise (TypeError "'NoneType' object is not iterable")
                  end ;;
       match find_email_column columns with
       | None => raise (ValueError "No email column found in CSV")
       | Some email_column =>
           valid_emails <- for_fold (Csv.dicts lines)
                                    (validate_row email_column) [] ;;
           next_row text ;;
           ret valid_emails
       end)
      (fun e => log (CsvError e) ;; raise e) ;;
  debug (DFound (length valid_emails)) ;;
  ret valid_emails.

(** *** setup_smtp *)

(** A method call on [self.smtp_server]; on [None] it is an
    [AttributeError]. *)
Definition on_server (method : string) (op : conn -> conn * option exn)
    (record : option exn -> smtp_call) : M unit :=
  s <- get ;;
  match smtp_server s with
  | None =>
      raise (AttributeError
               ("'NoneType' object has no attribute '" +:+ method +:+ "'"))
  | Some c =>
      let (c', r) := op c in
      put (mkStore (automation_bound s) (debug_mode s) (Some c')) ;;
      emit (Smtp (record r)) ;;
      match r with
      | None => ret tt
      | Some e => raise e
      end
  end.

Definition setup_smtp (email password : string) : M unit :=
  debug DSettingUp ;;
  try_except
    (s <- get ;;
     match SMTP "smtp.gmail.com" 587 with
     | inr e => emit (Smtp (Connect "smtp.gmail.com" 587 (Some e))) ;; raise e
     | inl c =>
         emit (Smtp (Connect "smtp.gmail.com" 587 None)) ;;
         put (mkStore (automation_bound s) (debug_mode s) (Some c))
     end ;;
     on_server "starttls" starttls StartTls ;;
     on_server "login" (fun c => login c email password) (Login email) ;;
     log SmtpEstablished)
    (fun e => log (SmtpSetupFailed e) ;; raise e).

(** *** create_message *)

(** [MIMEMultipart()] *)
Definition MIMEMultipart : Message :=
  mkMessage [("Content-Type", "multipart/mixed"); ("MIME-Version", "1.0")] [].

(** [message[name] = value] *)
Definition set_header (name value : string) (m : Message) : Message :=
  mkMessage (msg_headers m ++ [(name, value)]) (msg_parts m).

(** [message.attach(part)] *)
Definition attach (part : Part) (m : Message) : Message :=
  mkMessage (msg_headers m) (msg_parts m ++ [part]).

(** [MIMEImage(file_content)]: the subtype is guessed from the payload,
    and a payload of no known image type is a [TypeError]. *)
Definition MIMEImage (file_content : list byte) : M Part :=
  match what file_content with
  | Some subtype => ret (ImagePart subtype file_content [])
  | None => raise (TypeError "Could not guess image MIME subtype")
  end.

(** [part.add_header(name, value, **params)] *)
Definition add_header (name value : string) (params : list (string * string))
    (p : Part) : Part :=
  match p with
  | ImagePart subtype data hs =>
      ImagePart subtype data (hs ++ [mkHeader name value params])
  | TextPart _ _ => p
  end.

(** [if attachments:] *)
Definition truthy {A} (attachments : option (list A)) : bool :=
  match attachments with
  | Some (_ :: _) => true
  | _ => false
  end.

Definition attach_file (message : Message) (file : string * list byte)
    : M Message :=
  let (file_name, file_content) := file in
  try_except
    (img <- MIMEImage file_content ;;
     let img := add_header "Content-Disposition" "attachment"
                           [("filename", file_name)] img in
     ret (attach img message))
    (fun e => log (AttachError file_name e) ;; raise e).

Definition create_message (sender recipient subject content : string)
    (attachments : option (list (string * list byte))) : M Message :=
  debug (DCreating recipient) ;;
  let message := MIMEMultipart in
  let message := set_header "From" sender message in
  let message := set_header "To" recipient message in
  let message := set_header "Subject" subject message in
  let message := attach (TextPart "html" content) message in
  if truthy attachments
  then for_fold (default [] attachments) attach_file message
  else ret message.

(** *** send_emails *)

(** [(idx + 1) / len(emails)], kept exact *)
Definition fraction (idx total : nat) : Q :=
  Z.of_nat (idx + 1) # Pos.of_nat total.

(** The [try] block of one attempt. *)
Definition attempt (sender : string) (idx total : nat) (email : string)
    (subject content : string)
    (attachments : option (list (string * list byte))) : M unit :=
  message <- create_message sender email subject content attachments ;;
  on_server "send_message" (fun c => send_message c message)
            (SendMessage message) ;;
  log (SentOk email) ;;
  debug (DSentTo email) ;;
  emit (StatusText (SSent email)) ;;
  emit (Progress (fraction idx total)) ;;
  emit (Sleep 1).

(** The [except] block; [retries] is the value after [retries -= 1]. *)
Definition on_failure (email : string) (retries : nat) (e : exn) : M unit :=
  log (SendFailed email e) ;;
  if 0 <? retries
  then (debug (DRetrying email retries) ;;
        emit (StatusText (SRetrying email retries)) ;;
        emit (Sleep 2))
  else (log (MaxRetries email) ;;
        emit (StatusText (SFailed email))).

(** [while retries > 0: try: ...; break  except Exception: ...] *)
Fixpoint retry_loop (retries : nat) (sender : string) (idx total : nat)
    (email subject content : string)
    (attachments : option (list (string * list byte))) : M unit :=
  match retries with
  | 0 => ret tt
  | S retries' =>
      broke <- try_except
                 (attempt sender idx total email subject content attachments ;;
                  ret true)
                 (fun e => on_failure email retries' e ;; ret false) ;;
      if (broke : bool) then ret tt
      else retry_loop retries' sender idx total email subject content attachments
  end.

(** [enumerate(emails)] *)
Definition enumerate {A} (l : list A) : list (nat * A) :=
  combine (seq 0 (length l)) l.

Definition send_emails (sender : string) (emails : list string)
    (subject content : string)
    (attachments : option (list (string * list byte))) : M unit :=
  debug DStarting ;;
  emit NewProgress ;;
  emit NewStatus ;;
  for_each (enumerate emails)
    (fun '(idx, email) =>
       retry_loop 3 sender idx (length emails) email subject content attachments) ;;
  emit (StatusText SCompleted).

(** *** main *)

(** What the widgets hold when the script runs. *)
Record inputs : Type := mkInputs {
  in_debug_mode : bool;
  in_csv_file : option (list byte);
  in_attachment_files : list (string * list byte);
  in_subject : string;
  in_content : string;
  in_send_clicked : bool
}.

Definition sender_email : string := "datanyx.ai@gmail.com".

Definition is_empty (s : string) : bool :=
  match s with EmptyString => true | _ => false end.

(** [automation = EmailAutomation(debug_mode)] *)
Definition new_automation (debug : bool) : M unit :=
  match setup_logging with
  | Some e => raise e
  | None => put (mkStore true debug None)
  end.

(** The [try] block of main; each [return] ends the block. *)
Definition main_try (sender_password : string) (i : inputs) : M unit :=
  match in_csv_file i with
  | None => emit (Ui UiNoCsv)
  | Some csv_file =>
      if is_empty (in_subject i) || is_empty (in_content i)
      then emit (Ui UiNoSubjectOrContent)
      else
        new_automation (in_debug_mode i) ;;
        emails <- read_csv_content (CsvBytes csv_file) ;;
        match emails with
        | [] => emit (Ui UiNoValidEmails)
        | _ :: _ =>
            emit (Ui (UiFound (length emails))) ;;
            let attachments := in_attachment_files i in
            setup_smtp sender_email sender_password ;;
            send_emails sender_email emails (in_subject i) (in_content i)
                        (Some attachments) ;;
            emit (Ui UiCompleted)
        end
  end.

(** The [except Exception as e] block of main. *)
Definition main_except (e : exn) : M unit :=
  emit (Ui (UiErrorOccurred e)) ;;
  emit (RootLogError e).

(** The [finally] block of main. *)
Definition main_finally : M unit :=
  s <- get ;;
  if automation_bound s
  then match smtp_server s with
       | Some _ => on_server "quit" quit Quit
       | None => ret tt
       end
  else raise (UnboundLocalError
         "cannot access local variable 'automation' where it is not associated with a value").

(** The sender's secret is an argument: the literal of the source is not
    repeated here. *)
Definition main (sender_password : string) (i : inputs) : M unit :=
  if in_send_clicked i
  then try_finally (try_except (main_try sender_password i) main_except)
                   main_finally
  else ret tt.

(** The store [main] starts from. *)
Definition initial : store := mkStore false false None.

End WithPlatform.
End Automation.

(* ===================================================================== *)
(** ** Reading a trace                                                   *)
(* ===================================================================== *)

Module Observe.
Import Effects.

(** How an attempt ended, and the pauses, in the order they happened. *)
Inductive marker : Type :=
| Succeeded
| Failed
| Pause (seconds : nat).

Definition mark (ev : event) : list marker :=
  match ev with
  | Log (SentOk _) => [Succeeded]
  | Log (SendFailed _ _) => [Failed]
  | Sleep n => [Pause n]
  | _ => []
  end.

Definition markers (t : list event) : list marker := flat_map mark t.

(** The values handed to [progress_bar.progress]. *)
Definition fractions (t : list event) : list Q :=
  flat_map (fun ev => match ev with Progress q => [q] | _ => [] end) t.

(** The terminal record of each recipient: [true] for sent, [false] for
    given up after the last retry. *)
Definition outcomes (t : list event) : list (string * bool) :=
  flat_map (fun ev => match ev with
                      | Log (SentOk email) => [(email, true)]
                      | Log (MaxRetries email) => [(email, false)]
                      | _ => []
                      end) t.

Definition smtp_calls (t : list event) : list smtp_call :=
  flat_map (fun ev => match ev with Smtp c => [c] | _ => [] end) t.

(** The errors the [except] block of the retry loop handled. *)
Definition handled_errors (t : list event) : list exn :=
  flat_map (fun ev => match ev with Log (SendFailed _ e) => [e] | _ => [] end) t.

Definition warnings (t : list event) : list string :=
  flat_map (fun ev => match ev with Log (InvalidEmail e) => [e] | _ => [] end) t.

Definition is_quit (c : smtp_call) : bool :=
  match c with Quit _ => true | _ => false end.

Definition is_send (c : smtp_call) : bool :=
  match c with SendMessage _ _ => true | _ => false end.

(** The connection object was created. *)
Definition connected (t : list event) : bool :=
  existsb (fun c => match c with Connect _ _ None => true | _ => false end)
          (smtp_calls t).

Definition quits (t : list event) : nat :=
  length (List.filter is_quit (smtp_calls t)).

(** Diagnostic output: debug lines and log lines. *)
Definition is_diagnostic (ev : event) : bool :=
  match ev with
  | Print _ | Log _ => true
  | _ => false
  end.

(** The 0-based positions, counted from [from], of the recipients sent. *)
Fixpoint sent_positions (from : nat) (sent : list bool) : list nat :=
  match sent with
  | [] => []
  | true :: rest => from :: sent_positions (S from) rest
  | false :: rest => sent_positions (S from) rest
  end.

Definition successes (t : list event) : nat :=
  length (List.filter snd (outcomes t)).

(** Errors raised while building (each is logged once, with the file) or
    answered by the relay to [send_message], in the order they were
    raised. *)
Definition raised_errors (t : list event) : list exn :=
  flat_map (fun ev => match ev with
                      | Log (AttachError _ e) => [e]
                      | Smtp (SendMessage _ (Some e)) => [e]
                      | _ => []
                      end) t.

Definition is_print (ev : event) : bool :=
  match ev with Print _ => true | _ => false end.

(** A trace without its debug lines. *)
Definition visible (t : list event) : list event :=
  List.filter (fun ev => negb (is_print ev)) t.

Definition has_server {conn} (s : store conn) : bool :=
  match smtp_server s with Some _ => true | None => false end.

(** The second store differs from the first at most in the state of the
    relay connection, which is still there if it was. *)
Definition frame {conn} (s s' : store conn) : Prop :=
  automation_bound s' = automation_bound s
  /\ debug_mode s' = debug_mode s
  /\ has_server s' = has_server s.

(** The three components of a run. *)
Definition outcome_of {conn A} (x : result A * store conn * list event) : result A :=
  fst (fst x).
Definition store_of {conn A} (x : result A * store conn * list event) : store conn :=
  snd (fst x).
Definition events_of {conn A} (x : result A * store conn * list event) : list event :=
  snd x.

End Observe.

(* ===================================================================== *)
(** ** Doubles: a scripted relay and a plain CSV tokenizer               *)
(* ===================================================================== *)

Module Doubles.
Import Effects Env.

(** A relay that answers the coming [send_message] calls from a script and
    accepts once the script is used up. *)
Record relay : Type := mkRelay {
  answers : list (option exn);
  on_quit : option exn
}.

Definition relay_send (c : relay) (m : Message) : relay * option exn :=
  match answers c with
  | [] => (c, None)
  | r :: rest => (mkRelay rest (on_quit c), r)
  end.

(** The signatures of PNG and GIF files. *)
Definition sniff (data : list byte) : option string :=
  match data with
  | x89 :: x50 :: x4e :: x47 :: x0d :: x0a :: x1a :: x0a :: _ => Some "png"
  | x47 :: x49 :: x46 :: x38 :: (x37 | x39) :: x61 :: _ => Some "gif"
  | _ => None
  end.

Definition nl : ascii := ascii_of_nat 10.

(** Fields of a line without quoting: split at commas. *)
Fixpoint split_at (sep : ascii) (s : list ascii) (cur : list ascii)
  : list (list ascii) :=
  match s with
  | [] => [rev cur]
  | c :: rest =>
      if Ascii.eqb c sep
      then rev cur :: split_at sep rest []
      else split_at sep rest (c :: cur)
  end.

Definition fields_of_line (line : list ascii) : list string :=
  match line with
  | [] => []
  | _ => map string_of_list_ascii (split_at "," line [])
  end.

(** One row a line; a final newline ends the last line. *)
Definition plain_csv (text : string) : list (list string) :=
  let lines := split_at nl (list_ascii_of_string text) [] in
  let lines := match rev lines with
               | [] :: earlier => rev earlier
               | _ => lines
               end in
  map fields_of_line lines.

(** A platform with a scripted relay: how connecting, STARTTLS and login
    answer, and the relay behind them. *)
Definition scripted (connect : relay + exn) (tls auth : option exn) : Platform :=
  {| conn := relay;
     SMTP := fun _ _ => connect;
     starttls := fun c => (c, tls);
     login := fun c _ _ => (c, auth);
     send_message := relay_send;
     quit := fun c => (c, on_quit c);
     what := sniff;
     csv_reader := plain_csv;
     csv_error := fun _ => None;
     decode_utf8 := fun raw => inl (string_of_list_byte raw);
     setup_logging := None |}.

(** A relay that accepts everything. *)
Definition willing : relay := mkRelay [] None.

(** A relay that rejects the first [n] messages. *)
Definition rejecting (n : nat) : relay :=
  mkRelay (repeat (Some (SMTPException "Connection unexpectedly closed")) n) None.

(** The platforms of the examples, and a store whose relay is connected. *)
Definition obliging : Platform := scripted (inl willing) None None.
Definition refusing (n : nat) : Platform := scripted (inl (rejecting n)) None None.
Definition online (r : relay) : store relay := mkStore true false (Some r).

Definition bytes_of (s : string) : list byte := list_byte_of_string s.

(** Lines of text joined, each ended by a newline. *)
Fixpoint text_of_lines (lines : list string) : string :=
  match lines with
  | [] => EmptyString
  | l :: rest => l +:+ String nl (text_of_lines rest)
  end.

(** A relay whose login is refused. *)
Definition bad_login : Platform :=
  scripted (inl willing) None
           (Some (SMTPException "Username and Password not accepted")).

(** A table with an address column and one with none. *)
Definition sample_table : list byte :=
  bytes_of (text_of_lines ["Email"; "a@x.com"; "bad"; " b@y.com "]).
Definition table_without_column : list byte :=
  bytes_of (text_of_lines ["Name,Phone"; "Bob,555"]).

(** A table two of whose columns have the same name. *)
Definition table_with_repeated_name : list byte :=
  bytes_of (text_of_lines ["email,x,email"; "a@x.com,y,b@y.com"]).

Definition sample_inputs (csv_file : option (list byte)) : Automation.inputs :=
  Automation.mkInputs false csv_file [] "Hi" "<p>x</p>" true.

End Doubles.

(* ===================================================================== *)
(** ** The vocabulary of the specification                               *)
(* ===================================================================== *)

Module Stated.
Import EmailValidator.

(** The address grammar [local-part@domain.tld]: a non-empty local part of
    letters, digits and [._%+-], a non-empty domain of letters, digits, dots
    and hyphens, and a final label of at least two letters. *)
Definition address_shape (w : list ascii) : Prop :=
  exists l d t,
    w = l ++ "@"%char :: d ++ "."%char :: t
    /\ l <> [] /\ forallb local_char l = true
    /\ d <> [] /\ forallb domain_char d = true
    /\ 2 <= length t /\ forallb is_alpha t = true.

Definition has_at (w : list ascii) : Prop := In "@"%char w.

(** The text after the last dot is made of at least two letters. *)
Definition has_final_label (w : list ascii) : Prop :=
  exists pre t,
    w = pre ++ "."%char :: t /\ 2 <= length t /\ forallb is_alpha t = true.

(** A statement that leaves the store as it was and performs nothing. *)
Definition no_side_effect {conn A} (c : Effects.M conn A) (s : Effects.store conn)
  : Prop :=
  Observe.store_of (c s) = s /\ Observe.events_of (c s) = [].

(** A statement whose outcome does not depend on the store, that leaves the
    store alone, and whose events are diagnostic lines chosen by the debug
    flag. *)
Definition reporting {conn A} (c : Effects.M conn A) : Prop :=
  (forall s1 s2, Observe.outcome_of (c s1) = Observe.outcome_of (c s2))
  /\ (forall s, Observe.store_of (c s) = s)
  /\ (forall s, forallb Observe.is_diagnostic (Observe.events_of (c s)) = true)
  /\ (forall s1 s2, Effects.debug_mode s1 = Effects.debug_mode s2 ->
        Observe.events_of (c s1) = Observe.events_of (c s2)).

(** Every success in a sequence of markers is followed by a pause of one
    time unit. *)
Fixpoint paced (ms : list Observe.marker) : bool :=
  match ms with
  | [] => true
  | Observe.Succeeded :: rest =>
      match rest with
      | Observe.Pause 1 :: _ => paced rest
      | _ => false
      end
  | _ :: rest => paced rest
  end.

(** The progress report as the specification words it: each value handed
    to the progress bar is the number of recipients sent so far (the one
    just sent included: its log line precedes the report) over the total,
    the values never decrease, the last one is the number of successes over
    the total, and 1 is reported only when every recipient was sent. *)
Definition progress_as_stated (total : nat) (t : list Effects.event) : Prop :=
  (forall pre q post,
      t = pre ++ Effects.Progress q :: post ->
      (q == Z.of_nat (Observe.successes pre) # Pos.of_nat total)%Q)
  /\ StronglySorted Qle (Observe.fractions t)
  /\ (List.last (Observe.fractions t) 0%Q
       == Z.of_nat (Observe.successes t) # Pos.of_nat total)%Q
  /\ (Exists (fun q => (q == 1)%Q) (Observe.fractions t) ->
       forallb snd (Observe.outcomes t) = true).

(** The session was opened: [setup_smtp] went through to its last line. *)
Definition session_opened (t : list Effects.event) : bool :=
  existsb (fun ev => match ev with
                     | Effects.Log Effects.SmtpEstablished => true
                     | _ => false
                     end) t.

(** Closing as the specification words it: the session is closed once at
    the end of a run, and when it was never successfully opened closing does
    nothing and no error is raised. *)
Definition close_as_stated {conn}
    (x : Effects.result unit * Effects.store conn * list Effects.event) : Prop :=
  (session_opened (Observe.events_of x) = true ->
   Observe.quits (Observe.events_of x) = 1)
  /\ (session_opened (Observe.events_of x) = false ->
      Observe.quits (Observe.events_of x) = 0
      /\ Observe.outcome_of x = Effects.Ok tt).

(** A header names the address column: it contains "email", whatever the
    case of its letters. *)
Definition names_email (column : string) : bool :=
  Text.contains "email" (Text.lower column).

(** An address followed by a line feed. *)
Definition address_with_newline : string :=
  "a@b.com" +:+ String newline EmptyString.

(** The position of the first column, in column order, whose name contains
    "email". *)
Fixpoint first_email_position (columns : list string) : option nat :=
  match columns with
  | [] => None
  | column :: rest =>
      if names_email column then Some 0
      else option_map S (first_email_position rest)
  end.

(** The last position at which a column has the given name. *)
Fixpoint last_position (name : string) (columns : list string) : option nat :=
  match columns with
  | [] => None
  | column :: rest =>
      match last_position name rest with
      | Some j => Some (S j)
      | None => if String.eqb column name then Some 0 else None
      end
  end.

(** Column selection as the specification words it: the addresses are
    those of the first column whose name contains "email" (the stripped
    fields of that column that the validator accepts, in row order). *)
Definition selection_as_stated {conn A}
    (columns : list string) (rows : list (list string))
    (x : Effects.result (list string) * Effects.store conn * A) : Prop :=
  forall i,
    first_email_position columns = Some i ->
    Forall (fun row => i < length row) rows ->
    fst (fst x)
    = Effects.Ok (List.filter is_valid_email
                    (map (fun row => Text.strip (nth i row EmptyString)) rows)).

End Stated.

(* ===================================================================== *)
(** ** The shape of the traces of the dispatch loop                      *)
(* ===================================================================== *)

Module Shapes.
Import Effects Automation.

(** What is left in the trace by the messages built so far: nothing, or
    the log line of the file that could not be encoded. *)
Inductive build_end {A} : result A -> list event -> Prop :=
| Built a : build_end (Ok a) []
| Unbuilt file_name e : build_end (Raised e) [Log (AttachError file_name e)].

(** How one attempt ends and what it leaves in the trace. *)
Inductive attempt_end (email : string) (idx total : nat)
  : bool -> result unit -> list event -> Prop :=
| AttemptSent m :
    attempt_end email idx total true (Ok tt)
      [Smtp (SendMessage m None); Log (SentOk email);
       StatusText (SSent email); Progress (fraction idx total); Sleep 1]
| AttemptUnbuilt server file_name e :
    attempt_end email idx total server (Raised e)
      [Log (AttachError file_name e)]
| AttemptRejected m e :
    attempt_end email idx total true (Raised e)
      [Smtp (SendMessage m (Some e))]
| AttemptNoServer e :
    attempt_end email idx total false (Raised e) [].

(** What the [except] block adds when [retries] attempts are left. *)
Definition failure_trail (email : string) (retries : nat) (e : exn) : list event :=
  Log (SendFailed email e) ::
  (if 0 <? retries
   then [StatusText (SRetrying email retries); Sleep 2]
   else [Log (MaxRetries email); StatusText (SFailed email)]).

(** The trace of the retry loop of one recipient, by attempts left. *)
Inductive recipient_run (email : string) (idx total : nat) (server : bool)
  : nat -> list event -> Prop :=
| RunOut : recipient_run email idx total server 0 []
| RunSent retries t :
    attempt_end email idx total server (Ok tt) t ->
    recipient_run email idx total server (S retries) t
| RunFailed retries e t rest :
    attempt_end email idx total server (Raised e) t ->
    recipient_run email idx total server retries rest ->
    recipient_run email idx total server (S retries)
      (t ++ failure_trail email retries e ++ rest).

(** The trace of the loop over the recipients from position [idx] on. *)
Inductive campaign_run (total : nat) (server : bool)
  : nat -> list string -> list event -> Prop :=
| CampaignDone idx : campaign_run total server idx [] []
| CampaignNext idx email rest t ts :
    recipient_run email idx total server 3 t ->
    campaign_run total server (S idx) rest ts ->
    campaign_run total server idx (email :: rest) (t ++ ts).

(** The attempts and pauses of one recipient: [failures] failed attempts,
    then a success or not.  A pause of 2 follows each failed attempt that
    has a successor, a pause of 1 follows the success. *)
Definition recipient_markers (failures : nat) (sent : bool)
  : list Observe.marker :=
  if sent
  then concat (repeat [Observe.Failed; Observe.Pause 2] failures)
       ++ [Observe.Succeeded; Observe.Pause 1]
  else concat (repeat [Observe.Failed; Observe.Pause 2] (failures - 1))
       ++ [Observe.Failed].

(** The trace of a recipient that was resolved: some failed attempts and
    then either the success or, after the third failure, the give-up. *)
Definition resolved (email : string) (chunk : list event) : Prop :=
  exists failures sent,
    Observe.markers chunk = recipient_markers failures sent
    /\ (if sent then failures <= 2 else failures = 3)
    /\ Observe.outcomes chunk = [(email, sent)].

(** The attempts budget on the stretch of the trace of one recipient of a
    campaign: between one and three attempts, [failures] of them failed,
    each followed by a pause of 2 when another attempt follows; every error
    handled is one failed attempt, and with a connection in place the errors
    handled are exactly those raised while building or sending. *)
Definition within_budget (connected : bool) (email : string)
    (chunk : list event) : Prop :=
  exists failures sent,
    Observe.markers chunk = recipient_markers failures sent
    /\ 1 <= failures + (if sent then 1 else 0) <= 3
    /\ (sent = false -> failures = 3)
    /\ Observe.outcomes chunk = [(email, sent)]
    /\ length (Observe.handled_errors chunk) = failures
    /\ (connected = true ->
        Observe.handled_errors chunk = Observe.raised_errors chunk)
    /\ length (Observe.smtp_calls chunk) <= 3.



End Shapes.

(* ===================================================================== *)
(** ** Further vocabulary, for the properties beyond the specification   *)
(* ===================================================================== *)

Module More.
Import Effects Env Automation Observe.

(** A word without its final line feed, if it has one. *)
Fixpoint chomp (w : list ascii) : list ascii :=
  match w with
  | [] => []
  | c :: rest =>
      match rest with
      | [] => if Ascii.eqb c EmailValidator.newline then [] else [c]
      | _ :: _ => c :: chomp rest
      end
  end.

(** The messages the relay accepted, in order. *)
Definition accepted_sends (t : list event) : list Message :=
  flat_map (fun ev => match ev with
                      | Smtp (SendMessage m None) => [m]
                      | _ => []
                      end) t.

(** The recipients recorded as sent, in order. *)
Definition sent_recipients (t : list event) : list string :=
  flat_map (fun ev => match ev with Log (SentOk email) => [email] | _ => [] end) t.

(** The seconds slept, pause by pause. *)
Definition sleeps (t : list event) : list nat :=
  flat_map (fun ev => match ev with Sleep n => [n] | _ => [] end) t.

(** The events the dispatch loop can perform: debug lines, its four log
    lines, the progress bar and the status text, pauses, and
    [send_message] calls. *)
Definition send_event (ev : event) : bool :=
  match ev with
  | Print _ | NewProgress | NewStatus | StatusText _ | Progress _ | Sleep _ => true
  | Log (AttachError _ _) | Log (SentOk _) | Log (SendFailed _ _)
  | Log (MaxRetries _) => true
  | Smtp (SendMessage _ _) => true
  | _ => false
  end.

(** The second store is the first with debug mode switched off. *)
Definition muted {conn} (s1 s2 : store conn) : Prop :=
  automation_bound s1 = automation_bound s2
  /\ smtp_server s1 = smtp_server s2
  /\ debug_mode s2 = false.

(** The second statement, run with debug mode off, ends as the first does
    and performs what the first performs, its debug lines left out. *)
Definition echoes {conn A} (c1 c2 : M conn A) : Prop :=
  forall s1 s2,
    muted s1 s2 ->
    outcome_of (c1 s1) = outcome_of (c2 s2)
    /\ muted (store_of (c1 s1)) (store_of (c2 s2))
    /\ events_of (c2 s2) = visible (events_of (c1 s1)).

(** The inputs with the debug checkbox set as given. *)
Definition with_debug (debug : bool) (i : inputs) : inputs :=
  mkInputs debug (in_csv_file i) (in_attachment_files i) (in_subject i)
           (in_content i) (in_send_clicked i).

(** The box of a completed campaign was shown. *)
Definition completed_shown (t : list event) : bool :=
  existsb (fun ev => match ev with Ui UiCompleted => true | _ => false end) t.

(** The calls a run makes on the relay, from first to last: none; a
    connection refused; a connection closed after STARTTLS or the login was
    refused; or connect, STARTTLS, login, then [send_message] calls only,
    then [quit]. *)
Inductive relay_session (user : string) : list smtp_call -> Prop :=
| NoSession : relay_session user []
| ConnectRefused e :
    relay_session user [Connect "smtp.gmail.com" 587 (Some e)]
| TlsRefused e r :
    relay_session user
      [Connect "smtp.gmail.com" 587 None; StartTls (Some e); Quit r]
| LoginRefused e r :
    relay_session user
      [Connect "smtp.gmail.com" 587 None; StartTls None; Login user (Some e);
       Quit r]
| Session sends r :
    forallb is_send sends = true ->
    relay_session user
      ([Connect "smtp.gmail.com" 587 None; StartTls None; Login user None]
         ++ sends ++ [Quit r]).

(** The events extraction can perform: debug lines, warnings for invalid
    fields and the error line of a failure. *)
Definition csv_event (ev : event) : bool :=
  match ev with
  | Print _ | Log (InvalidEmail _) | Log (CsvError _) => true
  | _ => false
  end.

(** The events of main before it turns to the relay: those of extraction
    and the box with the number of addresses found. *)
Definition preamble_event (ev : event) : bool :=
  match ev with
  | Ui (UiFound _) => true
  | _ => csv_event ev
  end.

Definition is_csv_error (ev : event) : bool :=
  match ev with Log (CsvError _) => true | _ => false end.

(** A field as extraction keeps it: stripped, and accepted by the
    validator. *)
Definition stripped_valid (email : string) : Prop :=
  EmailValidator.is_valid_email email = true
  /\ exists field, email = Text.strip field.

(** The rows of a table after its header that have at least one field. *)
Definition data_rows (lines : list (list string)) : list (list string) :=
  List.filter (fun r => negb (Csv.is_blank r)) (tl lines).

(** A platform whose reader yields the given rows and then raises the
    given error, whatever the text. *)
Definition stopping_reader (rows : list (list string)) (e : exn) : Platform :=
  {| conn := Doubles.relay;
     SMTP := fun _ _ => inl Doubles.willing;
     starttls := fun c => (c, None);
     login := fun c _ _ => (c, None);
     send_message := Doubles.relay_send;
     quit := fun c => (c, Doubles.on_quit c);
     what := Doubles.sniff;
     csv_reader := fun _ => rows;
     csv_error := fun _ => Some e;
     decode_utf8 := fun raw => inl (string_of_list_byte raw);
     setup_logging := None |}.

Section WithPlatform.
Context {P : Platform}.

(** The header lines of a message from [sender] to [recipient]. *)
Definition envelope (sender recipient subject : string) : list (string * string) :=
  [("Content-Type", "multipart/mixed"); ("MIME-Version", "1.0");
   ("From", sender); ("To", recipient); ("Subject", subject)].

(** The part attached for a file whose payload is recognised as an image:
    the payload, the type found, and the file name in an attachment
    disposition. *)
Definition image_part (file : string * list byte) : list Part :=
  match what (snd file) with
  | Some subtype =>
      [ImagePart subtype (snd file)
         [mkHeader "Content-Disposition" "attachment" [("filename", fst file)]]]
  | None => []
  end.

Definition image_parts (files : list (string * list byte)) : list Part :=
  flat_map image_part files.

(** The name of the first file whose payload is not recognised. *)
Fixpoint first_unrecognised (files : list (string * list byte)) : option string :=
  match files with
  | [] => None
  | file :: rest =>
      match what (snd file) with
      | Some _ => first_unrecognised rest
      | None => Some (fst file)
      end
  end.

(** The message of a campaign for one recipient. *)
Definition campaign_message (sender recipient subject content : string)
    (files : list (string * list byte)) : Message :=
  mkMessage (envelope sender recipient subject)
            (TextPart "html" content :: image_parts files).

(** What a recipient sent at the first attempt leaves in the trace, debug
    lines apart. *)
Definition sent_block (sender subject content : string)
    (files : list (string * list byte)) (total : nat)
    (entry : nat * string) : list event :=
  [Smtp (SendMessage (campaign_message sender (snd entry) subject content files)
                     None);
   Log (SentOk (snd entry));
   StatusText (SSent (snd entry));
   Progress (fraction (fst entry) total);
   Sleep 1].


(** The outcome of [quit]. *)
Definition closing (c : conn) : result unit :=
  match snd (quit c) with None => Ok tt | Some e => Raised e end.

(** The error of reading the local [automation] of main before any
    assignment to it. *)
Definition unbound : exn :=
  UnboundLocalError
    "cannot access local variable 'automation' where it is not associated with a value".

(** The text of the content handed to [read_csv_content]. *)
Definition decoded (csv_content : csv_input) : string + exn :=
  match csv_content with
  | CsvStr text => inl text
  | CsvBytes raw => decode_utf8 raw
  end.

End WithPlatform.

End More.

(* ===================================================================== *)
(** * Properties                                                         *)
(* ===================================================================== *)

(** ** The matcher decides the language                                  *)

Module RegexFacts.
Import Regex.

Lemma lang_cat_inv r1 r2 w :
  lang (Cat r1 r2) w -> exists u v, w = u ++ v /\ lang r1 u /\ lang r2 v.
Proof. inversion 1; subst; eauto. Qed.

Lemma lang_cls_inv p w : lang (Cls p) w -> exists c, w = [c] /\ p c = true.
Proof. inversion 1; subst; eauto. Qed.

Lemma lang_alt_inv r1 r2 w : lang (Alt r1 r2) w -> lang r1 w \/ lang r2 w.
Proof. inversion 1; subst; auto. Qed.

Lemma nullable_spec r : nullable r = true <-> lang r [].
Proof.
  induction r as [| | p | r1 IH1 r2 IH2 | r1 IH1 r2 IH2 | r IH]; simpl.
  - split; [discriminate | inversion 1].
  - split; [constructor | reflexivity].
  - split; [discriminate | inversion 1].
  - rewrite andb_true_iff, IH1, IH2. split.
    + intros [H1 H2]. change (@nil ascii) with (@nil ascii ++ []).
      now constructor.
    + intros H. apply lang_cat_inv in H as (u & v & Heq & Hu & Hv).
      symmetry in Heq. apply app_eq_nil in Heq as [-> ->]. now split.
  - rewrite orb_true_iff, IH1, IH2. split.
    + intros [H | H]; [now apply L_alt_l | now apply L_alt_r].
    + intros H. apply lang_alt_inv in H. tauto.
  - split; [constructor | reflexivity].
Qed.

(** A word of [r*] that starts with [c] starts with a word of [r] that
    starts with [c]. *)
Lemma lang_star_cons_inv r c w :
  lang (Star r) (c :: w) ->
  exists u v, w = u ++ v /\ lang r (c :: u) /\ lang (Star r) v.
Proof.
  intros H. remember (Star r) as sr eqn:Hsr. remember (c :: w) as cw eqn:Hcw.
  induction H as [| | | | | r0 | r0 u v Hu _ Hv IHv]; try discriminate.
  injection Hsr as ->.
  destruct u as [| a u'].
  - simpl in Hcw. now apply IHv.
  - simpl in Hcw. injection Hcw as <- <-. eauto.
Qed.

Lemma deriv_sound c r : forall w, lang (deriv c r) w -> lang r (c :: w).
Proof.
  induction r as [| | p | r1 IH1 r2 IH2 | r1 IH1 r2 IH2 | r IH]; simpl; intros w H.
  - inversion H.
  - inversion H.
  - destruct (p c) eqn:Hp; inversion H; subst. now constructor.
  - destruct (nullable r1) eqn:Hn.
    + apply lang_alt_inv in H as [H | H].
      * apply lang_cat_inv in H as (u & v & -> & Hu & Hv).
        change (c :: u ++ v) with ((c :: u) ++ v). constructor; auto.
      * change (c :: w) with ([] ++ c :: w). constructor; auto.
        now apply nullable_spec.
    + apply lang_cat_inv in H as (u & v & -> & Hu & Hv).
      change (c :: u ++ v) with ((c :: u) ++ v). constructor; auto.
  - apply lang_alt_inv in H as [H | H]; [apply L_alt_l | apply L_alt_r]; auto.
  - apply lang_cat_inv in H as (u & v & -> & Hu & Hv).
    change (c :: u ++ v) with ((c :: u) ++ v). constructor; auto.
Qed.

Lemma deriv_complete c r : forall w, lang r (c :: w) -> lang (deriv c r) w.
Proof.
  induction r as [| | p | r1 IH1 r2 IH2 | r1 IH1 r2 IH2 | r IH]; simpl; intros w H.
  - inversion H.
  - inversion H.
  - apply lang_cls_inv in H as (a & Heq & Hp). injection Heq as -> ->.
    rewrite Hp. constructor.
  - apply lang_cat_inv in H as (u & v & Heq & Hu & Hv).
    destruct u as [| a u'].
    + simpl in Heq. subst v.
      assert (Hn : nullable r1 = true) by now apply nullable_spec.
      rewrite Hn. apply L_alt_r. auto.
    + simpl in Heq. injection Heq as -> ->.
      destruct (nullable r1); [apply L_alt_l |]; constructor; auto.
  - apply lang_alt_inv in H as [H | H]; [apply L_alt_l | apply L_alt_r]; auto.
  - apply lang_star_cons_inv in H as (u & v & -> & Hu & Hv).
    constructor; auto.
Qed.

Lemma matches_spec w : forall r, matches r w = true <-> lang r w.
Proof.
  induction w as [| c w IH]; intros r; simpl.
  - apply nullable_spec.
  - rewrite IH. split; [apply deriv_sound | apply deriv_complete].
Qed.

(** Repetitions of a character class. *)
Lemma lang_star_cls p w : lang (Star (Cls p)) w <-> forallb p w = true.
Proof.
  split.
  - induction w as [| c w IH]; intros H; [reflexivity |].
    apply lang_star_cons_inv in H as (u & v & -> & Hu & Hv).
    apply lang_cls_inv in Hu as (a & Heq & Hp).
    injection Heq as -> Hu. symmetry in Hu. subst u. simpl in *.
    rewrite Hp. now apply IH.
  - induction w as [| c w IH]; simpl; intros H; [constructor |].
    apply andb_true_iff in H as [Hc Hw].
    change (c :: w) with ([c] ++ w). constructor; [now constructor | auto].
Qed.

Lemma lang_plus_cls p w :
  lang (Plus (Cls p)) w <-> w <> [] /\ forallb p w = true.
Proof.
  unfold Plus. split.
  - intros H. apply lang_cat_inv in H as (u & v & -> & Hu & Hv).
    apply lang_cls_inv in Hu as (a & -> & Hp). apply lang_star_cls in Hv.
    simpl. rewrite Hp, Hv. split; [discriminate | reflexivity].
  - intros [Hne H]. destruct w as [| c w]; [congruence |].
    simpl in H. apply andb_true_iff in H as [Hc Hw].
    change (c :: w) with ([c] ++ w).
    constructor; [now constructor | now apply lang_star_cls].
Qed.

Lemma lang_atleast2_cls p w :
  lang (AtLeast2 (Cls p)) w <-> 2 <= length w /\ forallb p w = true.
Proof.
  unfold AtLeast2. split.
  - intros H. apply lang_cat_inv in H as (u & v & -> & Hu & Hv).
    apply lang_cls_inv in Hu as (a & -> & Hp).
    apply lang_cat_inv in Hv as (u & v' & -> & Hu & Hv).
    apply lang_cls_inv in Hu as (b & -> & Hq). apply lang_star_cls in Hv.
    simpl. rewrite Hp, Hq, Hv. split; [lia | reflexivity].
  - intros [Hlen H]. destruct w as [| a [| b w]]; simpl in Hlen; try lia.
    simpl in H. apply andb_true_iff in H as [Ha H].
    apply andb_true_iff in H as [Hb Hw].
    change (a :: b :: w) with ([a] ++ [b] ++ w).
    constructor; [now constructor |].
    constructor; [now constructor | now apply lang_star_cls].
Qed.

Lemma lang_chr c w : lang (Chr c) w <-> w = [c].
Proof.
  unfold Chr. split.
  - intros H. apply lang_cls_inv in H as (a & -> & Hp).
    apply Ascii.eqb_eq in Hp. now subst.
  - intros ->. constructor. apply Ascii.eqb_refl.
Qed.

End RegexFacts.

(** ** EmailValidator.is_valid_email                                     *)

Module ValidatorFacts.
Import Regex RegexFacts EmailValidator Stated.

(** What the validator accepts: an address, or an address followed by one
    newline. *)
Lemma is_valid_email_iff (email : string) :
  is_valid_email email = true <->
  address_shape (list_ascii_of_string email)
  \/ exists w, list_ascii_of_string email = w ++ [newline] /\ address_shape w.
Proof.
  unfold is_valid_email. rewrite matches_spec. unfold pattern, caret, dollar.
  set (w := list_ascii_of_string email). clearbody w. split.
  - intros H.
    apply lang_cat_inv in H as (u0 & w0 & -> & H0 & H).
    inversion H0; subst; clear H0. simpl.
    apply lang_cat_inv in H as (l & w1 & -> & Hl & H).
    apply lang_cat_inv in H as (a & w2 & -> & Ha & H).
    apply lang_cat_inv in H as (d & w3 & -> & Hd & H).
    apply lang_cat_inv in H as (b & w4 & -> & Hb & H).
    apply lang_cat_inv in H as (t & e & -> & Ht & He).
    apply lang_chr in Ha, Hb. subst a b.
    apply lang_plus_cls in Hl as [Hl1 Hl2], Hd as [Hd1 Hd2].
    apply lang_atleast2_cls in Ht as [Ht1 Ht2].
    assert (Hshape : address_shape (l ++ "@"%char :: d ++ "."%char :: t)).
    { exists l, d, t. repeat split; auto. }
    apply lang_alt_inv in He as [He | He].
    + inversion He; subst. left. simpl. now rewrite app_nil_r.
    + apply lang_chr in He. subst e. right.
      exists (l ++ "@"%char :: d ++ "."%char :: t). split; [| exact Hshape].
      simpl. rewrite <- !app_assoc. simpl. rewrite <- !app_assoc. reflexivity.
  - assert (Hmain : forall v e, address_shape v ->
              lang (Alt Eps (Chr newline)) e ->
              lang (Cat Eps (Cat (Plus (Cls local_char)) (Cat (Chr "@")
                     (Cat (Plus (Cls domain_char)) (Cat (Chr ".")
                       (Cat (AtLeast2 (Cls is_alpha)) (Alt Eps (Chr newline))))))))
                   (v ++ e)).
    { intros v e (l & d & t & -> & Hl1 & Hl2 & Hd1 & Hd2 & Ht1 & Ht2) He.
      change (lang ?r ((l ++ "@"%char :: d ++ "."%char :: t) ++ e))
        with (lang r ([] ++ (l ++ ["@"%char] ++ d ++ ["."%char] ++ t) ++ e)).
      constructor; [constructor |].
      rewrite <- app_assoc. constructor; [now apply lang_plus_cls |].
      rewrite <- app_assoc. constructor; [now apply lang_chr |].
      rewrite <- app_assoc. constructor; [now apply lang_plus_cls |].
      rewrite <- app_assoc. constructor; [now apply lang_chr |].
      constructor; [now apply lang_atleast2_cls | exact He]. }
    intros [H | (v & -> & H)].
    + rewrite <- (app_nil_r w). apply Hmain; [exact H |]. apply L_alt_l. constructor.
    + apply Hmain; [exact H |]. apply L_alt_r. now apply lang_chr.
Qed.

(** Every string of the grammar is accepted. *)
Lemma valid_of_shape (email : string) :
  address_shape (list_ascii_of_string email) -> is_valid_email email = true.
Proof. intros H. apply is_valid_email_iff. now left. Qed.

Lemma shape_has_at w : address_shape w -> has_at w.
Proof.
  intros (l & d & t & -> & _). unfold has_at. apply in_or_app. right. now left.
Qed.

Lemma shape_has_final_label w : address_shape w -> has_final_label w.
Proof.
  intros (l & d & t & -> & _ & _ & _ & _ & Ht1 & Ht2).
  exists (l ++ "@"%char :: d), t. split; [| now split].
  rewrite <- app_assoc. reflexivity.
Qed.

(** A string without [@] is rejected. *)
Lemma invalid_without_at (email : string) :
  ~ has_at (list_ascii_of_string email) -> is_valid_email email = false.
Proof.
  intros Hno. destruct (is_valid_email email) eqn:Hv; [| reflexivity].
  exfalso. apply Hno. apply is_valid_email_iff in Hv as [H | (w & Heq & H)].
  - now apply shape_has_at.
  - rewrite Heq. unfold has_at. apply in_or_app. left. now apply shape_has_at.
Qed.

(** A string that does not end in a newline and lacks a final label of two
    letters or more is rejected. *)
Lemma invalid_without_label (email : string) :
  (forall w, list_ascii_of_string email <> w ++ [newline]) ->
  ~ has_final_label (list_ascii_of_string email) ->
  is_valid_email email = false.
Proof.
  intros Hnl Hno. destruct (is_valid_email email) eqn:Hv; [| reflexivity].
  exfalso. apply is_valid_email_iff in Hv as [H | (w & Heq & H)].
  - apply Hno. now apply shape_has_final_label.
  - now apply (Hnl w).
Qed.

Lemma last_app_cons {A} (l : list A) (a : A) (t : list A) (d : A) :
  List.last (l ++ a :: t) d = List.last (a :: t) d.
Proof.
  induction l as [| b l IH]; [reflexivity |].
  change ((b :: l) ++ a :: t) with (b :: (l ++ a :: t)).
  destruct (l ++ a :: t) eqn:E; [now destruct l | exact IH].
Qed.

Lemma forallb_last {A} (p : A -> bool) (t : list A) (d : A) :
  t <> [] -> forallb p t = true -> p (List.last t d) = true.
Proof.
  induction t as [| a t IH]; [congruence |]. intros _ H.
  simpl in H. apply andb_true_iff in H as [Ha Ht].
  destruct t as [| b t']; [exact Ha |].
  change (List.last (a :: b :: t') d) with (List.last (b :: t') d).
  apply IH; [discriminate | exact Ht].
Qed.

(** The last character of a string with a final label is a letter. *)
Lemma final_label_ends_in_letter w d :
  has_final_label w -> is_alpha (List.last w d) = true.
Proof.
  intros (pre & t & -> & Hlen & Ht).
  assert (Hne : t <> []) by (destruct t; simpl in Hlen; [lia | discriminate]).
  rewrite last_app_cons.
  destruct t as [| a t']; [congruence |].
  change (List.last ("."%char :: a :: t') d) with (List.last (a :: t') d).
  now apply forallb_last.
Qed.

(** C6, at the input where the code departs from it: the validator accepts
    an address followed by a line feed, a string that has an [@] but whose
    text after the last dot is not made of letters only.  The other parts
    of the claim hold: [valid_of_shape], [invalid_without_at], and
    [invalid_without_label] for strings that do not end in a line feed. *)
Theorem validator_accepts_trailing_newline :
  is_valid_email address_with_newline = true
  /\ has_at (list_ascii_of_string address_with_newline)
  /\ ~ has_final_label (list_ascii_of_string address_with_newline).
Proof.
  split; [reflexivity |]. split.
  - unfold has_at. simpl. tauto.
  - intros H. apply (final_label_ends_in_letter _ "a"%char) in H.
    vm_compute in H. discriminate.
Qed.

End ValidatorFacts.

(** ** Statements that only report                                       *)

Module BuildFacts.
Import Effects Env Automation Observe Stated.
Local Open Scope py_scope.

Section WithPlatform.
Context {P : Platform}.

Local Abbreviation M := (Effects.M conn).
Local Abbreviation store := (Effects.store conn).

Lemma reporting_ret {A} (a : A) : reporting (ret a : M A).
Proof. repeat split. Qed.

Lemma reporting_raise {A} (e : exn) : reporting (raise e : M A).
Proof. repeat split. Qed.

Lemma reporting_log m : reporting (log m).
Proof. repeat split. Qed.

Lemma reporting_debug m : reporting (debug m).
Proof.
  unfold debug, bind, get, reporting. repeat split; intros.
  - destruct (debug_mode s1), (debug_mode s2); reflexivity.
  - destruct (debug_mode s); reflexivity.
  - destruct (debug_mode s); reflexivity.
  - rewrite H. destruct (debug_mode s2); reflexivity.
Qed.

Lemma reporting_bind {A B} (c : M A) (k : A -> M B) :
  reporting c -> (forall a, reporting (k a)) -> reporting (bind c k).
Proof.
  intros (Hc1 & Hc2 & Hc3 & Hc4) Hk. unfold reporting, bind.
  repeat split.
  - intros s1 s2. specialize (Hc1 s1 s2).
    pose proof (Hc2 s1) as E1. pose proof (Hc2 s2) as E2.
    destruct (c s1) as [[r1 s1'] t1], (c s2) as [[r2 s2'] t2].
    unfold outcome_of, store_of in *. simpl in *. subst r2 s1' s2'.
    destruct r1 as [a | e]; [| reflexivity].
    destruct (Hk a) as (Hk1 & _). specialize (Hk1 s1 s2).
    destruct (k a s1) as [[r1 ?] ?], (k a s2) as [[r2 ?] ?]. exact Hk1.
  - intros s. pose proof (Hc2 s) as E.
    destruct (c s) as [[r s'] t]. unfold store_of in *. simpl in *. subst s'.
    destruct r as [a | e]; [| reflexivity].
    destruct (Hk a) as (_ & Hk2 & _). specialize (Hk2 s).
    destruct (k a s) as [[r ?] ?]. exact Hk2.
  - intros s. pose proof (Hc2 s) as E. pose proof (Hc3 s) as F.
    destruct (c s) as [[r s'] t]. unfold store_of, events_of in *. simpl in *.
    subst s'. destruct r as [a | e]; [| exact F].
    destruct (Hk a) as (_ & _ & Hk3 & _). specialize (Hk3 s).
    destruct (k a s) as [[r ?] t']. simpl in *.
    rewrite forallb_app, F. exact Hk3.
  - intros s1 s2 Hd. specialize (Hc1 s1 s2). specialize (Hc4 s1 s2 Hd).
    pose proof (Hc2 s1) as E1. pose proof (Hc2 s2) as E2.
    destruct (c s1) as [[r1 s1'] t1], (c s2) as [[r2 s2'] t2].
    unfold outcome_of, store_of, events_of in *. simpl in *. subst r2 s1' s2' t2.
    destruct r1 as [a | e]; [| reflexivity].
    destruct (Hk a) as (_ & _ & _ & Hk4). specialize (Hk4 s1 s2 Hd).
    destruct (k a s1) as [[r1 ?] ?], (k a s2) as [[r2 ?] ?]. simpl in *.
    now rewrite Hk4.
Qed.

Lemma reporting_try_except {A} (c : M A) (h : exn -> M A) :
  reporting c -> (forall e, reporting (h e)) -> reporting (try_except c h).
Proof.
  intros (Hc1 & Hc2 & Hc3 & Hc4) Hh. unfold reporting, try_except.
  repeat split.
  - intros s1 s2. specialize (Hc1 s1 s2).
    pose proof (Hc2 s1) as E1. pose proof (Hc2 s2) as E2.
    destruct (c s1) as [[r1 s1'] t1], (c s2) as [[r2 s2'] t2].
    unfold outcome_of, store_of in *. simpl in *. subst r2 s1' s2'.
    destruct r1 as [a | e]; [reflexivity |].
    destruct (Hh e) as (Hh1 & _). specialize (Hh1 s1 s2).
    destruct (h e s1) as [[r1 ?] ?], (h e s2) as [[r2 ?] ?]. exact Hh1.
  - intros s. pose proof (Hc2 s) as E.
    destruct (c s) as [[r s'] t]. unfold store_of in *. simpl in *. subst s'.
    destruct r as [a | e]; [reflexivity |].
    destruct (Hh e) as (_ & Hh2 & _). specialize (Hh2 s).
    destruct (h e s) as [[r ?] ?]. exact Hh2.
  - intros s. pose proof (Hc2 s) as E. pose proof (Hc3 s) as F.
    destruct (c s) as [[r s'] t]. unfold store_of, events_of in *. simpl in *.
    subst s'. destruct r as [a | e]; [exact F |].
    destruct (Hh e) as (_ & _ & Hh3 & _). specialize (Hh3 s).
    destruct (h e s) as [[r ?] t']. simpl in *.
    rewrite forallb_app, F. exact Hh3.
  - intros s1 s2 Hd. specialize (Hc1 s1 s2). specialize (Hc4 s1 s2 Hd).
    pose proof (Hc2 s1) as E1. pose proof (Hc2 s2) as E2.
    destruct (c s1) as [[r1 s1'] t1], (c s2) as [[r2 s2'] t2].
    unfold outcome_of, store_of, events_of in *. simpl in *. subst r2 s1' s2' t2.
    destruct r1 as [a | e]; [reflexivity |].
    destruct (Hh e) as (_ & _ & _ & Hh4). specialize (Hh4 s1 s2 Hd).
    destruct (h e s1) as [[r1 ?] ?], (h e s2) as [[r2 ?] ?]. simpl in *.
    now rewrite Hh4.
Qed.

Lemma reporting_for_fold {A B} (l : list A) (body : B -> A -> M B) :
  (forall acc x, reporting (body acc x)) ->
  forall acc, reporting (for_fold l body acc).
Proof.
  intros Hbody. induction l as [| x l IH]; intros acc; simpl.
  - apply reporting_ret.
  - apply reporting_bind; [apply Hbody | exact IH].
Qed.

Lemma reporting_MIMEImage data : reporting (MIMEImage data).
Proof.
  unfold MIMEImage. destruct (what data); [apply reporting_ret | apply reporting_raise].
Qed.

Lemma reporting_attach_file message file : reporting (attach_file message file).
Proof.
  destruct file as [file_name file_content]. unfold attach_file.
  apply reporting_try_except.
  - apply reporting_bind; [apply reporting_MIMEImage |].
    intros img. apply reporting_ret.
  - intros e. apply reporting_bind; [apply reporting_log |].
    intros _. apply reporting_raise.
Qed.

Lemma reporting_create_message sender recipient subject content attachments :
  reporting (create_message sender recipient subject content attachments).
Proof.
  unfold create_message. apply reporting_bind; [apply reporting_debug |].
  intros _. destruct (truthy attachments).
  - apply reporting_for_fold. intros acc x. apply reporting_attach_file.
  - apply reporting_ret.
Qed.

(** C10: with an empty list of attachments the builder does what it does
    with no list at all, and in both cases the message it returns has one
    part, the HTML body, and no attachment part. *)
Theorem empty_attachments_like_none
    (sender recipient subject content : string) (s : store) :
  create_message sender recipient subject content (Some []) s
  = create_message sender recipient subject content None s
  /\ exists message,
       outcome_of (create_message sender recipient subject content None s)
       = Ok message
       /\ msg_parts message = [TextPart "html" content].
Proof.
  split; [reflexivity |].
  unfold create_message, debug, bind, get, outcome_of. simpl.
  destruct (debug_mode s); simpl; eexists; (split; [reflexivity |]); reflexivity.
Qed.

(** C9, as the code has it: the outcome of building (the message, or the
    error) depends on the arguments alone, so two calls with the same
    arguments give equal messages; building leaves the automation object and
    the relay as they were; and all it performs besides is diagnostic
    output, the same for both calls under the same debug flag: a debug line
    when debug mode is on and an error-log line when an attachment cannot be
    encoded. *)
Theorem create_message_repeatable
    (sender recipient subject content : string)
    (attachments : option (list (string * list byte))) :
  let build := create_message sender recipient subject content attachments in
  (forall s1 s2 : store, outcome_of (build s1) = outcome_of (build s2))
  /\ (forall s : store, store_of (build s) = s)
  /\ (forall s : store, forallb is_diagnostic (events_of (build s)) = true)
  /\ (forall s1 s2 : store, debug_mode s1 = debug_mode s2 ->
        events_of (build s1) = events_of (build s2)).
Proof. apply reporting_create_message. Qed.

End WithPlatform.

(** C9 as stated fails: in debug mode the builder prints a line. *)
Lemma create_message_prints :
  ~ Stated.no_side_effect
      (create_message (P := Doubles.obliging)
         "datanyx.ai@gmail.com" "a@x.com" "Hi" "<p>x</p>" None)
      (mkStore true true None).
Proof. intros [_ H]. vm_compute in H. discriminate. Qed.

Lemma create_message_repeatable_witness :
  let build := create_message (P := Doubles.obliging)
                 "datanyx.ai@gmail.com" "a@x.com" "Hi" "<p>x</p>" None in
  outcome_of (build (mkStore true true None))
  = outcome_of (build (mkStore true false (Some Doubles.willing)))
  /\ events_of (build (mkStore true true None))
     = events_of (build (mkStore false true (Some Doubles.willing))).
Proof.
  destruct (create_message_repeatable (P := Doubles.obliging)
              "datanyx.ai@gmail.com" "a@x.com" "Hi" "<p>x</p>" None)
    as (Ho & _ & _ & He).
  split; [apply Ho | apply He; reflexivity].
Defined.

(** and when an attachment is not an image the builder writes to the log. *)
Lemma create_message_logs :
  events_of
    (create_message (P := Doubles.obliging)
       "datanyx.ai@gmail.com" "a@x.com" "Hi" "<p>x</p>"
       (Some [("notes.pdf", Doubles.bytes_of "%PDF-1.4")])
       (mkStore true false None))
  = [Log (AttachError "notes.pdf" (TypeError "Could not guess image MIME subtype"))].
Proof. reflexivity. Qed.

End BuildFacts.

(** ** The dispatch loop                                                 *)

Module EngineFacts.
Import Effects Env Automation Observe Stated Shapes BuildFacts.
Local Open Scope py_scope.

(** Projections of a trace do not see debug lines. *)
Lemma flat_map_visible {B} (f : event -> list B) (t : list event) :
  (forall m, f (Print m) = []) -> flat_map f (visible t) = flat_map f t.
Proof.
  intros Hf. induction t as [| ev t IH]; [reflexivity |].
  destruct ev; simpl; rewrite ?IH, ?Hf; reflexivity.
Qed.

Lemma visible_app t1 t2 : visible (t1 ++ t2) = visible t1 ++ visible t2.
Proof. apply List.filter_app. Qed.

Lemma markers_visible t : markers (visible t) = markers t.
Proof. now apply flat_map_visible. Qed.
Lemma fractions_visible t : fractions (visible t) = fractions t.
Proof. now apply flat_map_visible. Qed.
Lemma outcomes_visible t : outcomes (visible t) = outcomes t.
Proof. now apply flat_map_visible. Qed.
Lemma smtp_calls_visible t : smtp_calls (visible t) = smtp_calls t.
Proof. now apply flat_map_visible. Qed.
Lemma handled_errors_visible t : handled_errors (visible t) = handled_errors t.
Proof. now apply flat_map_visible. Qed.
Lemma raised_errors_visible t : raised_errors (visible t) = raised_errors t.
Proof. now apply flat_map_visible. Qed.

Lemma frame_refl {conn} (s : store conn) : frame s s.
Proof. repeat split. Qed.

Lemma frame_trans {conn} (s1 s2 s3 : store conn) :
  frame s1 s2 -> frame s2 s3 -> frame s1 s3.
Proof. unfold frame. intros (? & ? & ?) (? & ? & ?). repeat split; congruence. Qed.

Section WithPlatform.
Context {P : Platform}.

Local Abbreviation M := (Effects.M conn).
Local Abbreviation store := (Effects.store conn).

Lemma debug_run (m : debug_msg) (s : store) :
  exists t, debug m s = (Ok tt, s, t) /\ visible t = [].
Proof.
  unfold debug, bind, get. destruct (debug_mode s); simpl; eauto.
Qed.

Lemma attach_file_run (message : Message) (file_name : string)
    (file_content : list byte) (s : store) :
  attach_file message (file_name, file_content) s =
  match what file_content with
  | Some subtype =>
      (Ok (attach (ImagePart subtype file_content
                     [mkHeader "Content-Disposition" "attachment"
                               [("filename", file_name)]]) message), s, [])
  | None =>
      (Raised (TypeError "Could not guess image MIME subtype"), s,
       [Log (AttachError file_name (TypeError "Could not guess image MIME subtype"))])
  end.
Proof.
  unfold attach_file, try_except, bind, MIMEImage, log, emit, ret, raise.
  destruct (what file_content); reflexivity.
Qed.

Lemma attach_files_end (files : list (string * list byte)) :
  forall (message : Message) (s : store),
    store_of (for_fold files attach_file message s) = s
    /\ build_end (outcome_of (for_fold files attach_file message s))
                 (events_of (for_fold files attach_file message s)).
Proof.
  induction files as [| [file_name file_content] files IH]; intros message s.
  - split; [reflexivity | constructor].
  - cbn [for_fold]. unfold bind. rewrite attach_file_run.
    destruct (what file_content) as [subtype |].
    + specialize (IH (attach (ImagePart subtype file_content
                     [mkHeader "Content-Disposition" "attachment"
                               [("filename", file_name)]]) message) s).
      destruct (for_fold files attach_file _ s) as [[r s'] t]. exact IH.
    + split; [reflexivity | constructor].
Qed.

(** Building leaves the store alone and, debug lines apart, leaves either
    nothing or the log line of the failing file. *)
Lemma create_message_end sender recipient subject content attachments (s : store) :
  exists r t,
    create_message sender recipient subject content attachments s = (r, s, t)
    /\ build_end r (visible t).
Proof.
  unfold create_message, bind.
  destruct (debug_run (DCreating recipient) s) as (t0 & -> & Ht0).
  destruct (truthy attachments).
  - match goal with |- context [for_fold ?l ?f ?m s] =>
      pose proof (attach_files_end l m s) as [Hs Hb];
      destruct (for_fold l f m s) as [[r s'] t] end.
    unfold store_of, outcome_of, events_of in *. simpl in *. subst s'.
    exists r, (t0 ++ t). split; [reflexivity |].
    rewrite visible_app, Ht0. simpl.
    inversion Hb; subst; simpl; constructor.
  - exists (Ok (attach (TextPart "html" content)
                 (set_header "Subject" subject
                   (set_header "To" recipient
                     (set_header "From" sender MIMEMultipart))))), (t0 ++ []).
    split; [reflexivity |]. rewrite visible_app, Ht0. constructor.
Qed.

Lemma attempt_end_of sender idx total email subject content attachments (s : store) :
  exists r s' t,
    attempt sender idx total email subject content attachments s = (r, s', t)
    /\ attempt_end email idx total (has_server s) r (visible t)
    /\ frame s s'.
Proof.
  unfold attempt. unfold bind at 1.
  destruct (create_message_end sender email subject content attachments s)
    as (r0 & t0 & -> & Hb).
  remember (visible t0) as v0 eqn:Hv0.
  destruct Hb as [m | file_name e].
  - unfold on_server, bind, get, put, emit, raise, ret, log, debug, has_server.
    destruct (smtp_server s) as [c |] eqn:Hs.
    + destruct (send_message c m) as [c' [e |]] eqn:Hsend.
      * do 3 eexists. split; [reflexivity |]. split.
        -- rewrite visible_app, <- Hv0.
           cbn [visible List.filter negb is_print app]. apply AttemptRejected.
        -- unfold frame, has_server. simpl. rewrite Hs. repeat split.
      * simpl. destruct (debug_mode s) eqn:Hd; simpl.
        -- do 3 eexists. split; [reflexivity |]. split.
           ++ rewrite visible_app, <- Hv0.
              cbn [visible List.filter negb is_print app]. apply AttemptSent.
           ++ unfold frame, has_server. simpl. rewrite Hs, Hd. repeat split.
        -- do 3 eexists. split; [reflexivity |]. split.
           ++ rewrite visible_app, <- Hv0.
              cbn [visible List.filter negb is_print app]. apply AttemptSent.
           ++ unfold frame, has_server. simpl. rewrite Hs, Hd. repeat split.
    + do 3 eexists. split; [reflexivity |]. split.
      * rewrite visible_app, <- Hv0.
        cbn [visible List.filter negb is_print app]. apply AttemptNoServer.
      * apply frame_refl.
  - do 3 eexists. split; [reflexivity |]. split.
    + rewrite <- Hv0. apply AttemptUnbuilt.
    + apply frame_refl.
Qed.

Lemma on_failure_run email retries e (s : store) :
  exists t, on_failure email retries e s = (Ok tt, s, t)
            /\ visible t = failure_trail email retries e.
Proof.
  unfold on_failure, failure_trail, debug, log, bind, emit, get, ret.
  destruct (0 <? retries); [destruct (debug_mode s) |];
    eexists; (split; [reflexivity |]); reflexivity.
Qed.

(** The retry loop never raises, and its trace has the shape of
    [recipient_run]. *)
Lemma retry_loop_run sender idx total email subject content attachments :
  forall retries (s : store),
  exists s' t,
    retry_loop retries sender idx total email subject content attachments s
    = (Ok tt, s', t)
    /\ recipient_run email idx total (has_server s) retries (visible t)
    /\ frame s s'.
Proof.
  induction retries as [| retries IH]; intros s.
  - do 2 eexists. split; [reflexivity |]. split; [constructor | apply frame_refl].
  - cbn [retry_loop]. unfold bind at 1, try_except. unfold bind at 1.
    destruct (attempt_end_of sender idx total email subject content attachments s)
      as (r & s1 & t1 & -> & Hend & Hf1).
    destruct r as [[] | e].
    + do 2 eexists. split; [reflexivity |]. split; [| exact Hf1].
      simpl. rewrite !app_nil_r. now apply RunSent.
    + unfold bind at 1.
      destruct (on_failure_run email retries e s1) as (t2 & -> & Ht2).
      destruct (IH s1) as (s2 & t3 & E3 & Hrun & Hf2).
      cbn [ret]. rewrite E3.
      do 2 eexists. split; [reflexivity |]. split.
      * rewrite !visible_app, Ht2. simpl. rewrite app_nil_r.
        destruct Hf1 as (_ & _ & Hsrv). rewrite Hsrv in Hrun.
        rewrite <- app_assoc. now apply RunFailed.
      * eapply frame_trans; eassumption.
Qed.

(** The loop over the recipients visits each of them and never raises. *)
Lemma campaign_loop_run sender total subject content attachments :
  forall (emails : list string) (idx : nat) (s : store),
  exists s' t,
    for_each (combine (seq idx (length emails)) emails)
      (fun '(idx, email) =>
         retry_loop 3 sender idx total email subject content attachments) s
    = (Ok tt, s', t)
    /\ campaign_run total (has_server s) idx emails (visible t)
    /\ frame s s'.
Proof.
  induction emails as [| email rest IH]; intros idx s.
  - do 2 eexists. split; [reflexivity |]. split; [constructor | apply frame_refl].
  - cbn [length seq combine for_each]. unfold bind at 1.
    destruct (retry_loop_run sender idx total email subject content attachments 3 s)
      as (s1 & t1 & -> & Hrun & Hf1).
    destruct (IH (S idx) s1) as (s2 & t2 & -> & Hrest & Hf2).
    do 2 eexists. split; [reflexivity |]. split.
    + rewrite visible_app. destruct Hf1 as (_ & _ & Hsrv). rewrite Hsrv in Hrest.
      now constructor.
    + eapply frame_trans; eassumption.
Qed.

Lemma send_emails_run sender emails subject content attachments (s : store) :
  exists s' t0 ts,
    send_emails sender emails subject content attachments s
    = (Ok tt, s', t0 ++ [NewProgress; NewStatus] ++ ts ++ [StatusText SCompleted])
    /\ visible t0 = []
    /\ campaign_run (length emails) (has_server s) 0 emails (visible ts)
    /\ frame s s'.
Proof.
  unfold send_emails, enumerate. unfold bind at 1.
  destruct (debug_run DStarting s) as (t0 & -> & Ht0).
  unfold bind at 1, emit at 1. unfold bind at 1, emit at 1. unfold bind at 1.
  destruct (campaign_loop_run sender (length emails) subject content attachments
              emails 0 s) as (s' & t & -> & Hrun & Hf).
  unfold emit. exists s', t0, t. split; [reflexivity |]. auto.
Qed.

(** One step of the retry loop, after a failed and after a successful
    attempt. *)
Lemma retry_loop_failed sender idx total email subject content attachments
    retries (s s1 s2 : store) e t1 t3 :
  attempt sender idx total email subject content attachments s = (Raised e, s1, t1) ->
  retry_loop retries sender idx total email subject content attachments s1
  = (Ok tt, s2, t3) ->
  exists t,
    retry_loop (S retries) sender idx total email subject content attachments s
    = (Ok tt, s2, t)
    /\ visible t = visible t1 ++ failure_trail email retries e ++ visible t3.
Proof.
  intros Ha Hr. cbn [retry_loop]. unfold bind at 1, try_except. unfold bind at 1.
  rewrite Ha. unfold bind at 1.
  destruct (on_failure_run email retries e s1) as (t2 & -> & Ht2).
  cbn [ret]. rewrite Hr. eexists. split; [reflexivity |].
  rewrite !visible_app, Ht2. cbn [visible List.filter app].
  rewrite app_nil_r, <- app_assoc. reflexivity.
Qed.

Lemma retry_loop_sent sender idx total email subject content attachments
    retries (s s1 : store) t1 :
  attempt sender idx total email subject content attachments s = (Ok tt, s1, t1) ->
  exists t,
    retry_loop (S retries) sender idx total email subject content attachments s
    = (Ok tt, s1, t)
    /\ visible t = visible t1.
Proof.
  intros Ha. cbn [retry_loop]. unfold bind at 1, try_except. unfold bind at 1.
  rewrite Ha. eexists. split; [reflexivity |].
  rewrite !visible_app. simpl. now rewrite !app_nil_r.
Qed.


End WithPlatform.

(** *** What one recipient leaves in the trace *)

Ltac invert_runs :=
  repeat match goal with
         | H : recipient_run _ _ _ _ _ _ |- _ => inversion H; subst; clear H
         | H : attempt_end _ _ _ _ _ _ |- _ => inversion H; subst; clear H
         end.

Lemma recipient_digest email idx total server t :
  recipient_run email idx total server 3 t ->
  exists failures sent,
    markers t = recipient_markers failures sent
    /\ (if sent then failures <= 2 else failures = 3)
    /\ outcomes t = [(email, sent)]
    /\ fractions t = (if sent then [fraction idx total] else [])
    /\ length (handled_errors t) = failures
    /\ (server = true -> handled_errors t = raised_errors t)
    /\ forallb is_send (smtp_calls t) = true
    /\ length (smtp_calls t) <= failures + (if sent then 1 else 0).
Proof.
  intros H.
  exists (length (handled_errors t)),
         (match outcomes t with [(_, b)] => b | _ => false end).
  invert_runs; cbn; repeat split; try reflexivity; try lia; try discriminate.
Qed.

Lemma recipient_within_budget email idx total server t :
  recipient_run email idx total server 3 t -> within_budget server email t.
Proof.
  intros H. apply recipient_digest in H
    as (failures & sent & Hm & Hb & Ho & _ & Hh & Hr & _ & Hc).
  exists failures, sent. repeat split; auto; destruct sent; try lia; congruence.
Qed.



(** The trace of the loop, recipient by recipient. *)
Lemma campaign_chunks (Q : nat -> string -> list event -> Prop) total server :
  (forall email idx t, recipient_run email idx total server 3 t -> Q idx email t) ->
  forall idx emails ts,
    campaign_run total server idx emails ts ->
    exists chunks,
      ts = concat chunks
      /\ Forall2 (fun entry chunk => Q (fst entry) (snd entry) chunk)
                 (combine (seq idx (length emails)) emails) chunks.
Proof.
  intros HQ. induction 1 as [idx | idx email rest t ts Ht Hts IH].
  - exists []. split; [reflexivity | constructor].
  - destruct IH as (chunks & -> & IH). exists (t :: chunks).
    split; [reflexivity |]. cbn [length seq combine].
    constructor; [now apply HQ | exact IH].
Qed.

(** *** Positions and fractions *)

Lemma positions_bounds (sent : list bool) :
  forall from, Forall (fun i => from <= i < from + length sent)
                      (sent_positions from sent).
Proof.
  induction sent as [| b sent IH]; intros from; [constructor |].
  assert (H : Forall (fun i => from <= i < from + length (b :: sent))
                     (sent_positions (S from) sent)).
  { eapply List.Forall_impl; [| apply IH]. simpl. intros i Hi. lia. }
  destruct b; simpl; [constructor; [simpl; lia | exact H] | exact H].
Qed.

Lemma positions_sorted (sent : list bool) :
  forall from, StronglySorted lt (sent_positions from sent).
Proof.
  induction sent as [| b sent IH]; intros from; [constructor |].
  destruct b; simpl; [| apply IH].
  constructor; [apply IH |].
  eapply List.Forall_impl; [| apply positions_bounds]. simpl. intros i Hi. lia.
Qed.

Lemma positions_all_sent (sent : list bool) :
  forall from, forallb id sent = true ->
               sent_positions from sent = seq from (length sent).
Proof.
  induction sent as [| b sent IH]; intros from H; [reflexivity |].
  simpl in H. apply andb_true_iff in H as [Hb H]. unfold id in Hb. subst b.
  simpl. now rewrite IH.
Qed.

(** The [k]-th position sent is at least [k] places on. *)
Lemma positions_nth (sent : list bool) :
  forall from k i, nth_error (sent_positions from sent) k = Some i -> from + k <= i.
Proof.
  induction sent as [| b sent IH]; intros from k i H.
  - destruct k; discriminate.
  - destruct b; simpl in H.
    + destruct k as [| k]; simpl in H.
      * injection H as <-. lia.
      * apply IH in H. lia.
    + apply IH in H. lia.
Qed.

Lemma positions_last (sent : list bool) :
  forall from,
    In (from + length sent - 1) (sent_positions from sent)
    <-> sent <> [] /\ List.last sent false = true.
Proof.
  induction sent as [| b sent IH]; intros from.
  - simpl. split; [tauto | intros [H _]; congruence].
  - destruct sent as [| b' sent'].
    + destruct b; simpl.
      * split; [intros _; split; [discriminate | reflexivity] | intros _; left; lia].
      * split; [tauto | intros [_ H]; discriminate].
    + specialize (IH (S from)).
      change (List.last (b :: b' :: sent') false) with (List.last (b' :: sent') false).
      replace (from + length (b :: b' :: sent') - 1)
        with (S from + length (b' :: sent') - 1) by (simpl; lia).
      assert (Hne : from <> S from + length (b' :: sent') - 1) by (simpl; lia).
      destruct b; cbn [sent_positions]; [cbn [In] |]; rewrite IH;
        split; intros H.
      * destruct H as [H | H]; [congruence |]. split; [discriminate | tauto].
      * right. split; [discriminate | tauto].
      * split; [discriminate | tauto].
      * split; [discriminate | tauto].
Qed.

Lemma fraction_le i j total : i <= j -> (fraction i total <= fraction j total)%Q.
Proof.
  intros H. unfold fraction, Qle. simpl.
  apply Z.mul_le_mono_nonneg_r; lia.
Qed.

Lemma fraction_lt i j total : i < j -> (fraction i total < fraction j total)%Q.
Proof.
  intros H. unfold fraction, Qlt. simpl.
  apply Z.mul_lt_mono_pos_r; lia.
Qed.

Lemma fraction_one i total :
  total <> 0 -> (fraction i total == 1)%Q <-> i + 1 = total.
Proof.
  intros Hne. unfold fraction, Qeq. simpl.
  destruct total as [| n]; [congruence |].
  rewrite <- Pos.of_nat_succ, Zpos_P_of_succ_nat. lia.
Qed.

Lemma sorted_map_fraction total (l : list nat) :
  StronglySorted lt l ->
  StronglySorted Qlt (map (fun i => fraction i total) l).
Proof.
  induction 1 as [| i l Hl IH Hi]; simpl; constructor; [exact IH |].
  apply Forall_map. eapply List.Forall_impl; [| exact Hi].
  intros j Hj. simpl. now apply fraction_lt.
Qed.

Lemma sorted_lt_le (l : list Q) : StronglySorted Qlt l -> StronglySorted Qle l.
Proof.
  induction 1 as [| q l Hl IH Hq]; constructor; [exact IH |].
  eapply List.Forall_impl; [| exact Hq]. intros. now apply Qlt_le_weak.
Qed.

(** *** What a campaign leaves in the trace *)

Lemma paced_failures n rest :
  paced (concat (repeat [Failed; Pause 2] n) ++ rest) = paced rest.
Proof. induction n as [| n IH]; [reflexivity | exact IH]. Qed.

Lemma paced_recipient failures sent rest :
  paced (recipient_markers failures sent ++ rest) = paced rest.
Proof.
  unfold recipient_markers. destruct sent; rewrite <- app_assoc, paced_failures;
    reflexivity.
Qed.

Lemma campaign_digest total server idx emails ts :
  campaign_run total server idx emails ts ->
  map fst (outcomes ts) = emails
  /\ fractions ts
     = map (fun i => fraction i total)
           (sent_positions idx (map snd (outcomes ts)))
  /\ forallb is_send (smtp_calls ts) = true
  /\ (forall rest, paced (markers ts ++ rest) = paced rest)
  /\ exists chunks, ts = concat chunks /\ Forall2 resolved emails chunks.
Proof.
  induction 1 as [idx | idx email rest t ts Ht Hts IH].
  - repeat split; try reflexivity. exists []. split; [reflexivity | constructor].
  - destruct IH as (IH1 & IH2 & IH3 & IH4 & chunks & IH5 & IH6).
    destruct (recipient_digest _ _ _ _ _ Ht)
      as (failures & sent & Hm & Hbudget & Ho & Hfr & _ & _ & Hsend & _).
    unfold outcomes, fractions, smtp_calls, markers in *.
    rewrite !flat_map_app. fold (outcomes t) (outcomes ts).
    unfold outcomes. rewrite Ho, Hfr, Hm. cbn [app map fst snd].
    repeat split.
    + now rewrite IH1.
    + rewrite IH2. now destruct sent.
    + rewrite forallb_app, Hsend. exact IH3.
    + intros more. rewrite <- app_assoc, paced_recipient. apply IH4.
    + exists (t :: chunks). split; [simpl; now rewrite IH5 |].
      constructor; [| exact IH6]. exists failures, sent. now repeat split.
Qed.

End EngineFacts.

(** ** The claims on the dispatch engine                                 *)

Module Dispatch.
Import Effects Env Automation Observe Stated Shapes BuildFacts EngineFacts.

Section WithPlatform.
Context {P : Platform}.

Local Abbreviation M := (Effects.M conn).
Local Abbreviation store := (Effects.store conn).

Lemma campaign_projection {B} (f : event -> list B) (t0 ts : list event) :
  (forall m, f (Print m) = []) ->
  f NewProgress = [] -> f NewStatus = [] -> f (StatusText SCompleted) = [] ->
  visible t0 = [] ->
  flat_map f (t0 ++ [NewProgress; NewStatus] ++ ts ++ [StatusText SCompleted])
  = flat_map f (visible ts).
Proof.
  intros Hp H1 H2 H3 Ht0.
  rewrite <- (flat_map_visible f (t0 ++ _)) by exact Hp.
  rewrite !visible_app, Ht0. cbn [visible List.filter negb is_print app].
  cbn [flat_map]. rewrite H1, H2. cbn [app].
  rewrite flat_map_app. cbn [flat_map]. now rewrite H3, !app_nil_r.
Qed.

(** The whole of what [send_emails] leaves behind. *)
Lemma send_emails_digest (s : store) sender emails subject content attachments :
  exists s' t,
    send_emails sender emails subject content attachments s = (Ok tt, s', t)
    /\ frame s s'
    /\ map fst (outcomes t) = emails
    /\ fractions t
       = map (fun i => fraction i (length emails))
             (sent_positions 0 (map snd (outcomes t)))
    /\ forallb is_send (smtp_calls t) = true
    /\ paced (markers t) = true.
Proof.
  destruct (send_emails_run sender emails subject content attachments s)
    as (s' & t0 & ts & E & Ht0 & Hrun & Hf).
  exists s', (t0 ++ [NewProgress; NewStatus] ++ ts ++ [StatusText SCompleted]).
  split; [exact E |]. split; [exact Hf |].
  apply campaign_digest in Hrun as (Ho & Hfr & Hsend & Hp & _).
  unfold outcomes, fractions, smtp_calls, markers in *.
  rewrite !campaign_projection by (reflexivity || exact Ht0).
  repeat split; auto.
  specialize (Hp []). rewrite app_nil_r in Hp. exact Hp.
Qed.

(** The visible trace of [send_emails], recipient by recipient. *)
Lemma send_emails_chunks (Q : nat -> string -> list event -> Prop)
    (s : store) sender emails subject content attachments :
  (forall email idx t,
      recipient_run email idx (length emails) (has_server s) 3 t -> Q idx email t) ->
  exists chunks,
    visible (events_of (send_emails sender emails subject content attachments s))
    = [NewProgress; NewStatus] ++ concat chunks ++ [StatusText SCompleted]
    /\ Forall2 (fun entry chunk => Q (fst entry) (snd entry) chunk)
               (enumerate emails) chunks
    /\ Forall2 (fun email chunk => exists idx, Q idx email chunk) emails chunks.
Proof.
  intros HQ.
  destruct (send_emails_run sender emails subject content attachments s)
    as (s' & t0 & ts & E & Ht0 & Hrun & _).
  rewrite E. unfold events_of. cbn [snd].
  destruct (campaign_chunks Q _ _ HQ _ _ _ Hrun) as (chunks & Hc & Hall).
  exists chunks. rewrite !visible_app, Ht0, Hc.
  split; [reflexivity |]. split; [exact Hall |].
  unfold enumerate in Hall. clear - Hall. revert Hall. generalize 0.
  revert chunks. induction emails as [| email rest IH]; intros chunks idx H.
  - inversion H. constructor.
  - cbn [length seq combine] in H. inversion H as [| ? ? ? ? Hq Hrest]; subst.
    constructor; [now exists idx | now apply (IH _ (S idx))].
Qed.

(** C2: in a campaign run by [send_emails] every recipient, in the order
    of the list, has its own stretch of the trace, and on it between one and
    three attempts are made; the attempts and pauses are [failures] failed
    attempts, each followed by a pause of exactly 2 when another attempt
    follows, then the success (with its pause of 1) or, after the third
    failure, nothing more; every error handled is one failed attempt, and,
    the relay being connected, the errors handled are exactly the errors
    raised while building or while sending. *)
Theorem retry_budget (s : store) (sender : string) (emails : list string)
    (subject content : string)
    (attachments : option (list (string * list byte))) :
  let x := send_emails sender emails subject content attachments s in
  exists chunks,
    visible (events_of x)
    = [NewProgress; NewStatus] ++ concat chunks ++ [StatusText SCompleted]
    /\ Forall2 (within_budget (has_server s)) emails chunks.
Proof.
  intros x. subst x.
  destruct (send_emails_chunks (fun _ => within_budget (has_server s))
              s sender emails subject content attachments)
    as (chunks & Hv & _ & Hall).
  { intros email idx t. apply recipient_within_budget. }
  exists chunks. split; [exact Hv |].
  eapply Forall2_impl; [exact Hall |]. now intros email chunk [_ H].
Qed.

(** C3: whatever fails, [send_emails] returns normally; each recipient, in
    the order of the list, has its own stretch of the trace in which it is
    resolved once, as sent or, after three failed attempts, as failed; and
    the last thing the run does is to show the completion status. *)
Theorem failures_do_not_abort (s : store) (sender : string)
    (emails : list string) (subject content : string)
    (attachments : option (list (string * list byte))) :
  let x := send_emails sender emails subject content attachments s in
  outcome_of x = Ok tt
  /\ (exists before, events_of x = before ++ [StatusText SCompleted])
  /\ map fst (outcomes (events_of x)) = emails
  /\ exists chunks,
       visible (events_of x)
       = [NewProgress; NewStatus] ++ concat chunks ++ [StatusText SCompleted]
       /\ Forall2 resolved emails chunks.
Proof.
  intros x.
  destruct (send_emails_run sender emails subject content attachments s)
    as (s' & t0 & ts & E & Ht0 & Hrun & _).
  subst x. rewrite E. unfold outcome_of, events_of. simpl.
  apply campaign_digest in Hrun as (Ho & _ & _ & _ & chunks & Hc & Hres).
  split; [reflexivity |]. split.
  - exists (t0 ++ NewProgress :: NewStatus :: ts).
    rewrite <- app_assoc. reflexivity.
  - split.
    + rewrite <- outcomes_visible, visible_app, Ht0. cbn [app visible List.filter].
      unfold outcomes in *. cbn [flat_map app negb is_print].
      change (NewProgress :: NewStatus :: ts ++ [StatusText SCompleted])
        with ([NewProgress; NewStatus] ++ ts ++ [StatusText SCompleted]).
      rewrite !visible_app, !flat_map_app. cbn. rewrite app_nil_r. exact Ho.
    + exists chunks. split; [| exact Hres].
      change (t0 ++ NewProgress :: NewStatus :: ts ++ [StatusText SCompleted])
        with (t0 ++ [NewProgress; NewStatus] ++ ts ++ [StatusText SCompleted]).
      rewrite !visible_app, Ht0, Hc. reflexivity.
Qed.

(** C1, as the code has it: every recipient is resolved once; the values
    handed to the progress bar are, in order, (position of the recipient
    just sent, counted from 1) / (total recipients); they never decrease;
    the [k]-th of them is at least [k] / total, the number of successes so
    far over the total, and equal to it when no recipient failed; and 1 is
    reported exactly when the last recipient of the list is sent. *)
Theorem progress_follows_position (s : store) (sender : string)
    (emails : list string) (subject content : string)
    (attachments : option (list (string * list byte))) :
  let t := events_of (send_emails sender emails subject content attachments s) in
  let total := length emails in
  let sent := map snd (outcomes t) in
  length sent = total
  /\ fractions t = map (fun i => fraction i total) (sent_positions 0 sent)
  /\ StronglySorted Qle (fractions t)
  /\ (forall k q, nth_error (fractions t) k = Some q ->
        (Z.of_nat (k + 1) # Pos.of_nat total <= q)%Q)
  /\ (forallb id sent = true ->
        fractions t = map (fun k => fraction k total) (seq 0 total))
  /\ (Exists (fun q => (q == 1)%Q) (fractions t)
       <-> sent <> [] /\ List.last sent false = true).
Proof.
  intros t total sent.
  destruct (send_emails_digest s sender emails subject content attachments)
    as (s' & t' & E & _ & Ho & Hfr & _ & _).
  subst t sent total. rewrite E. unfold events_of. simpl.
  set (sent := map snd (outcomes t')) in *.
  assert (Hlen : length sent = length emails).
  { subst sent. rewrite List.length_map, <- Ho, List.length_map. reflexivity. }
  split; [exact Hlen |]. split; [exact Hfr |]. rewrite Hfr.
  split; [| split; [| split; [| split]]].
  - apply sorted_lt_le, sorted_map_fraction, positions_sorted.
  - intros k q Hk. rewrite List.nth_error_map in Hk.
    destruct (nth_error (sent_positions 0 sent) k) as [i |] eqn:Hi; [| discriminate].
    injection Hk as <-. apply positions_nth in Hi.
    change (Z.of_nat (k + 1) # Pos.of_nat (length emails))
      with (fraction k (length emails)).
    apply fraction_le. lia.
  - intros Hall. rewrite positions_all_sent by exact Hall. now rewrite Hlen.
  - intros Hex. apply List.Exists_exists in Hex as (q & Hin & Hq).
    apply List.in_map_iff in Hin as (i & <- & Hi).
    pose proof (positions_bounds sent 0) as Hb.
    rewrite List.Forall_forall in Hb. specialize (Hb i Hi). simpl in Hb.
    apply fraction_one in Hq; [| lia].
    replace i with (0 + length sent - 1) in Hi by lia.
    now apply positions_last in Hi.
  - intros H. apply (positions_last sent 0) in H.
    apply List.Exists_exists. exists (fraction (0 + length sent - 1) (length emails)).
    split; [apply List.in_map_iff; eauto |].
    pose proof (positions_bounds sent 0) as Hb.
    rewrite List.Forall_forall in Hb. specialize (Hb _ H). simpl in Hb.
    apply fraction_one; lia.
Qed.


End WithPlatform.
End Dispatch.

(** ** Runs on the scripted relay                                        *)

Module Runs.
Import Effects Env Automation Observe Stated Shapes Doubles.

(** C1 as stated fails: the relay rejects the three attempts for the first
    of two recipients and accepts the second; the only value reported is
    2/2, while one recipient of two was sent. *)
Lemma progress_not_success_count :
  ~ progress_as_stated 2
      (events_of
         (send_emails (P := refusing 3) sender_email ["a@x.com"; "b@y.com"]
            "Hi" "<p>x</p>" (Some []) (online (rejecting 3)))).
Proof. intros (_ & _ & H & _). vm_compute in H. discriminate. Qed.

Example one_failure_full_bar :
  let t := events_of
             (send_emails (P := refusing 3) sender_email ["a@x.com"; "b@y.com"]
                "Hi" "<p>x</p>" (Some []) (online (rejecting 3))) in
  fractions t = [(2 # 2)%Q]
  /\ outcomes t = [("a@x.com", false); ("b@y.com", true)]
  /\ successes t = 1.
Proof. repeat split. Qed.

Lemma progress_follows_position_witness :
  let t := events_of
             (send_emails (P := refusing 3) sender_email ["a@x.com"; "b@y.com"]
                "Hi" "<p>x</p>" (Some []) (online (rejecting 3))) in
  fractions t
  = map (fun i => fraction i 2) (sent_positions 0 (map snd (outcomes t)))
  /\ (Z.of_nat (0 + 1) # Pos.of_nat 2 <= 2 # 2)%Q
  /\ Exists (fun q => (q == 1)%Q) (fractions t).
Proof.
  destruct (Dispatch.progress_follows_position (P := refusing 3)
              (online (rejecting 3)) sender_email ["a@x.com"; "b@y.com"]
              "Hi" "<p>x</p>" (Some []))
    as (_ & Hf & _ & Hk & _ & Hone).
  split; [exact Hf |]. split.
  - apply (Hk 0 (2 # 2)%Q). reflexivity.
  - apply Hone. split; [discriminate | reflexivity].
Defined.

Lemma retry_budget_witness :
  let x := send_emails (P := refusing 3) sender_email ["a@x.com"]
             "Hi" "<p>x</p>" (Some []) (online (rejecting 3)) in
  exists chunk,
    visible (events_of x)
    = [NewProgress; NewStatus] ++ chunk ++ [StatusText SCompleted]
    /\ within_budget true "a@x.com" chunk.
Proof.
  destruct (Dispatch.retry_budget (P := refusing 3) (online (rejecting 3))
              sender_email ["a@x.com"] "Hi" "<p>x</p>" (Some []))
    as (chunks & Hv & Hall).
  inversion Hall as [| ? chunk ? rest Hb Hrest]; subst.
  inversion Hrest; subst. cbn [concat] in Hv. rewrite app_nil_r in Hv.
  exists chunk. split; [exact Hv | exact Hb].
Defined.



(** The texts of the source. *)
Example texts_of_the_source :
  render_status (SRetrying "a@x.com" 2)
  = "Retrying email to a@x.com... (2 attempts remaining)"
  /\ render_log (SendFailed "a@x.com" (SMTPException "Connection unexpectedly closed"))
     = "Failed to send email to a@x.com: Connection unexpectedly closed"
  /\ render_debug (DFound 12) = "[DEBUG] Found 12 valid emails"
  /\ render_ui (UiFound 2) = "Found 2 valid email addresses"
  /\ level_of (InvalidEmail "bad") = WARNING.
Proof. repeat split. Qed.

(** The end-to-end scenario of the specification: rows a@x.com, bad and
    b@y.com on a relay that accepts everything. *)
Example end_to_end :
  let x := main (P := obliging) "secret" (sample_inputs (Some sample_table))
                initial in
  outcome_of x = Ok tt
  /\ warnings (events_of x) = ["bad"]
  /\ outcomes (events_of x) = [("a@x.com", true); ("b@y.com", true)]
  /\ markers (events_of x) = [Succeeded; Pause 1; Succeeded; Pause 1]
  /\ fractions (events_of x) = [(1 # 2)%Q; (2 # 2)%Q]
  /\ quits (events_of x) = 1.
Proof. repeat split. Qed.

(** The second recipient is rejected twice and then accepted; the first is
    sent at its first attempt. *)
Example second_recipient_recovers :
  let x := send_emails (P := scripted (inl willing) None None) sender_email
             ["a@x.com"; "b@y.com"] "Hi" "<p>x</p>" (Some [])
             (online (mkRelay [None;
                               Some (SMTPException "Connection unexpectedly closed");
                               Some (SMTPException "Connection unexpectedly closed")]
                              None)) in
  outcomes (events_of x) = [("a@x.com", true); ("b@y.com", true)]
  /\ markers (events_of x)
     = [Succeeded; Pause 1;
        Failed; Pause 2; Failed; Pause 2; Succeeded; Pause 1].
Proof. repeat split. Qed.

End Runs.

(** ** read_csv_content                                                  *)

Module CsvFacts.
Import Effects Env Automation Observe Stated BuildFacts EngineFacts Doubles More.
Local Open Scope py_scope.

(** The column chosen is the first, in column order, whose name contains
    "email". *)
Lemma find_email_column_first (columns : list string) :
  match find_email_column columns with
  | Some column =>
      exists before after,
        columns = before ++ column :: after
        /\ names_email column = true
        /\ forallb (fun c => negb (names_email c)) before = true
  | None => forallb (fun c => negb (names_email c)) columns = true
  end.
Proof.
  induction columns as [| c columns IH]; [reflexivity |].
  cbn [find_email_column]. fold (names_email c).
  destruct (names_email c) eqn:Hc.
  - exists [], columns. repeat split. exact Hc.
  - destruct (find_email_column columns) as [column |].
    + destruct IH as (before & after & -> & Hcol & Hbefore).
      exists (c :: before), after. repeat split; [exact Hcol |].
      cbn [forallb]. now rewrite Hc, Hbefore.
    + cbn [forallb]. now rewrite Hc, IH.
Qed.

Lemma find_email_column_none (columns : list string) :
  forallb (fun c => negb (names_email c)) columns = true ->
  find_email_column columns = None.
Proof.
  induction columns as [| c columns IH]; [reflexivity |].
  cbn [forallb find_email_column]. fold (names_email c).
  intros H. apply andb_true_iff in H as [Hc H].
  destruct (names_email c); [discriminate | auto].
Qed.

(** *** The dictionary of a row *)

Lemma zip_lookup_other (columns row : list string) :
  forall (d : gmap (option string) Csv.cell) (k : string),
    k ∉ columns ->
    fold_left (fun d kv => <[Some (fst kv) := Csv.CStr (snd kv)]> d)
              (combine columns row) d !! Some k
    = d !! Some k.
Proof.
  revert row. induction columns as [| c columns IH]; intros row d k Hk;
    [reflexivity |].
  destruct row as [| f row]; [reflexivity |].
  apply not_elem_of_cons in Hk as [Hne Hk]. cbn [combine fold_left fst snd].
  rewrite IH by exact Hk. apply lookup_insert_ne. congruence.
Qed.

Lemma zip_lookup (columns row : list string) :
  forall (d : gmap (option string) Csv.cell) (i : nat) (c : string),
    NoDup columns ->
    columns !! i = Some c ->
    fold_left (fun d kv => <[Some (fst kv) := Csv.CStr (snd kv)]> d)
              (combine columns row) d !! Some c
    = match row !! i with
      | Some f => Some (Csv.CStr f)
      | None => d !! Some c
      end.
Proof.
  revert row. induction columns as [| c0 columns IH]; intros row d i c Hnd Hi;
    [discriminate |].
  apply NoDup_cons in Hnd as [Hfresh Hnd].
  destruct row as [| f row]; [now destruct i |].
  cbn [combine fold_left fst snd].
  destruct i as [| j]; cbn in Hi |- *.
  - injection Hi as <-. rewrite zip_lookup_other by exact Hfresh.
    apply lookup_insert_eq.
  - rewrite (IH row _ j c Hnd Hi).
    destruct (row !! j); [reflexivity |].
    apply lookup_insert_ne. intros [= ->]. apply Hfresh.
    apply list_elem_of_lookup. eauto.
Qed.

Lemma fill_lookup (keys : list string) :
  forall (d : gmap (option string) Csv.cell) (k : string),
    fold_left (fun d key => <[Some key := Csv.CNone]> d) keys d !! Some k
    = if decide (k ∈ keys) then Some Csv.CNone else d !! Some k.
Proof.
  induction keys as [| key keys IH]; intros d k; cbn [fold_left].
  - case_decide as H; [| reflexivity]. now apply elem_of_nil in H.
  - rewrite IH. destruct (decide (k ∈ keys)) as [Hin | Hout].
    + rewrite decide_True by (now right). reflexivity.
    + destruct (decide (k = key)) as [-> | Hne].
      * rewrite decide_True by (now left). apply lookup_insert_eq.
      * rewrite decide_False by (rewrite elem_of_cons; tauto).
        apply lookup_insert_ne. congruence.
Qed.

(** With distinct column names, the dictionary of a row maps the name of
    column [i] to field [i] of the row, and to [None] when the row has no
    such field. *)
Lemma row_dict_lookup (columns row : list string) (i : nat) (c : string) :
  NoDup columns ->
  columns !! i = Some c ->
  Csv.row_dict columns row !! Some c
  = Some (match row !! i with
          | Some f => Csv.CStr f
          | None => Csv.CNone
          end).
Proof.
  intros Hnd Hi. unfold Csv.row_dict, Csv.dict_of_zip.
  pose proof (lookup_lt_Some _ _ _ Hi) as Hlt.
  destruct (length columns <? length row) eqn:Hlong.
  - apply Nat.ltb_lt in Hlong.
    rewrite lookup_insert_ne by discriminate.
    rewrite (zip_lookup columns row ∅ i c Hnd Hi).
    destruct (row !! i) eqn:Hrow; [reflexivity |].
    apply lookup_ge_None in Hrow. lia.
  - apply Nat.ltb_ge in Hlong.
    destruct (length row <? length columns) eqn:Hshort.
    + rewrite fill_lookup, (zip_lookup columns row ∅ i c Hnd Hi).
      destruct (row !! i) eqn:Hrow.
      * apply lookup_lt_Some in Hrow.
        rewrite decide_False; [reflexivity |].
        intros Hin. apply list_elem_of_lookup in Hin as [j Hj].
        rewrite lookup_drop in Hj.
        pose proof (NoDup_lookup _ _ _ _ Hnd Hi Hj). lia.
      * apply lookup_ge_None in Hrow.
        rewrite decide_True; [reflexivity |].
        apply list_elem_of_lookup. exists (i - length row).
        rewrite lookup_drop. now replace (length row + (i - length row)) with i by lia.
    + apply Nat.ltb_ge in Hshort.
      rewrite (zip_lookup columns row ∅ i c Hnd Hi).
      destruct (row !! i) eqn:Hrow; [reflexivity |].
      apply lookup_ge_None in Hrow. lia.
Qed.

(** *** Columns of the same name *)

Lemma last_position_None (name : string) (columns : list string) :
  last_position name columns = None -> name ∉ columns.
Proof.
  induction columns as [| c columns IH]; [intros _; apply not_elem_of_nil |].
  cbn [last_position]. destruct (last_position name columns); [discriminate |].
  destruct (String.eqb_spec c name) as [-> | Hne]; [discriminate |].
  intros _. apply not_elem_of_cons. split; [congruence | now apply IH].
Qed.

Lemma last_position_spec (name : string) (columns : list string) :
  forall j : nat,
    last_position name columns = Some j ->
    columns !! j = Some name
    /\ forall k : nat, j < k -> columns !! k <> Some name.
Proof.
  induction columns as [| c columns IH]; intros j; [discriminate |].
  cbn [last_position].
  destruct (last_position name columns) as [j' |] eqn:Hl.
  - intros [= <-]. destruct (IH j' eq_refl) as [Hj Hlast]. split; [exact Hj |].
    intros [| k] Hk; [lia |]. cbn. apply Hlast. lia.
  - destruct (String.eqb_spec c name) as [-> | Hne]; [| discriminate].
    intros [= <-]. split; [reflexivity |].
    intros [| k] Hk Hc; [lia |]. cbn in Hc.
    apply last_position_None in Hl. apply Hl.
    apply list_elem_of_lookup. eauto.
Qed.

Lemma last_position_after (name : string) (columns : list string) :
  forall i : nat,
    columns !! i = Some name ->
    exists j, last_position name columns = Some j /\ i <= j.
Proof.
  induction columns as [| c columns IH]; intros i Hi; [discriminate |].
  cbn [last_position]. destruct i as [| i]; cbn in Hi.
  - injection Hi as ->. destruct (last_position name columns) as [j |].
    + exists (S j). split; [reflexivity | lia].
    + rewrite String.eqb_refl. exists 0. now split.
  - destruct (IH i Hi) as (j & -> & Hle). exists (S j). split; [reflexivity | lia].
Qed.

(** The fields of a row zipped with the names: under a name is the field
    at the last position of the name, if the row reaches it. *)
Lemma zip_lookup_last (columns : list string) :
  forall (row : list string) (d : gmap (option string) Csv.cell) (j : nat)
         (c f : string),
    last_position c columns = Some j ->
    row !! j = Some f ->
    fold_left (fun d kv => <[Some (fst kv) := Csv.CStr (snd kv)]> d)
              (combine columns row) d !! Some c
    = Some (Csv.CStr f).
Proof.
  induction columns as [| c0 columns IH]; intros row d j c f Hl Hf; [discriminate |].
  destruct row as [| f0 row]; [discriminate |].
  cbn [last_position] in Hl. cbn [combine fold_left fst snd].
  destruct (last_position c columns) as [j' |] eqn:Hrest.
  - injection Hl as <-. cbn in Hf. now apply (IH row _ j').
  - destruct (String.eqb_spec c0 c) as [-> | Hne]; [| discriminate].
    injection Hl as <-. cbn in Hf. injection Hf as ->.
    rewrite zip_lookup_other by (now apply last_position_None).
    apply lookup_insert_eq.
Qed.

(** Whatever the column names, the dictionary of a row maps a name to the
    field at the last position of the name, and to [None] when the row has
    no such field. *)
Lemma row_dict_lookup_last (columns row : list string) (j : nat) (c : string) :
  last_position c columns = Some j ->
  Csv.row_dict columns row !! Some c
  = Some (match row !! j with
          | Some f => Csv.CStr f
          | None => Csv.CNone
          end).
Proof.
  intros Hl. destruct (last_position_spec c columns j Hl) as [Hj Hlast].
  pose proof (lookup_lt_Some _ _ _ Hj) as Hlt.
  unfold Csv.row_dict, Csv.dict_of_zip.
  destruct (length columns <? length row) eqn:Hlong.
  - apply Nat.ltb_lt in Hlong. rewrite lookup_insert_ne by discriminate.
    destruct (lookup_lt_is_Some_2 row j) as [f Hf]; [lia |].
    rewrite Hf. now apply zip_lookup_last with (j := j).
  - apply Nat.ltb_ge in Hlong.
    destruct (length row <? length columns) eqn:Hshort.
    + rewrite fill_lookup. destruct (row !! j) as [f |] eqn:Hf.
      * rewrite decide_False; [now apply zip_lookup_last with (j := j) |].
        intros Hin. apply list_elem_of_lookup in Hin as [k Hk].
        rewrite lookup_drop in Hk. apply lookup_lt_Some in Hf.
        apply (Hlast (length row + k)); [lia | exact Hk].
      * apply lookup_ge_None in Hf.
        rewrite decide_True; [reflexivity |].
        apply list_elem_of_lookup. exists (j - length row).
        rewrite lookup_drop.
        now replace (length row + (j - length row)) with j by lia.
    + apply Nat.ltb_ge in Hshort.
      destruct (lookup_lt_is_Some_2 row j) as [f Hf]; [lia |].
      rewrite Hf. now apply zip_lookup_last with (j := j).
Qed.

(** The name chosen is the name at the first position of a name with
    "email". *)
Lemma first_email_position_find (columns : list string) :
  match first_email_position columns with
  | Some i =>
      exists column,
        columns !! i = Some column /\ find_email_column columns = Some column
  | None => find_email_column columns = None
  end.
Proof.
  induction columns as [| c columns IH]; [reflexivity |].
  cbn [first_email_position find_email_column]. fold (names_email c).
  destruct (names_email c); [now exists c |].
  destruct (first_email_position columns) as [i |]; cbn [option_map]; exact IH.
Qed.

(** The position of the column chosen, and the field read under its name
    when the column names are distinct: the field at that position. *)
Lemma find_email_column_index (columns : list string) (c : string) :
  find_email_column columns = Some c ->
  exists i : nat,
    columns !! i = Some c
    /\ names_email c = true
    /\ (forall (j : nat) (c' : string),
          j < i -> columns !! j = Some c' -> names_email c' = false)
    /\ (NoDup columns ->
        forall row : list string,
          Csv.row_dict columns row !! Some c
          = Some (match row !! i with
                  | Some f => Csv.CStr f
                  | None => Csv.CNone
                  end)).
Proof.
  intros H.
  assert (Hi : exists i : nat,
             columns !! i = Some c /\ names_email c = true
             /\ (forall (j : nat) (c' : string),
                   j < i -> columns !! j = Some c' -> names_email c' = false)).
  { revert H. induction columns as [| c0 columns IH]; [discriminate |].
    cbn [find_email_column]. fold (names_email c0).
    destruct (names_email c0) eqn:Hc0.
    - intros [= <-]. exists 0. repeat split; [exact Hc0 |]. intros j c' Hj. lia.
    - intros H. destruct (IH H) as (i & Hi & Hc & Hbefore).
      exists (S i). repeat split; [exact Hi | exact Hc |].
      intros [| j] c' Hj Hl; cbn in Hl.
      + injection Hl as <-. exact Hc0.
      + apply (Hbefore j c'); [lia | exact Hl]. }
  destruct Hi as (i & Hi & Hc & Hbefore). exists i. repeat split; auto.
  intros Hnd row. now apply row_dict_lookup.
Qed.

Section WithPlatform.
Context {P : Platform}.

Local Abbreviation M := (Effects.M conn).
Local Abbreviation store := (Effects.store conn).

Lemma reporting_stripped_field row email_column :
  reporting (stripped_field row email_column : M string).
Proof.
  unfold stripped_field.
  destruct (row !! Some email_column) as [[| |] |];
    (apply reporting_ret || apply reporting_raise).
Qed.

Lemma reporting_validate_row email_column valid_emails row :
  reporting (validate_row email_column valid_emails row : M (list string)).
Proof.
  unfold validate_row. apply reporting_bind; [apply reporting_stripped_field |].
  intros email. destruct (EmailValidator.is_valid_email email).
  - apply reporting_ret.
  - apply reporting_bind; [apply reporting_log | intros; apply reporting_ret].
Qed.

Lemma reporting_next_row text : reporting (next_row text : M unit).
Proof.
  unfold next_row. destruct (csv_error text);
    [apply reporting_raise | apply reporting_ret].
Qed.

(** Extraction leaves the automation object alone and performs nothing but
    diagnostic output. *)
Lemma reporting_read_csv_content csv_content :
  reporting (read_csv_content csv_content).
Proof.
  unfold read_csv_content.
  apply reporting_bind; [apply reporting_debug | intros _].
  apply reporting_bind.
  - apply reporting_try_except.
    + apply reporting_bind.
      * destruct csv_content as [text | raw]; [apply reporting_ret |].
        destruct (decode_utf8 raw); [apply reporting_ret | apply reporting_raise].
      * intros text. apply reporting_bind.
        -- destruct (Csv.fieldnames (csv_reader text)); [apply reporting_ret |].
           apply reporting_bind; [apply reporting_next_row |].
           intros; apply reporting_raise.
        -- intros columns. destruct (find_email_column columns).
           ++ apply reporting_bind.
              ** apply reporting_for_fold. intros. apply reporting_validate_row.
              ** intros valid_emails. apply reporting_bind;
                   [apply reporting_next_row | intros; apply reporting_ret].
           ++ apply reporting_raise.
    + intros e. apply reporting_bind; [apply reporting_log | intros; apply reporting_raise].
  - intros valid_emails. apply reporting_bind; [apply reporting_debug |].
    intros; apply reporting_ret.
Qed.

(** Without an address column extraction raises the schema error. *)
Lemma read_csv_no_column raw text columns rest (s : store) :
  decode_utf8 raw = inl text ->
  csv_reader text = columns :: rest ->
  find_email_column columns = None ->
  exists t,
    read_csv_content (CsvBytes raw) s
    = (Raised (ValueError "No email column found in CSV"), s, t)
    /\ visible t = [Log (CsvError (ValueError "No email column found in CSV"))].
Proof.
  intros Hd Hr Hc. unfold read_csv_content. unfold bind at 1.
  destruct (debug_run DReadingCsv s) as (t0 & -> & Ht0).
  unfold try_except, bind, ret, raise, log, emit.
  rewrite Hd, Hr. cbn [Csv.fieldnames head]. rewrite Hc.
  eexists. split; [reflexivity |]. rewrite visible_app, Ht0. reflexivity.
Qed.

(** The loop over the rows, when every row has its address field: the
    valid stripped fields are appended in row order, and each invalid one
    leaves a warning. *)
Lemma validate_rows_run (email_column : string)
    (rows : list (gmap (option string) Csv.cell)) :
  forall (fields valid_emails : list string) (s : store),
    Forall2 (fun row field => row !! Some email_column = Some (Csv.CStr field))
            rows fields ->
    exists t : list event,
      for_fold rows (validate_row email_column) valid_emails s
      = (Ok (valid_emails
              ++ List.filter EmailValidator.is_valid_email (map Text.strip fields)),
         s, t)
      /\ t = map (fun e => Log (InvalidEmail e))
                (List.filter (fun e => negb (EmailValidator.is_valid_email e))
                             (map Text.strip fields)).
Proof.
  induction rows as [| row rows IH]; intros fields valid_emails s H.
  - inversion H; subst. exists []. simpl. now rewrite app_nil_r.
  - inversion H as [| ? field ? fields' Hrow Hrest]; subst.
    cbn [for_fold]. unfold bind at 1. unfold validate_row at 1.
    unfold stripped_field, bind. rewrite Hrow.
    unfold ret, log, emit. cbv beta iota. cbn [map List.filter].
    destruct (EmailValidator.is_valid_email (Text.strip field)) eqn:Hv;
      cbv beta iota; cbn [negb app].
    + destruct (IH fields' (valid_emails ++ [Text.strip field]) s Hrest)
        as (t & -> & Ht).
      exists t. split; [| exact Ht]. now rewrite <- app_assoc.
    + destruct (IH fields' valid_emails s Hrest) as (t & -> & Ht).
      eexists. split; [reflexivity |]. cbn [map]. now rewrite Ht.
Qed.

(** A row without the field stops the loop with an [AttributeError]. *)
Lemma validate_rows_missing_field (email_column : string)
    (rows : list (gmap (option string) Csv.cell)) :
  forall (fields valid_emails : list string) row more (s : store),
    Forall2 (fun row field => row !! Some email_column = Some (Csv.CStr field))
            rows fields ->
    row !! Some email_column = Some Csv.CNone ->
    outcome_of (for_fold (rows ++ row :: more) (validate_row email_column)
                  valid_emails s)
    = Raised (AttributeError "'NoneType' object has no attribute 'strip'").
Proof.
  induction rows as [| r rows IH]; intros fields valid_emails row more s H Hrow.
  - cbn [app for_fold]. unfold bind, validate_row, stripped_field, bind.
    rewrite Hrow. reflexivity.
  - inversion H as [| ? field ? fields' Hr Hrest]; subst.
    cbn [app for_fold]. unfold bind at 1. unfold validate_row at 1.
    unfold stripped_field, bind. rewrite Hr.
    unfold ret, log, emit. cbv beta iota.
    destruct (EmailValidator.is_valid_email (Text.strip field));
      cbv beta iota; cbn [app].
    + specialize (IH fields' (valid_emails ++ [Text.strip field]) row more s Hrest Hrow).
      destruct (for_fold (rows ++ row :: more) _ _ s) as [[r0 s0] t0]. exact IH.
    + specialize (IH fields' valid_emails row more s Hrest Hrow).
      destruct (for_fold (rows ++ row :: more) _ _ s) as [[r0 s0] t0]. exact IH.
Qed.

Lemma warnings_of_logs (l : list string) :
  warnings (visible (map (fun e => Log (InvalidEmail e)) l)) = l.
Proof.
  induction l as [| e l IH]; [reflexivity |].
  unfold warnings, visible in *. simpl. now f_equal.
Qed.

(** Extraction on a table all of whose rows have the address field: the
    stripped fields that pass the validity check, in row order, and one
    warning for each of the others. *)
Lemma read_csv_full_rows (text : string) (columns : list string)
    (rest : list (list string)) (email_column : string) (fields : list string)
    (s : store) :
  csv_reader text = columns :: rest ->
  csv_error text = None ->
  find_email_column columns = Some email_column ->
  Forall2 (fun row field => row !! Some email_column = Some (Csv.CStr field))
          (Csv.dicts (columns :: rest)) fields ->
  let x := read_csv_content (CsvStr text) s in
  outcome_of x
  = Ok (List.filter EmailValidator.is_valid_email (map Text.strip fields))
  /\ warnings (events_of x)
     = List.filter (fun e => negb (EmailValidator.is_valid_email e))
                   (map Text.strip fields)
  /\ store_of x = s.
Proof.
  intros Hr Herr Hc Hrows x.
  assert (E : exists t',
             read_csv_content (CsvStr text) s
             = (Ok (List.filter EmailValidator.is_valid_email
                      (map Text.strip fields)), s, t')
             /\ warnings t'
                = List.filter (fun e => negb (EmailValidator.is_valid_email e))
                              (map Text.strip fields)).
  { unfold read_csv_content. unfold bind at 1.
    destruct (debug_run DReadingCsv s) as (t0 & -> & Ht0).
    unfold bind at 1, try_except. unfold bind at 1. cbn [ret].
    rewrite Hr. unfold bind at 1. cbn [Csv.fieldnames head ret]. rewrite Hc.
    unfold bind at 1.
    destruct (validate_rows_run email_column _ fields [] s Hrows) as (t & -> & Ht).
    unfold next_row. rewrite Herr. unfold bind at 1. cbn [ret].
    unfold bind at 1. cbn [app].
    destruct (debug_run (DFound (length (List.filter EmailValidator.is_valid_email
                                           (map Text.strip fields)))) s)
      as (t1 & -> & Ht1).
    eexists. split; [reflexivity |].
    unfold warnings. rewrite <- flat_map_visible by reflexivity.
    rewrite !visible_app, Ht0, Ht1, !app_nil_r. cbn [app]. subst t.
    apply warnings_of_logs. }
  destruct E as (t' & E & Hw). subst x. rewrite E. repeat split. exact Hw.
Qed.

(** Rows long enough to have column [i] have their field in the
    dictionary. *)
Lemma full_rows_fields (columns : list string) (i : nat) (c : string)
    (rows : list (list string)) :
  NoDup columns ->
  columns !! i = Some c ->
  Forall (fun row => i < length row) rows ->
  exists fields : list string,
    Forall2 (fun d field => d !! Some c = Some (Csv.CStr field))
            (map (Csv.row_dict columns) rows) fields.
Proof.
  intros Hnd Hi. induction 1 as [| row rows Hrow _ IH].
  - exists []. constructor.
  - destruct IH as (fields & IH).
    destruct (lookup_lt_is_Some_2 row i Hrow) as [f Hf].
    exists (f :: fields). constructor; [| exact IH].
    rewrite (row_dict_lookup columns row i c Hnd Hi), Hf. reflexivity.
Qed.

Lemma read_csv_content_decoded (csv_content : csv_input) (text : string)
    (s : store) :
  decoded csv_content = inl text ->
  read_csv_content csv_content s = read_csv_content (CsvStr text) s.
Proof.
  destruct csv_content as [text' | raw]; cbn [decoded]; intros H.
  - now injection H as ->.
  - unfold read_csv_content. now rewrite H.
Qed.

(** With distinct column names, the first data row that is too short to
    have the address column makes extraction raise. *)
Lemma read_csv_short_row (text : string) (columns : list string)
    (rest good more : list (list string)) (short : list string)
    (email_column : string) (i : nat) (s : store) :
  csv_reader text = columns :: rest ->
  NoDup columns ->
  find_email_column columns = Some email_column ->
  columns !! i = Some email_column ->
  List.filter (fun r => negb (Csv.is_blank r)) rest = good ++ short :: more ->
  Forall (fun row => i < length row) good ->
  length short <= i ->
  outcome_of (read_csv_content (CsvStr text) s)
  = Raised (AttributeError "'NoneType' object has no attribute 'strip'").
Proof.
  intros Hr Hnd Hc Hi Hrows Hgood Hshort.
  destruct (full_rows_fields columns i email_column good Hnd Hi Hgood)
    as (fields & Hfields).
  assert (Hnone : Csv.row_dict columns short !! Some email_column = Some Csv.CNone).
  { rewrite (row_dict_lookup columns short i email_column Hnd Hi).
    now rewrite (lookup_ge_None_2 short i Hshort). }
  pose proof (validate_rows_missing_field email_column _ fields []
                (Csv.row_dict columns short) (map (Csv.row_dict columns) more)
                s Hfields Hnone) as Hloop.
  unfold read_csv_content. unfold bind at 1.
  destruct (debug_run DReadingCsv s) as (t0 & -> & Ht0).
  unfold bind at 1, try_except. unfold bind at 1. cbn [ret].
  rewrite Hr. unfold bind at 1. cbn [Csv.fieldnames head ret]. rewrite Hc.
  unfold Csv.dicts. rewrite Hrows, map_app. cbn [map]. unfold bind at 1.
  destruct (for_fold _ (validate_row email_column) [] s) as [[r s1] t1].
  unfold outcome_of in Hloop. cbn [fst] in Hloop. subst r.
  unfold bind, log, emit, raise. reflexivity.
Qed.

End WithPlatform.

(** Two columns of the same name: the dictionary keeps the field of the
    last one, so that is the field read under the name chosen. *)
Example same_name_reads_last :
  Csv.row_dict ["email"; "email"] ["a@x.com"; "b@y.com"] !! Some "email"
  = Some (Csv.CStr "b@y.com").
Proof. reflexivity. Qed.

(** C4, at the input where the code departs from it: the table has an
    address column, and its one data row is too short to have that field.
    [DictReader] fills the field with [None], [None.strip()] is an
    [AttributeError], and extraction raises it instead of skipping the row
    with a warning. *)
Theorem short_row_aborts_extraction :
  let table := bytes_of (text_of_lines ["Name,Email"; "Bob"]) in
  let x := read_csv_content (P := obliging) (CsvBytes table) (mkStore true false None) in
  find_email_column ["Name"; "Email"] = Some "Email"
  /\ @csv_reader obliging (text_of_lines ["Name,Email"; "Bob"])
     = [["Name"; "Email"]; ["Bob"]]
  /\ outcome_of x
     = Raised (AttributeError "'NoneType' object has no attribute 'strip'")
  /\ warnings (events_of x) = [].
Proof. vm_compute. repeat split. Qed.

End CsvFacts.

(** ** main                                                              *)

Module MainFacts.
Import Effects Env Automation Observe Stated BuildFacts EngineFacts Dispatch CsvFacts
  Doubles More.
Local Open Scope py_scope.

Lemma smtp_calls_app t1 t2 : smtp_calls (t1 ++ t2) = smtp_calls t1 ++ smtp_calls t2.
Proof. apply flat_map_app. Qed.

Lemma quits_app t1 t2 : quits (t1 ++ t2) = quits t1 + quits t2.
Proof.
  unfold quits. now rewrite smtp_calls_app, List.filter_app, List.length_app.
Qed.

Lemma connected_app t1 t2 : connected (t1 ++ t2) = connected t1 || connected t2.
Proof. unfold connected. now rewrite smtp_calls_app, existsb_app. Qed.

(** Diagnostic output does not touch the relay. *)
Lemma diagnostic_no_calls t :
  forallb is_diagnostic t = true -> smtp_calls t = [].
Proof.
  induction t as [| ev t IH]; [reflexivity |]. cbn [forallb]. intros H.
  apply andb_true_iff in H as [Hev Ht]. destruct ev; try discriminate; now apply IH.
Qed.

(** A trace whose relay calls are all [send_message] calls neither opens
    nor closes the connection. *)
Lemma sends_only t :
  forallb is_send (smtp_calls t) = true -> quits t = 0 /\ connected t = false.
Proof.
  unfold quits, connected. induction (smtp_calls t) as [| c calls IH];
    [now split |].
  cbn [forallb]. intros H. apply andb_true_iff in H as [Hc Hcalls].
  destruct (IH Hcalls) as [IH1 IH2]. destruct c; try discriminate; now split.
Qed.

Section WithPlatform.
Context {P : Platform}.

Local Abbreviation M := (Effects.M conn).
Local Abbreviation store := (Effects.store conn).

(** The [finally] block, once [automation] is assigned: one [quit] when
    there is a connection object, nothing otherwise. *)
Lemma main_finally_run (s : store) :
  automation_bound s = true ->
  main_finally s =
  match smtp_server s with
  | Some c =>
      (match snd (quit c) with None => Ok tt | Some e => Raised e end,
       mkStore true (debug_mode s) (Some (fst (quit c))),
       [Smtp (Quit (snd (quit c)))])
  | None => (Ok tt, s, [])
  end.
Proof.
  intros Hb. unfold main_finally, bind, get. rewrite Hb.
  destruct (smtp_server s) as [c |] eqn:Hs; [| reflexivity].
  unfold on_server, bind, get, put, emit, ret, raise. rewrite Hs, Hb.
  destruct (quit c) as [c' [e |]]; reflexivity.
Qed.

(** Whatever the [try] block does and however it ends, the [except] and
    [finally] blocks around it close the connection once if there is one. *)
Lemma guarded_run (body : M unit) (s s' : store) r t :
  body s = (r, s', t) ->
  automation_bound s' = true ->
  let shown := match r with
               | Ok _ => []
               | Raised e => [Ui (UiErrorOccurred e); RootLogError e]
               end in
  try_finally (try_except body main_except) main_finally s =
  match smtp_server s' with
  | Some c =>
      (match snd (quit c) with None => Ok tt | Some e => Raised e end,
       mkStore true (debug_mode s') (Some (fst (quit c))),
       (t ++ shown) ++ [Smtp (Quit (snd (quit c)))])
  | None => (Ok tt, s', (t ++ shown) ++ [])
  end.
Proof.
  intros Hbody Hb shown. unfold try_finally, try_except. rewrite Hbody.
  destruct r as [[] | e]; subst shown.
  - rewrite (main_finally_run s' Hb).
    destruct (smtp_server s') as [c |]; [| now rewrite !app_nil_r].
    rewrite app_nil_r. destruct (snd (quit c)); reflexivity.
  - unfold main_except, bind, emit. cbn [app].
    rewrite (main_finally_run s' Hb).
    destruct (smtp_server s') as [c |]; [| reflexivity].
    destruct (snd (quit c)); reflexivity.
Qed.

(** [setup_smtp] on an automation object without connection. *)
Lemma setup_smtp_run (email password : string) (s : store) :
  smtp_server s = None ->
  exists r s' t,
    setup_smtp email password s = (r, s', t)
    /\ automation_bound s' = automation_bound s
    /\ debug_mode s' = debug_mode s
    /\ quits t = 0
    /\ connected t = has_server s'
    /\ forallb (fun c => negb (is_send c)) (smtp_calls t) = true
    /\ (r = Ok tt -> has_server s' = true).
Proof.
  intros Hs. unfold setup_smtp. unfold bind at 1.
  destruct (debug_run DSettingUp s) as (t0 & -> & Ht0).
  assert (Hpre : forall u, smtp_calls (t0 ++ u) = smtp_calls u).
  { intros u. rewrite <- smtp_calls_visible, visible_app, Ht0.
    apply smtp_calls_visible. }
  unfold try_except, on_server, bind, get, put, emit, ret, raise, log.
  destruct (SMTP "smtp.gmail.com" 587) as [c | e].
  - cbn [smtp_server]. destruct (starttls c) as [c1 [e1 |]].
    + do 3 eexists. split; [reflexivity |].
      unfold quits, connected, has_server. rewrite !Hpre. simpl.
      repeat split; discriminate.
    + cbn [smtp_server]. destruct (login c1 email password) as [c2 [e2 |]].
      * do 3 eexists. split; [reflexivity |].
        unfold quits, connected, has_server. rewrite !Hpre. simpl.
        repeat split; discriminate.
      * do 3 eexists. split; [reflexivity |].
        unfold quits, connected, has_server. rewrite !Hpre. simpl.
        repeat split.
  - do 3 eexists. split; [reflexivity |].
    unfold quits, connected, has_server. rewrite !Hpre, Hs. simpl.
    repeat split; discriminate.
Qed.

(** The [try] block of main, once the inputs are there. *)
Lemma main_try_run (sender_password : string) (i : inputs) (raw : list byte) :
  in_csv_file i = Some raw ->
  is_empty (in_subject i) || is_empty (in_content i) = false ->
  setup_logging = None ->
  exists r (s' : store) t,
    main_try sender_password i initial = (r, s', t)
    /\ automation_bound s' = true
    /\ quits t = 0
    /\ connected t = has_server s'.
Proof.
  intros Hcsv Hin Hlog. unfold main_try. rewrite Hcsv, Hin.
  unfold bind at 1. unfold new_automation. rewrite Hlog. unfold put.
  set (s1 := mkStore true (in_debug_mode i) None : store).
  unfold bind at 1.
  destruct (reporting_read_csv_content (CsvBytes raw)) as (_ & Hst & Hdiag & _).
  specialize (Hst s1). specialize (Hdiag s1).
  destruct (read_csv_content (CsvBytes raw) s1) as [[r s1'] t1].
  unfold store_of, events_of in Hst, Hdiag. simpl in Hst, Hdiag. subst s1'.
  pose proof (diagnostic_no_calls t1 Hdiag) as Hcalls.
  assert (Hq1 : quits t1 = 0) by (unfold quits; now rewrite Hcalls).
  assert (Hc1 : connected t1 = false) by (unfold connected; now rewrite Hcalls).
  destruct r as [[| email emails] | e].
  - do 3 eexists. split; [reflexivity |].
    rewrite !quits_app, !connected_app, Hq1, Hc1. repeat split.
  - unfold bind at 1, emit at 1. unfold bind at 1.
    destruct (setup_smtp_run sender_email sender_password s1 eq_refl)
      as (r2 & s2 & t2 & -> & Hb2 & Hd2 & Hq2 & Hc2 & _ & Hok).
    destruct r2 as [[] | e2].
    + unfold bind at 1.
      destruct (send_emails_digest s2 sender_email (email :: emails)
                  (in_subject i) (in_content i) (Some (in_attachment_files i)))
        as (s3 & t3 & -> & (Hb3 & _ & Hs3) & _ & _ & Hsend & _).
      apply sends_only in Hsend as [Hq3 Hc3].
      unfold emit. do 3 eexists. split; [reflexivity |].
      rewrite !quits_app, !connected_app, Hq1, Hc1, Hq2, Hc2, Hq3, Hc3.
      rewrite Hs3, Hb3, Hb2. cbn. rewrite !orb_false_r. repeat split.
    + do 3 eexists. split; [reflexivity |].
      rewrite !quits_app, !connected_app, Hq1, Hc1, Hq2, Hc2, Hb2.
      cbn. rewrite ?orb_false_r. repeat split.
  - do 3 eexists. split; [reflexivity |].
    rewrite !quits_app, !connected_app, Hq1, Hc1. repeat split.
Qed.

(** C7, as the code has it: in a run of main that gets as far as creating
    the automation object, [quit] is called exactly once, as the very last
    thing, if the connection object was created (whether or not STARTTLS,
    the login or any send then failed), and it is not called at all, and the
    run ends without error, if the connection object was never created. *)
Theorem quit_once_when_connected (sender_password : string) (i : inputs)
    (raw : list byte) :
  in_send_clicked i = true ->
  in_csv_file i = Some raw ->
  is_empty (in_subject i) || is_empty (in_content i) = false ->
  setup_logging = None ->
  let x := main sender_password i initial in
  quits (events_of x) = (if connected (events_of x) then 1 else 0)
  /\ if connected (events_of x)
     then exists before r,
            events_of x = before ++ [Smtp (Quit r)]
            /\ quits before = 0
            /\ outcome_of x = match r with None => Ok tt | Some e => Raised e end
     else outcome_of x = Ok tt.
Proof.
  intros Hclick Hcsv Hin Hlog x. subst x. unfold main. rewrite Hclick.
  destruct (main_try_run sender_password i raw Hcsv Hin Hlog)
    as (r & s' & t & Htry & Hb & Hq & Hc).
  rewrite (guarded_run _ _ _ _ _ Htry Hb).
  set (shown := match r with
                | Ok _ => []
                | Raised e => [Ui (UiErrorOccurred e); RootLogError e]
                end).
  assert (Hshown : quits shown = 0 /\ connected shown = false)
    by (subst shown; destruct r; now split).
  destruct Hshown as [Hq' Hc'].
  unfold has_server in Hc. destruct (smtp_server s') as [c |];
    unfold events_of, outcome_of; cbn [fst snd];
    rewrite !quits_app, !connected_app, Hq, Hq', Hc, Hc'; cbn [orb].
  - split; [reflexivity |]. exists (t ++ shown), (snd (quit c)).
    split; [reflexivity |]. rewrite quits_app, Hq, Hq'. now split.
  - now split.
Qed.

(** C5, as the code has it: the name chosen is that of the first column,
    in column order, whose name contains "email" in any case of letters, and
    the field read from a row is the one of the last column of that name,
    which is the first column itself when no later column repeats its name;
    so, the reader reading the table to its end and every data row being
    long enough, extraction returns the stripped fields of that column that
    the validator accepts, in row order, and warns about the others; and
    when the table has a header but none of its names contains "email",
    extraction raises the schema error and main shows it and ends without a
    single call on the relay. *)
Theorem email_column_selection :
  (forall (csv_content : csv_input) (text : string) (columns : list string)
          (rest : list (list string)) (i : nat) (s : store),
      decoded csv_content = inl text ->
      csv_reader text = columns :: rest ->
      first_email_position columns = Some i ->
      exists (column : string) (j : nat),
        columns !! i = Some column
        /\ find_email_column columns = Some column
        /\ last_position column columns = Some j
        /\ i <= j
        /\ (NoDup columns -> j = i)
        /\ (csv_error text = None ->
            Forall (fun row => j < length row) (data_rows (columns :: rest)) ->
            let fields := map (fun row => Text.strip (nth j row ""))
                              (data_rows (columns :: rest)) in
            let x := read_csv_content csv_content s in
            outcome_of x = Ok (List.filter EmailValidator.is_valid_email fields)
            /\ warnings (events_of x)
               = List.filter (fun e => negb (EmailValidator.is_valid_email e))
                             fields))
  /\ (forall (sender_password : string) (i : inputs) (raw : list byte)
             (text : string) (columns : list string) (rest : list (list string)),
        in_send_clicked i = true ->
        in_csv_file i = Some raw ->
        is_empty (in_subject i) || is_empty (in_content i) = false ->
        setup_logging = None ->
        decode_utf8 raw = inl text ->
        csv_reader text = columns :: rest ->
        forallb (fun c => negb (names_email c)) columns = true ->
        (forall s : store,
            outcome_of (read_csv_content (CsvBytes raw) s)
            = Raised (ValueError "No email column found in CSV"))
        /\ let x := main sender_password i initial in
           outcome_of x = Ok tt
           /\ smtp_calls (events_of x) = []
           /\ In (Ui (UiErrorOccurred (ValueError "No email column found in CSV")))
                 (events_of x)).
Proof.
  split.
  { intros csv_content text columns rest i s Hdec Hlines Hfirst.
    pose proof (first_email_position_find columns) as Hfind.
    rewrite Hfirst in Hfind. destruct Hfind as (column & Hi & Hcol).
    destruct (last_position_after column columns i Hi) as (j & Hj & Hle).
    exists column, j.
    split; [exact Hi |]. split; [exact Hcol |]. split; [exact Hj |].
    split; [exact Hle |]. split.
    - intros Hnd. destruct (last_position_spec _ _ _ Hj) as [Hj' _].
      exact (NoDup_lookup _ _ _ _ Hnd Hj' Hi).
    - intros Herr Hlong fields x. subst x fields.
      rewrite (read_csv_content_decoded _ _ _ Hdec).
      assert (Hrows : Forall2
                (fun row field => row !! Some column = Some (Csv.CStr field))
                (Csv.dicts (columns :: rest))
                (map (fun row => nth j row "") (data_rows (columns :: rest)))).
      { unfold Csv.dicts, data_rows in *. cbn [tl] in *.
        induction Hlong as [| row rows Hrow _ IH]; [constructor |].
        cbn [map]. constructor; [| exact IH].
        rewrite (row_dict_lookup_last columns row j column Hj).
        destruct (lookup_lt_is_Some_2 row j Hrow) as [f Hf]. rewrite Hf.
        f_equal. f_equal. symmetry. apply nth_lookup_Some with (d := "") in Hf.
        exact Hf. }
      destruct (read_csv_full_rows text columns rest column _ s Hlines Herr
                  Hcol Hrows) as (Ho & Hw & _).
      rewrite List.map_map in Ho, Hw. split; [exact Ho | exact Hw]. }
  intros pw i raw text columns rest Hclick Hcsv Hin Hlog Hdec Hread Hnone.
  apply find_email_column_none in Hnone.
  split.
  - intros s.
    destruct (read_csv_no_column raw text columns rest s Hdec Hread Hnone)
      as (t & -> & _). reflexivity.
  - intros x. subst x. unfold main. rewrite Hclick.
    set (s1 := mkStore true (in_debug_mode i) None : store).
    destruct (read_csv_no_column raw text columns rest s1 Hdec Hread Hnone)
      as (t & Ecsv & Ht).
    assert (Htry : main_try pw i initial
                   = (Raised (ValueError "No email column found in CSV"), s1, t)).
    { unfold main_try. rewrite Hcsv, Hin. unfold bind at 1.
      unfold new_automation. rewrite Hlog. unfold put. fold s1.
      unfold bind at 1. now rewrite Ecsv. }
    rewrite (guarded_run _ _ _ _ _ Htry eq_refl). cbn [smtp_server s1].
    unfold outcome_of, events_of. cbn [fst snd]. split; [reflexivity |]. split.
    + rewrite !smtp_calls_app, <- (smtp_calls_visible t), Ht. reflexivity.
    + apply in_or_app. left. apply in_or_app. right. now left.
Qed.

End WithPlatform.

(** C7 as stated fails: the login is refused, so the session was never
    opened, and yet the run ends with a call of [quit]. *)
Lemma refused_login_is_closed :
  ~ close_as_stated
      (main (P := bad_login) "secret" (sample_inputs (Some sample_table)) initial).
Proof.
  intros [_ H].
  assert (E : session_opened
                (events_of (main (P := bad_login) "secret"
                              (sample_inputs (Some sample_table)) initial))
              = false) by (vm_compute; reflexivity).
  destruct (H E) as [Hq _]. vm_compute in Hq. discriminate.
Qed.

(** C5 as stated fails: two columns are named "email"; the first column
    whose name contains "email" is the first of the table, and the address
    extracted is the one of the third. *)
Lemma last_column_of_the_name_is_read :
  ~ selection_as_stated ["email"; "x"; "email"] [["a@x.com"; "y"; "b@y.com"]]
      (read_csv_content (P := obliging) (CsvBytes table_with_repeated_name)
         (mkStore true false None)).
Proof.
  intros H. specialize (H 0 eq_refl).
  assert (Hrows : Forall (fun row : list string => 0 < length row)
                         [["a@x.com"; "y"; "b@y.com"]])
    by (repeat constructor).
  specialize (H Hrows). vm_compute in H. discriminate.
Qed.

Example repeated_name_run :
  let x := read_csv_content (P := obliging) (CsvBytes table_with_repeated_name)
             (mkStore true false None) in
  @csv_reader obliging (string_of_list_byte table_with_repeated_name)
  = [["email"; "x"; "email"]; ["a@x.com"; "y"; "b@y.com"]]
  /\ first_email_position ["email"; "x"; "email"] = Some 0
  /\ last_position "email" ["email"; "x"; "email"] = Some 2
  /\ outcome_of x = Ok ["b@y.com"].
Proof. vm_compute. repeat split. Qed.

Lemma quit_once_when_connected_witness :
  let x := main (P := bad_login) "secret" (sample_inputs (Some sample_table))
                initial in
  quits (events_of x) = (if connected (events_of x) then 1 else 0)
  /\ if connected (events_of x)
     then exists before r,
            events_of x = before ++ [Smtp (Quit r)]
            /\ quits before = 0
            /\ outcome_of x = match r with None => Ok tt | Some e => Raised e end
     else outcome_of x = Ok tt.
Proof.
  apply (quit_once_when_connected (P := bad_login) "secret"
           (sample_inputs (Some sample_table)) sample_table); reflexivity.
Defined.

Lemma email_column_selection_witness :
  let x := main (P := obliging) "secret"
                (sample_inputs (Some table_without_column)) initial in
  outcome_of x = Ok tt
  /\ smtp_calls (events_of x) = []
  /\ In (Ui (UiErrorOccurred (ValueError "No email column found in CSV")))
        (events_of x).
Proof.
  eapply (proj2 (email_column_selection (P := obliging)) "secret"
            (sample_inputs (Some table_without_column)) table_without_column);
    reflexivity.
Defined.

(** The headers of the specification's example. *)
Example selects_email_address :
  find_email_column ["Name"; "Email Address"] = Some "Email Address"
  /\ find_email_column ["Name"; "E-MAIL"; "Contact EMAIL"; "email"]
     = Some "Contact EMAIL".
Proof. split; reflexivity. Qed.

(** When no CSV file was uploaded the [finally] block of main reads the
    local [automation] before any assignment to it. *)
Example main_without_csv :
  outcome_of (main (P := obliging) "secret" (sample_inputs None) initial)
  = Raised (UnboundLocalError
      "cannot access local variable 'automation' where it is not associated with a value").
Proof. reflexivity. Qed.

End MainFacts.

(* ===================================================================== *)
(** * Further properties of the code                                     *)
(* ===================================================================== *)

(** ** EmailValidator.is_valid_email, beyond the claim                   *)

Module ValidatorMore.
Import Regex RegexFacts EmailValidator Stated ValidatorFacts More.

Lemma chomp_snoc (w : list ascii) (c : ascii) :
  chomp (w ++ [c]) = if Ascii.eqb c newline then w else w ++ [c].
Proof.
  induction w as [| a w IH]; [reflexivity |].
  change ((a :: w) ++ [c]) with (a :: (w ++ [c])). cbn [chomp].
  destruct (w ++ [c]) as [| b rest] eqn:E; [now destruct w |].
  rewrite IH. now destruct (Ascii.eqb c newline).
Qed.

(** An address does not end in a line feed. *)
Lemma shape_no_final_newline (w : list ascii) :
  address_shape (w ++ [newline]) -> False.
Proof.
  intros H. apply shape_has_final_label in H.
  apply (final_label_ends_in_letter _ "a"%char) in H.
  rewrite last_app_cons in H. discriminate.
Qed.

(** X1: the validator accepts exactly the strings that, a final line feed
    set aside, have the address grammar. *)
Theorem accepted_strings (email : string) :
  is_valid_email email = true
  <-> address_shape (chomp (list_ascii_of_string email)).
Proof.
  rewrite is_valid_email_iff.
  destruct (list_ascii_of_string email) as [| a l] eqn:E using rev_ind.
  - split.
    + intros [H | (w & Hw & _)]; [exact H | now destruct w].
    + intros H. now left.
  - clear IHl. rewrite chomp_snoc. destruct (Ascii.eqb a newline) eqn:Ha.
    + apply Ascii.eqb_eq in Ha. subst a. split.
      * intros [H | (w & Hw & H)]; [now apply shape_no_final_newline in H |].
        apply app_inj_tail in Hw as [<- _]. exact H.
      * intros H. right. now exists l.
    + split.
      * intros [H | (w & Hw & H)]; [exact H |].
        apply app_inj_tail in Hw as [_ ->]. now rewrite Ascii.eqb_refl in Ha.
      * intros H. now left.
Qed.

Lemma forallb_count (p : ascii -> bool) (c : ascii) (l : list ascii) :
  p c = false -> forallb p l = true -> count_occ ascii_dec l c = 0.
Proof.
  intros Hc. induction l as [| a l IH]; [reflexivity |].
  cbn [forallb]. intros H. apply andb_true_iff in H as [Ha Hl].
  cbn [count_occ]. destruct (ascii_dec a c) as [-> | _]; [congruence | auto].
Qed.

Lemma string_length_list (s : string) :
  String.length s = length (list_ascii_of_string s).
Proof. induction s as [| c s IH]; [reflexivity | simpl; now rewrite IH]. Qed.

Lemma shape_counts (w : list ascii) :
  address_shape w ->
  count_occ ascii_dec w "@"%char = 1
  /\ count_occ ascii_dec w " "%char = 0
  /\ 6 <= length w.
Proof.
  intros (l & d & t & -> & Hl1 & Hl2 & Hd1 & Hd2 & Ht1 & Ht2).
  rewrite !count_occ_app. cbn [count_occ].
  destruct (ascii_dec "@" "@") as [_ | Hne]; [| congruence].
  destruct (ascii_dec "@" " ") as [Heq | _]; [discriminate |].
  rewrite !count_occ_app. cbn [count_occ].
  destruct (ascii_dec "." "@") as [Heq | _]; [discriminate |].
  destruct (ascii_dec "." " ") as [Heq | _]; [discriminate |].
  rewrite !(forallb_count local_char _ l), !(forallb_count domain_char _ d),
    !(forallb_count is_alpha _ t) by (reflexivity || assumption).
  repeat split.
  rewrite !List.length_app. cbn [length]. rewrite List.length_app. cbn [length].
  destruct l; [congruence |]. destruct d; [congruence |]. simpl. lia.
Qed.

(** X2: a string the validator accepts has exactly one [@], no blank, and
    at least six characters. *)
Theorem accepted_has_one_at (email : string) :
  is_valid_email email = true ->
  count_occ ascii_dec (list_ascii_of_string email) "@"%char = 1
  /\ count_occ ascii_dec (list_ascii_of_string email) " "%char = 0
  /\ 6 <= String.length email.
Proof.
  intros H. rewrite string_length_list.
  apply is_valid_email_iff in H as [H | (w & -> & H)];
    apply shape_counts in H as (H1 & H2 & H3).
  - now repeat split.
  - rewrite !count_occ_app, H1, H2, List.length_app. cbn. repeat split. lia.
Qed.

Lemma accepted_has_one_at_witness :
  count_occ ascii_dec (list_ascii_of_string "a@x.com") "@"%char = 1
  /\ count_occ ascii_dec (list_ascii_of_string "a@x.com") " "%char = 0
  /\ 6 <= String.length "a@x.com".
Proof. apply accepted_has_one_at. reflexivity. Defined.

End ValidatorMore.

(** ** read_csv_content, beyond the claims                               *)

Module CsvMore.
Import Effects Env Automation Observe Stated BuildFacts EngineFacts CsvFacts
  ValidatorFacts More ValidatorMore.
Local Open Scope py_scope.

Lemma lstrip_head (l : list ascii) (c : ascii) (t : list ascii) :
  Text.lstrip l = c :: t -> Text.is_space c = false.
Proof.
  induction l as [| a l IH]; [discriminate |]. cbn [Text.lstrip].
  destruct (Text.is_space a) eqn:Ha; [exact IH |]. now intros [= <- _].
Qed.

(** A stripped string does not end in white space. *)
Lemma strip_last (field : string) (w : list ascii) (c : ascii) :
  list_ascii_of_string (Text.strip field) = w ++ [c] -> Text.is_space c = false.
Proof.
  unfold Text.strip. rewrite list_ascii_of_string_of_list_ascii. intros H.
  apply (f_equal (@rev ascii)) in H. rewrite rev_involutive, rev_app_distr in H.
  cbn in H. now apply lstrip_head in H.
Qed.

(** What extraction keeps has the address grammar: the final line feed the
    validator lets through cannot be there after stripping. *)
Lemma stripped_valid_shape (email : string) :
  stripped_valid email -> address_shape (list_ascii_of_string email).
Proof.
  intros [Hv (field & ->)].
  apply is_valid_email_iff in Hv as [H | (w & Hw & _)]; [exact H |].
  apply strip_last in Hw. discriminate.
Qed.

Lemma length_data_rows (lines : list (list string)) :
  length (Csv.dicts lines) = length (data_rows lines).
Proof.
  destruct lines as [| names rest]; [reflexivity |].
  unfold Csv.dicts, data_rows. cbn [tl]. apply List.length_map.
Qed.

Section WithPlatform.
Context {P : Platform}.

Local Abbreviation M := (Effects.M conn).
Local Abbreviation store := (Effects.store conn).

(** The loop over the rows: the store is left alone, the trace is one
    warning for each field turned down, and what is returned is the list it
    started from followed by the fields kept. *)
Lemma validate_rows_trace (email_column : string)
    (rows : list (gmap (option string) Csv.cell)) :
  forall (valid_emails : list string) (s : store),
  exists r (ws : list string),
    for_fold rows (validate_row email_column) valid_emails s
    = (r, s, map (fun e => Log (InvalidEmail e)) ws)
    /\ match r with
       | Ok l =>
           exists kept, l = valid_emails ++ kept
                        /\ Forall stripped_valid kept
                        /\ length kept + length ws = length rows
       | Raised _ => length ws < length rows
       end.
Proof.
  induction rows as [| row rows IH]; intros valid_emails s.
  - exists (Ok valid_emails), []. split; [reflexivity |].
    exists []. rewrite app_nil_r. repeat split. constructor.
  - cbn [for_fold]. unfold bind at 1. unfold validate_row at 1.
    unfold stripped_field, bind.
    destruct (row !! Some email_column) as [[field | | l] |];
      unfold ret, raise, log, emit; cbv beta iota.
    + destruct (EmailValidator.is_valid_email (Text.strip field)) eqn:Hv;
        cbv beta iota; cbn [app].
      * destruct (IH (valid_emails ++ [Text.strip field]) s) as (r & ws & -> & Hr).
        exists r, ws. split; [reflexivity |]. destruct r as [l | e].
        -- destruct Hr as (kept & -> & Hk & Hlen).
           exists (Text.strip field :: kept). rewrite <- app_assoc.
           repeat split; [| simpl; lia].
           constructor; [| exact Hk]. split; [exact Hv | now exists field].
        -- simpl. lia.
      * destruct (IH valid_emails s) as (r & ws & -> & Hr).
        exists r, (Text.strip field :: ws). split; [reflexivity |].
        destruct r as [l | e].
        -- destruct Hr as (kept & -> & Hk & Hlen).
           exists kept. repeat split; [exact Hk | simpl; lia].
        -- simpl. lia.
    + eexists _, []. split; [reflexivity |]. simpl. lia.
    + eexists _, []. split; [reflexivity |]. simpl. lia.
    + eexists _, []. split; [reflexivity |]. simpl. lia.
Qed.

(** The whole of a run of extraction. *)
Lemma read_csv_content_run (csv_content : csv_input) (s : store) :
  exists (t0 t2 : list event) (ws : list string) r,
    read_csv_content csv_content s
    = (r, s, t0 ++ map (fun e => Log (InvalidEmail e)) ws ++ t2)
    /\ visible t0 = []
    /\ match r with
       | Ok l =>
           visible t2 = []
           /\ Forall stripped_valid l
           /\ exists text,
                decoded csv_content = inl text
                /\ csv_error text = None
                /\ length l + length ws = length (data_rows (csv_reader text))
       | Raised e =>
           t2 = [Log (CsvError e)]
           /\ match decoded csv_content with
              | inr e' => e = e' /\ ws = []
              | inl text =>
                  match csv_reader text with
                  | [] =>
                      e = match csv_error text with
                          | Some e' => e'
                          | None => TypeError "'NoneType' object is not iterable"
                          end
                  | columns :: _ =>
                      find_email_column columns = None ->
                      e = ValueError "No email column found in CSV"
                  end
              end
       end.
Proof.
  unfold read_csv_content. unfold bind at 1.
  destruct (debug_run DReadingCsv s) as (t0 & -> & Ht0).
  unfold bind at 1, try_except. unfold bind at 1.
  assert (Hdec : (match csv_content with
                  | CsvBytes raw =>
                      match decode_utf8 raw with
                      | inl text => ret text
                      | inr e => raise e
                      end
                  | CsvStr text => ret text
                  end) s
                 = match decoded csv_content with
                   | inl text => (Ok text, s, [])
                   | inr e => (Raised e, s, [])
                   end).
  { destruct csv_content as [text | raw]; [reflexivity |].
    unfold decoded. now destruct (decode_utf8 raw). }
  rewrite Hdec. clear Hdec. destruct (decoded csv_content) as [text | e0].
  - unfold bind at 1. unfold Csv.fieldnames, next_row.
    destruct (csv_reader text) as [| columns rest] eqn:Hlines; cbn [head].
    + destruct (csv_error text) as [e |].
      * exists t0, [Log (CsvError e)], [], (Raised e). repeat split; [exact Ht0].
      * exists t0, [Log (CsvError (TypeError "'NoneType' object is not iterable"))],
          [], (Raised (TypeError "'NoneType' object is not iterable")).
        repeat split; [exact Ht0].
    + unfold ret at 1. destruct (find_email_column columns) as [email_column |].
      * unfold bind at 1.
        destruct (validate_rows_trace email_column (Csv.dicts (columns :: rest)) [] s)
          as (r & ws & -> & Hr).
        destruct r as [l | e].
        -- destruct Hr as (kept & -> & Hk & Hlen).
           destruct (csv_error text) as [e |] eqn:Herr.
           ++ exists t0, [Log (CsvError e)], ws, (Raised e).
              unfold bind, log, emit, raise. cbn [app].
              rewrite !app_nil_r. repeat split; [exact Ht0 |]. discriminate.
           ++ unfold bind at 1. cbn [ret]. unfold bind at 1.
              destruct (debug_run (DFound (length ([] ++ kept))) s)
                as (t2 & -> & Ht2).
              exists t0, (t2 ++ []), ws, (Ok ([] ++ kept)).
              split; [unfold ret; cbn [app]; now rewrite !app_nil_r |].
              split; [exact Ht0 |]. rewrite app_nil_r. split; [exact Ht2 |].
              split; [exact Hk |]. exists text. split; [reflexivity |].
              split; [exact Herr |].
              cbn [app]. rewrite Hlen, Hlines. apply length_data_rows.
        -- exists t0, [Log (CsvError e)], ws, (Raised e).
           unfold bind, log, emit, raise. cbn [app]. repeat split; [exact Ht0 |].
           discriminate.
      * exists t0, [Log (CsvError (ValueError "No email column found in CSV"))],
          [], (Raised (ValueError "No email column found in CSV")).
        repeat split; [exact Ht0].
  - exists t0, [Log (CsvError e0)], [], (Raised e0). repeat split; [exact Ht0].
Qed.

Lemma warnings_of_run (t0 t2 : list event) (ws : list string) :
  visible t0 = [] -> visible t2 = [] ->
  warnings (t0 ++ map (fun e => Log (InvalidEmail e)) ws ++ t2) = ws.
Proof.
  intros H0 H2. unfold warnings. rewrite <- flat_map_visible by reflexivity.
  rewrite !visible_app, H0, H2, app_nil_r. apply warnings_of_logs.
Qed.

Lemma prints_only (t : list event) :
  visible t = [] -> forallb is_print t = true.
Proof.
  induction t as [| ev t IH]; [reflexivity |].
  destruct ev; cbn; try discriminate. exact IH.
Qed.

(** X3: every address extraction returns is accepted by the validator and
    has the address grammar (no final line feed is left after stripping). *)
Theorem extraction_returns_addresses (csv_content : csv_input) (s : store)
    (emails : list string) :
  outcome_of (read_csv_content csv_content s) = Ok emails ->
  Forall (fun e => EmailValidator.is_valid_email e = true
                   /\ address_shape (list_ascii_of_string e)) emails.
Proof.
  destruct (read_csv_content_run csv_content s) as (t0 & t2 & ws & r & -> & _ & Hr).
  unfold outcome_of. cbn [fst]. intros ->. destruct Hr as (_ & Hk & _).
  eapply List.Forall_impl; [| exact Hk]. intros e He.
  split; [apply He | now apply stripped_valid_shape].
Qed.

(** X4: when extraction returns, each data row of the table that has a
    field at all is either among the addresses returned or the subject of a
    warning: the two counts add up to the number of those rows. *)
Theorem extraction_accounts_for_rows (csv_content : csv_input) (s : store)
    (emails : list string) :
  outcome_of (read_csv_content csv_content s) = Ok emails ->
  exists text,
    decoded csv_content = inl text
    /\ length emails + length (warnings (events_of (read_csv_content csv_content s)))
       = length (data_rows (csv_reader text)).
Proof.
  destruct (read_csv_content_run csv_content s) as (t0 & t2 & ws & r & -> & Ht0 & Hr).
  unfold outcome_of, events_of. cbn [fst snd]. intros ->.
  destruct Hr as (Ht2 & _ & text & Hdec & _ & Hlen).
  exists text. split; [exact Hdec |]. now rewrite warnings_of_run.
Qed.

(** X5: extraction leaves the automation object as it was; all it performs
    is debug lines, warnings and the error line of a failure; and a failure
    is logged exactly once, as the last thing, with the exception that is
    then raised again, while a run that returns logs no error. *)
Theorem extraction_logs_and_reraises (csv_content : csv_input) (s : store) :
  let x := read_csv_content csv_content s in
  store_of x = s
  /\ forallb csv_event (events_of x) = true
  /\ match outcome_of x with
     | Ok _ => forallb (fun ev => negb (is_csv_error ev)) (events_of x) = true
     | Raised e =>
         exists before,
           events_of x = before ++ [Log (CsvError e)]
           /\ forallb (fun ev => negb (is_csv_error ev)) before = true
     end.
Proof.
  intros x. subst x.
  destruct (read_csv_content_run csv_content s) as (t0 & t2 & ws & r & -> & Ht0 & Hr).
  unfold store_of, events_of, outcome_of. cbn [fst snd].
  apply prints_only in Ht0.
  assert (H0 : forallb csv_event t0 = true
               /\ forallb (fun ev => negb (is_csv_error ev)) t0 = true).
  { clear Hr. induction t0 as [| ev t0 IH]; [now split |].
    cbn [forallb] in Ht0. apply andb_true_iff in Ht0 as [Hev Ht0].
    destruct (IH Ht0) as [IH1 IH2]. destruct ev; try discriminate.
    cbn. now rewrite IH1, IH2. }
  assert (Hw : forallb csv_event (map (fun e => Log (InvalidEmail e)) ws) = true
               /\ forallb (fun ev => negb (is_csv_error ev))
                          (map (fun e => Log (InvalidEmail e)) ws) = true).
  { clear Hr. induction ws as [| w ws IH]; [now split | exact IH]. }
  destruct H0 as [H01 H02], Hw as [Hw1 Hw2].
  split; [reflexivity |]. destruct r as [l | e].
  - destruct Hr as (Ht2 & _). apply prints_only in Ht2.
    assert (H2 : forallb csv_event t2 = true
                 /\ forallb (fun ev => negb (is_csv_error ev)) t2 = true).
    { induction t2 as [| ev t2 IH]; [now split |].
      cbn [forallb] in Ht2. apply andb_true_iff in Ht2 as [Hev Ht2].
      destruct (IH Ht2) as [IH1 IH2]. destruct ev; try discriminate.
      cbn. now rewrite IH1, IH2. }
    destruct H2 as [H21 H22]. rewrite !forallb_app, H01, Hw1, H21, H02, Hw2, H22.
    now split.
  - destruct Hr as (-> & _). rewrite !forallb_app, H01, Hw1. split; [reflexivity |].
    exists (t0 ++ map (fun e => Log (InvalidEmail e)) ws).
    split; [now rewrite <- app_assoc |]. now rewrite forallb_app, H02, Hw2.
Qed.

(** X6: what stops extraction before the header is read.  Bytes that
    cannot be decoded raise the decoding error; and a content without a
    single line raises the [TypeError] of iterating [None], not the schema
    error of a table without address column (a content whose first row the
    reader cannot read raises the error of the reader). *)
Theorem extraction_stops_early (csv_content : csv_input) (s : store) :
  (forall e, decoded csv_content = inr e ->
             outcome_of (read_csv_content csv_content s) = Raised e)
  /\ (forall text,
        decoded csv_content = inl text ->
        csv_reader text = [] ->
        outcome_of (read_csv_content csv_content s)
        = Raised (match csv_error text with
                  | Some e => e
                  | None => TypeError "'NoneType' object is not iterable"
                  end)).
Proof.
  split.
  - intros e Hdec.
    destruct csv_content as [text | raw]; [discriminate |]. cbn [decoded] in Hdec.
    unfold read_csv_content. unfold bind at 1.
    destruct (debug_run DReadingCsv s) as (t0 & -> & Ht0).
    unfold bind at 1, try_except. unfold bind at 1. now rewrite Hdec.
  - intros text Hdec Hl. rewrite (read_csv_content_decoded _ _ _ Hdec).
    unfold read_csv_content. unfold bind at 1.
    destruct (debug_run DReadingCsv s) as (t0 & -> & Ht0).
    unfold bind at 1, try_except. unfold bind at 1. cbn [ret].
    unfold bind at 1. unfold Csv.fieldnames, next_row. rewrite Hl.
    destruct (csv_error text); reflexivity.
Qed.

(** X7: when the reader reads the table to its end without error, the
    column names are distinct and every data row is long enough to have the
    address column, extraction returns, in row order, the stripped fields at
    the position of that column that the validator accepts, and warns about
    the others. *)
Theorem extraction_by_position (csv_content : csv_input) (text : string)
    (columns : list string) (rest : list (list string))
    (email_column : string) (i : nat) (s : store) :
  decoded csv_content = inl text ->
  csv_reader text = columns :: rest ->
  csv_error text = None ->
  NoDup columns ->
  find_email_column columns = Some email_column ->
  columns !! i = Some email_column ->
  Forall (fun row => i < length row) (data_rows (columns :: rest)) ->
  let fields := map (fun row => Text.strip (nth i row ""))
                    (data_rows (columns :: rest)) in
  let x := read_csv_content csv_content s in
  outcome_of x = Ok (List.filter EmailValidator.is_valid_email fields)
  /\ warnings (events_of x)
     = List.filter (fun e => negb (EmailValidator.is_valid_email e)) fields.
Proof.
  intros Hdec Hlines Herr Hnd Hcol Hi Hlong fields x. subst x fields.
  rewrite (read_csv_content_decoded _ _ _ Hdec).
  assert (Hrows : Forall2
            (fun row field => row !! Some email_column = Some (Csv.CStr field))
            (Csv.dicts (columns :: rest))
            (map (fun row => nth i row "") (data_rows (columns :: rest)))).
  { unfold Csv.dicts, data_rows in *. cbn [tl] in *.
    induction Hlong as [| row rows Hrow _ IH]; [constructor |].
    cbn [map]. constructor; [| exact IH].
    rewrite (row_dict_lookup columns row i email_column Hnd Hi).
    destruct (lookup_lt_is_Some_2 row i Hrow) as [f Hf]. rewrite Hf.
    f_equal. f_equal. symmetry. apply nth_lookup_Some with (d := "") in Hf.
    exact Hf. }
  destruct (read_csv_full_rows text columns rest email_column _ s Hlines Herr
              Hcol Hrows) as (Ho & Hw & _).
  rewrite List.map_map in Ho, Hw. split; [exact Ho | exact Hw].
Qed.

(** X22: when the reader raises after the rows it could read (a bare
    carriage return in an unquoted field, a field beyond the size limit),
    extraction does not return: with an address column and every row read
    long enough to have it, the rows read are validated as usual, one
    warning for each field turned down, and then the error of the reader is
    logged as the last thing and raised again; and extraction returns only
    when the reader read the text to its end. *)
Theorem extraction_reader_error (csv_content : csv_input) (s : store) :
  (forall emails,
      outcome_of (read_csv_content csv_content s) = Ok emails ->
      exists text, decoded csv_content = inl text /\ csv_error text = None)
  /\ (forall (text : string) (columns : list string) (rest : list (list string))
             (column : string) (j : nat) (e : exn),
        decoded csv_content = inl text ->
        csv_reader text = columns :: rest ->
        csv_error text = Some e ->
        find_email_column columns = Some column ->
        last_position column columns = Some j ->
        Forall (fun row => j < length row) (data_rows (columns :: rest)) ->
        let fields := map (fun row => Text.strip (nth j row ""))
                          (data_rows (columns :: rest)) in
        let x := read_csv_content csv_content s in
        outcome_of x = Raised e
        /\ warnings (events_of x)
           = List.filter (fun e => negb (EmailValidator.is_valid_email e)) fields
        /\ exists before, events_of x = before ++ [Log (CsvError e)]).
Proof.
  split.
  - intros emails.
    destruct (read_csv_content_run csv_content s) as (t0 & t2 & ws & r & -> & _ & Hr).
    unfold outcome_of. cbn [fst]. intros ->.
    destruct Hr as (_ & _ & text & Hdec & Herr & _). now exists text.
  - intros text columns rest column j e Hdec Hlines Herr Hcol Hj Hlong fields x.
    subst x fields. rewrite (read_csv_content_decoded _ _ _ Hdec).
    assert (Hrows : Forall2
              (fun row field => row !! Some column = Some (Csv.CStr field))
              (Csv.dicts (columns :: rest))
              (map (fun row => nth j row "") (data_rows (columns :: rest)))).
    { unfold Csv.dicts, data_rows in *. cbn [tl] in *.
      induction Hlong as [| row rows Hrow _ IH]; [constructor |].
      cbn [map]. constructor; [| exact IH].
      rewrite (row_dict_lookup_last columns row j column Hj).
      destruct (lookup_lt_is_Some_2 row j Hrow) as [f Hf]. rewrite Hf.
      f_equal. f_equal. symmetry. apply nth_lookup_Some with (d := "") in Hf.
      exact Hf. }
    assert (E : exists t0 t,
               read_csv_content (CsvStr text) s
               = (Raised e, s, (t0 ++ t) ++ [Log (CsvError e)])
               /\ visible t0 = []
               /\ t = map (fun e => Log (InvalidEmail e))
                         (List.filter
                            (fun e => negb (EmailValidator.is_valid_email e))
                            (map Text.strip
                               (map (fun row => nth j row "")
                                    (data_rows (columns :: rest)))))).
    { unfold read_csv_content. unfold bind at 1.
      destruct (debug_run DReadingCsv s) as (t0 & -> & Ht0).
      unfold bind at 1, try_except. unfold bind at 1. cbn [ret].
      rewrite Hlines. unfold bind at 1. cbn [Csv.fieldnames head ret].
      rewrite Hcol. unfold bind at 1.
      destruct (validate_rows_run column _ _ [] s Hrows) as (t & -> & Ht).
      unfold next_row. rewrite Herr.
      unfold bind, raise, log, emit. cbn [app].
      exists t0, t. rewrite !app_nil_r, <- app_assoc. now repeat split. }
    destruct E as (t0 & t & -> & Ht0 & Ht).
    unfold outcome_of, events_of. cbn [fst snd].
    split; [reflexivity |]. split; [| now exists (t0 ++ t)].
    unfold warnings. rewrite <- flat_map_visible by reflexivity.
    rewrite !visible_app, Ht0. cbn [app].
    rewrite flat_map_app. cbn [visible List.filter negb is_print flat_map].
    rewrite app_nil_r. subst t. rewrite List.map_map.
    apply warnings_of_logs.
Qed.

End WithPlatform.

Lemma extraction_reader_error_witness :
  let e := CsvReaderError "new-line character seen in unquoted field" in
  let x := read_csv_content
             (P := stopping_reader [["Email"]; ["a@x.com"]; ["bad"]] e)
             (CsvStr "any") (mkStore true false None) in
  outcome_of x = Raised e
  /\ warnings (events_of x) = ["bad"]
  /\ exists before, events_of x = before ++ [Log (CsvError e)].
Proof.
  apply (proj2 (extraction_reader_error
                  (P := stopping_reader [["Email"]; ["a@x.com"]; ["bad"]]
                          (CsvReaderError "new-line character seen in unquoted field"))
                  (CsvStr "any") (mkStore true false None))
           "any" ["Email"] [["a@x.com"]; ["bad"]] "Email" 0);
    try reflexivity.
  repeat constructor.
Defined.

Lemma extraction_returns_addresses_witness :
  Forall (fun e => EmailValidator.is_valid_email e = true
                   /\ address_shape (list_ascii_of_string e))
         ["a@x.com"; "b@y.com"].
Proof.
  apply (extraction_returns_addresses (P := Doubles.obliging)
           (CsvBytes Doubles.sample_table) (mkStore true false None)).
  reflexivity.
Defined.

Lemma extraction_accounts_for_rows_witness :
  exists text,
    decoded (P := Doubles.obliging) (CsvBytes Doubles.sample_table) = inl text
    /\ length ["a@x.com"; "b@y.com"]
       + length (warnings
                   (events_of
                      (read_csv_content (P := Doubles.obliging)
                         (CsvBytes Doubles.sample_table) (mkStore true false None))))
       = length (data_rows (@csv_reader Doubles.obliging text)).
Proof.
  apply (extraction_accounts_for_rows (P := Doubles.obliging)
           (CsvBytes Doubles.sample_table) (mkStore true false None)).
  reflexivity.
Defined.

Lemma extraction_stops_early_witness :
  outcome_of (read_csv_content (P := Doubles.obliging) (CsvBytes [])
                (mkStore true false None))
  = Raised (TypeError "'NoneType' object is not iterable").
Proof.
  apply (proj2 (extraction_stops_early (P := Doubles.obliging) (CsvBytes [])
                  (mkStore true false None)) EmptyString); reflexivity.
Defined.

Lemma extraction_by_position_witness :
  let x := read_csv_content (P := Doubles.obliging)
             (CsvBytes Doubles.sample_table) (mkStore true false None) in
  outcome_of x = Ok ["a@x.com"; "b@y.com"] /\ warnings (events_of x) = ["bad"].
Proof.
  apply (extraction_by_position (P := Doubles.obliging)
           (CsvBytes Doubles.sample_table)
           (Doubles.text_of_lines ["Email"; "a@x.com"; "bad"; " b@y.com "])
           ["Email"] [["a@x.com"]; ["bad"]; [" b@y.com "]] "Email" 0
           (mkStore true false None)); try reflexivity.
  - apply NoDup_singleton.
  - repeat constructor.
Defined.

End CsvMore.

(** ** create_message and setup_smtp, beyond the claims                  *)

Module BuildMore.
Import Effects Env Automation Observe Stated BuildFacts EngineFacts More.
Local Open Scope py_scope.

Section WithPlatform.
Context {P : Platform}.

Local Abbreviation M := (Effects.M conn).
Local Abbreviation store := (Effects.store conn).

(** Debug lines are not log lines. *)
Lemma prints_off (t : list event) :
  visible t = [] ->
  existsb (fun ev => match ev with
                     | Log SmtpEstablished => true
                     | _ => false
                     end) t = false.
Proof.
  induction t as [| ev t IH]; [reflexivity |].
  destruct ev; cbn; try discriminate. exact IH.
Qed.

Lemma attach_files_layout (files : list (string * list byte)) :
  forall (message : Message) (s : store),
    for_fold files attach_file message s =
    match first_unrecognised files with
    | None =>
        (Ok (mkMessage (msg_headers message)
                       (msg_parts message ++ image_parts files)), s, [])
    | Some name =>
        (Raised (TypeError "Could not guess image MIME subtype"), s,
         [Log (AttachError name (TypeError "Could not guess image MIME subtype"))])
    end.
Proof.
  induction files as [| [file_name file_content] files IH]; intros message s.
  - cbn. rewrite app_nil_r. now destruct message.
  - cbn [for_fold first_unrecognised fst snd]. unfold bind.
    rewrite attach_file_run. unfold image_parts. cbn [flat_map].
    unfold image_part at 1. cbn [fst snd].
    destruct (what file_content) as [subtype |]; [| reflexivity].
    rewrite IH. unfold attach. cbn [msg_headers msg_parts].
    destruct (first_unrecognised files); [reflexivity |].
    now rewrite <- app_assoc.
Qed.

(** The message built, or the file at which building stops. *)
Lemma create_message_layout (sender recipient subject content : string)
    (attachments : option (list (string * list byte))) (s : store) :
  exists t0,
    visible t0 = []
    /\ create_message sender recipient subject content attachments s =
       match first_unrecognised (default [] attachments) with
       | None =>
           (Ok (mkMessage (envelope sender recipient subject)
                          (TextPart "html" content
                           :: image_parts (default [] attachments))), s, t0 ++ [])
       | Some name =>
           (Raised (TypeError "Could not guess image MIME subtype"), s,
            t0 ++ [Log (AttachError name
                          (TypeError "Could not guess image MIME subtype"))])
       end.
Proof.
  unfold create_message, bind.
  destruct (debug_run (DCreating recipient) s) as (t0 & -> & Ht0).
  exists t0. split; [exact Ht0 |].
  destruct attachments as [[| file files] |]; cbn [truthy from_option id];
    try reflexivity.
  rewrite attach_files_layout.
  destruct (first_unrecognised (file :: files)); reflexivity.
Qed.

(** X8: the message built has the header lines Content-Type, MIME-Version,
    From, To and Subject, in this order, the HTML body as its first part and
    then one part for each attachment, in the order of the list, each with
    its payload and its file name in an attachment disposition; when the
    payload of a file is not recognised as an image, building raises at the
    first such file, logs that file once, and looks at no later file. *)
Theorem message_layout (sender recipient subject content : string)
    (attachments : option (list (string * list byte))) (s : store) :
  let files := default [] attachments in
  let x := create_message sender recipient subject content attachments s in
  match first_unrecognised files with
  | None =>
      outcome_of x
      = Ok (mkMessage (envelope sender recipient subject)
                      (TextPart "html" content :: image_parts files))
      /\ length (image_parts files) = length files
      /\ visible (events_of x) = []
  | Some name =>
      outcome_of x = Raised (TypeError "Could not guess image MIME subtype")
      /\ visible (events_of x)
         = [Log (AttachError name (TypeError "Could not guess image MIME subtype"))]
  end.
Proof.
  intros files x. subst x files.
  destruct (create_message_layout sender recipient subject content attachments s)
    as (t0 & Ht0 & ->).
  destruct (first_unrecognised (default [] attachments)) eqn:Hf;
    unfold outcome_of, events_of; cbn [fst snd]; rewrite visible_app, Ht0.
  - now split.
  - repeat split. clear Ht0.
    induction (default [] attachments) as [| file files IH]; [reflexivity |].
    cbn [first_unrecognised] in Hf. unfold image_parts in *. cbn [flat_map].
    unfold image_part at 1. destruct (what (snd file)); [| discriminate].
    cbn. now rewrite IH.
Qed.

(** The run of [setup_smtp], step by step. *)
Lemma setup_smtp_cases (email password : string) (s : store) :
  exists t0,
    visible t0 = []
    /\ setup_smtp email password s =
       match SMTP "smtp.gmail.com" 587 with
       | inr e =>
           (Raised e, s,
            t0 ++ [Smtp (Connect "smtp.gmail.com" 587 (Some e));
                   Log (SmtpSetupFailed e)])
       | inl c =>
           match starttls c with
           | (c1, Some e) =>
               (Raised e, mkStore (automation_bound s) (debug_mode s) (Some c1),
                t0 ++ [Smtp (Connect "smtp.gmail.com" 587 None);
                       Smtp (StartTls (Some e)); Log (SmtpSetupFailed e)])
           | (c1, None) =>
               match login c1 email password with
               | (c2, Some e) =>
                   (Raised e,
                    mkStore (automation_bound s) (debug_mode s) (Some c2),
                    t0 ++ [Smtp (Connect "smtp.gmail.com" 587 None);
                           Smtp (StartTls None); Smtp (Login email (Some e));
                           Log (SmtpSetupFailed e)])
               | (c2, None) =>
                   (Ok tt,
                    mkStore (automation_bound s) (debug_mode s) (Some c2),
                    t0 ++ [Smtp (Connect "smtp.gmail.com" 587 None);
                           Smtp (StartTls None); Smtp (Login email None);
                           Log SmtpEstablished])
               end
           end
       end.
Proof.
  unfold setup_smtp. unfold bind at 1.
  destruct (debug_run DSettingUp s) as (t0 & -> & Ht0).
  exists t0. split; [exact Ht0 |].
  unfold try_except, on_server, bind, get, put, emit, ret, raise, log.
  destruct (SMTP "smtp.gmail.com" 587) as [c | e]; [| reflexivity].
  cbn [smtp_server]. destruct (starttls c) as [c1 [e1 |]]; [reflexivity |].
  cbn [smtp_server automation_bound debug_mode].
  destruct (login c1 email password) as [c2 [e2 |]]; reflexivity.
Qed.

(** X9: [setup_smtp] logs in only after STARTTLS went through, with the
    address it was given; it returns normally exactly when the relay calls
    were connect, STARTTLS and login, all three without error, and then logs
    the session as established; whenever it raises, it has logged the
    exception it raises and not the session; and it leaves a connection
    object in the automation object exactly when the connection was
    created, also when a later step failed. *)
Theorem setup_smtp_steps (email password : string) (s : store) :
  smtp_server s = None ->
  let x := setup_smtp email password s in
  let calls := smtp_calls (events_of x) in
  (forall u r, In (Login u r) calls -> u = email /\ In (StartTls None) calls)
  /\ (outcome_of x = Ok tt
      <-> calls = [Connect "smtp.gmail.com" 587 None; StartTls None;
                   Login email None])
  /\ (outcome_of x = Ok tt <-> session_opened (events_of x) = true)
  /\ (forall e, outcome_of x = Raised e ->
                 In (Log (SmtpSetupFailed e)) (events_of x))
  /\ has_server (store_of x) = connected (events_of x).
Proof.
  intros Hs x calls. subst calls x.
  destruct (setup_smtp_cases email password s) as (t0 & Ht0 & ->).
  assert (Hcalls : forall u, smtp_calls (t0 ++ u) = smtp_calls u).
  { intros u. rewrite <- smtp_calls_visible, visible_app, Ht0.
    apply smtp_calls_visible. }
  assert (Hopen : forall u, session_opened (t0 ++ u) = session_opened u).
  { intros u. unfold session_opened. rewrite existsb_app.
    apply prints_off in Ht0. rewrite Ht0. reflexivity. }
  unfold has_server, connected.
  destruct (SMTP "smtp.gmail.com" 587) as [c | e];
    [destruct (starttls c) as [c1 [e1 |]];
     [| destruct (login c1 email password) as [c2 [e2 |]]] |];
    unfold outcome_of, events_of, store_of; cbn [fst snd smtp_server];
    rewrite Hcalls, Hopen, ?Hs; cbn;
    (split; [| split; [| split; [| split]]]);
    try reflexivity; try (intuition congruence);
    intros e' He; try discriminate He; injection He as <-;
    apply in_or_app; right; cbn; tauto.
Qed.

End WithPlatform.

Lemma setup_smtp_steps_witness :
  let x := setup_smtp (P := Doubles.bad_login) "datanyx.ai@gmail.com" "secret"
             (mkStore true false None) in
  has_server (store_of x) = connected (events_of x)
  /\ In (Log (SmtpSetupFailed (SMTPException "Username and Password not accepted")))
        (events_of x).
Proof.
  destruct (setup_smtp_steps (P := Doubles.bad_login) "datanyx.ai@gmail.com"
              "secret" (mkStore true false None) eq_refl)
    as (_ & _ & _ & Hlog & Hsrv).
  split; [exact Hsrv | apply Hlog; reflexivity].
Defined.

End BuildMore.

(** ** send_emails, beyond the claims                                    *)

Module EngineMore.
Import Effects Env Automation Observe Stated Shapes BuildFacts EngineFacts Dispatch
  More BuildMore.
Local Open Scope py_scope.

Lemma accepted_sends_visible t : accepted_sends (visible t) = accepted_sends t.
Proof. now apply flat_map_visible. Qed.
Lemma sent_recipients_visible t : sent_recipients (visible t) = sent_recipients t.
Proof. now apply flat_map_visible. Qed.

(** *** What the shapes of the traces give *)

Lemma recipient_totals email idx total server t :
  recipient_run email idx total server 3 t ->
  list_sum (sleeps t) <= 5
  /\ length (smtp_calls t) <= 3
  /\ forallb send_event t = true
  /\ length (accepted_sends t) = length (sent_recipients t).
Proof.
  intros H. invert_runs; cbn; repeat split; lia.
Qed.

Lemma recipient_offline email idx total t :
  recipient_run email idx total false 3 t ->
  markers t = [Failed; Pause 2; Failed; Pause 2; Failed]
  /\ outcomes t = [(email, false)]
  /\ smtp_calls t = []
  /\ fractions t = [].
Proof.
  intros H. invert_runs; cbn; repeat split.
Qed.

Lemma campaign_totals total server idx emails ts :
  campaign_run total server idx emails ts ->
  list_sum (sleeps ts) <= 5 * length emails
  /\ length (smtp_calls ts) <= 3 * length emails
  /\ forallb send_event ts = true
  /\ length (accepted_sends ts) = length (sent_recipients ts).
Proof.
  induction 1 as [idx | idx email rest t ts Ht Hts IH].
  - repeat split; cbn; lia.
  - destruct IH as (IH1 & IH2 & IH3 & IH4).
    destruct (recipient_totals _ _ _ _ _ Ht) as (H1 & H2 & H3 & H4).
    unfold sleeps, smtp_calls, accepted_sends, sent_recipients in *.
    rewrite !flat_map_app, list_sum_app, !List.length_app, forallb_app, H3, IH3.
    cbn [length]. repeat split; lia.
Qed.

Lemma campaign_offline total idx emails ts :
  campaign_run total false idx emails ts ->
  markers ts = concat (map (fun _ => [Failed; Pause 2; Failed; Pause 2; Failed])
                           emails)
  /\ outcomes ts = map (fun email => (email, false)) emails
  /\ smtp_calls ts = []
  /\ fractions ts = [].
Proof.
  induction 1 as [idx | idx email rest t ts Ht Hts IH].
  - repeat split.
  - destruct IH as (IH1 & IH2 & IH3 & IH4).
    destruct (recipient_offline _ _ _ _ Ht) as (H1 & H2 & H3 & H4).
    unfold markers, outcomes, smtp_calls, fractions in *.
    rewrite !flat_map_app, H1, H2, H3, H4, IH1, IH2, IH3, IH4.
    repeat split.
Qed.

Lemma forallb_visible (f : event -> bool) (t : list event) :
  (forall m, f (Print m) = true) -> forallb f (visible t) = forallb f t.
Proof.
  intros Hf. unfold visible. induction t as [| ev t IH]; [reflexivity |].
  destruct ev; cbn; rewrite ?IH, ?Hf; reflexivity.
Qed.

Section WithPlatform.
Context {P : Platform}.

Local Abbreviation M := (Effects.M conn).
Local Abbreviation store := (Effects.store conn).

Variables (sender subject content : string).
Variable attachments : option (list (string * list byte)).

Local Abbreviation files := (default [] attachments).
Local Abbreviation message_for :=
  (fun email => campaign_message sender email subject content files).

(** *** One attempt, with the message it sends *)

Lemma attempt_sends (idx total : nat) (email : string) (s : store) :
  exists r s' t,
    attempt sender idx total email subject content attachments s = (r, s', t)
    /\ match r with
       | Ok _ =>
           visible t = sent_block sender subject content files total (idx, email)
       | Raised e =>
           visible t = [Smtp (SendMessage (message_for email) (Some e))]
           \/ visible t = []
           \/ exists name, visible t = [Log (AttachError name e)]
       end.
Proof.
  unfold attempt. unfold bind at 1.
  destruct (create_message_layout sender email subject content attachments s)
    as (t0 & Ht0 & ->).
  destruct (first_unrecognised files) as [name |].
  - do 3 eexists. split; [reflexivity |].
    rewrite visible_app, Ht0. right. right. now exists name.
  - unfold on_server, bind, get, put, emit, raise, ret, log, debug.
    destruct (smtp_server s) as [c |].
    + fold (message_for email).
      destruct (send_message c (message_for email)) as [c' [e |]].
      * do 3 eexists. split; [reflexivity |].
        rewrite !visible_app, Ht0. left. reflexivity.
      * cbn. destruct (debug_mode s); cbn;
          (do 3 eexists; split; [reflexivity |]);
          rewrite !visible_app, Ht0; reflexivity.
    + do 3 eexists. split; [reflexivity |].
      rewrite !visible_app, Ht0. right. left. reflexivity.
Qed.

(** *** One recipient *)

Lemma recipient_sends (idx total : nat) (email : string) :
  forall retries (s : store),
    let t := events_of (retry_loop retries sender idx total email subject content
                                   attachments s) in
    Forall (fun c => exists r, c = SendMessage (message_for email) r) (smtp_calls t)
    /\ (accepted_sends t = [] /\ sent_recipients t = []
        \/ accepted_sends t = [message_for email] /\ sent_recipients t = [email]).
Proof.
  induction retries as [| retries IH]; intros s t; subst t.
  - cbn. split; [constructor | now left].
  - destruct (attempt_sends idx total email s) as (r & s1 & t1 & Ea & Hv).
    destruct r as [[] | e].
    + destruct (retry_loop_sent _ _ _ _ _ _ _ retries _ _ _ Ea) as (t & -> & Ht).
      unfold events_of. cbn [snd].
      rewrite <- smtp_calls_visible, <- accepted_sends_visible,
        <- sent_recipients_visible, Ht, Hv.
      cbn. split; [| now right].
      constructor; [now eexists | constructor].
    + destruct (retry_loop_run sender idx total email subject content attachments
                  retries s1) as (s2 & t3 & E3 & _ & _).
      destruct (retry_loop_failed _ _ _ _ _ _ _ _ _ _ _ _ _ _ Ea E3)
        as (t & -> & Ht).
      specialize (IH s1). cbn zeta in IH. rewrite E3 in IH.
      unfold events_of in *. cbn [snd] in *.
      rewrite <- smtp_calls_visible, <- accepted_sends_visible,
        <- sent_recipients_visible, Ht.
      unfold smtp_calls, accepted_sends, sent_recipients in *.
      rewrite !flat_map_app.
      rewrite !(flat_map_visible _ t3) by reflexivity.
      assert (Htrail :
                flat_map (fun ev => match ev with Smtp c => [c] | _ => [] end)
                         (failure_trail email retries e) = []
                /\ flat_map (fun ev => match ev with
                                       | Smtp (SendMessage m None) => [m]
                                       | _ => []
                                       end) (failure_trail email retries e) = []
                /\ flat_map (fun ev => match ev with
                                       | Log (SentOk email) => [email]
                                       | _ => []
                                       end) (failure_trail email retries e) = []).
      { unfold failure_trail. destruct (0 <? retries); cbn; auto. }
      destruct Htrail as (-> & -> & ->).
      destruct IH as [IH1 IH2].
      destruct Hv as [-> | [-> | [name ->]]]; cbn; split; auto.
      constructor; [now eexists | exact IH1].
Qed.

(** *** The loop over the recipients *)

Lemma campaign_sends (total : nat) :
  forall (emails : list string) (idx : nat) (s : store),
    let t := events_of
               (for_each (combine (seq idx (length emails)) emails)
                  (fun '(idx, email) =>
                     retry_loop 3 sender idx total email subject content attachments)
                  s) in
    Forall (fun c => exists email r,
                In email emails /\ c = SendMessage (message_for email) r)
           (smtp_calls t)
    /\ accepted_sends t = map message_for (sent_recipients t)
    /\ sublist (sent_recipients t) emails.
Proof.
  induction emails as [| email rest IH]; intros idx s t; subst t.
  - cbn. repeat split; constructor.
  - pose proof (recipient_sends idx total email 3 s) as Hone. cbn zeta in Hone.
    destruct (retry_loop_run sender idx total email subject content attachments 3 s)
      as (s1 & t1 & E1 & _ & _).
    rewrite E1 in Hone. unfold events_of in Hone. cbn [snd] in Hone.
    specialize (IH (S idx) s1). cbn zeta in IH.
    destruct (campaign_loop_run sender total subject content attachments
                rest (S idx) s1) as (s2 & t2 & E2 & _ & _).
    rewrite E2 in IH. unfold events_of in *. cbn [snd] in IH.
    cbn [length seq combine for_each]. unfold bind. rewrite E1, E2. cbn [snd].
    unfold smtp_calls, accepted_sends, sent_recipients in *.
    rewrite !flat_map_app.
    destruct Hone as [Hc Hone]. destruct IH as (IHc & IHa & IHs).
    split; [| split].
    + apply Forall_app. split.
      * eapply List.Forall_impl; [| exact Hc].
        intros c [r ->]. exists email, r. split; [now left | reflexivity].
      * eapply List.Forall_impl; [| exact IHc].
        intros c (email' & r & Hin & ->). exists email', r.
        split; [now right | reflexivity].
    + rewrite List.map_app, <- IHa.
      destruct Hone as [[-> ->] | [-> ->]]; reflexivity.
    + destruct Hone as [[_ ->] | [_ ->]]; cbn [app].
      * now apply sublist_cons.
      * now apply sublist_skip.
Qed.

Lemma send_emails_sends (emails : list string) (s : store) :
  let t := events_of (send_emails sender emails subject content attachments s) in
  Forall (fun c => exists email r,
              In email emails /\ c = SendMessage (message_for email) r)
         (smtp_calls t)
  /\ accepted_sends t = map message_for (sent_recipients t)
  /\ sublist (sent_recipients t) emails.
Proof.
  intros t. subst t.
  pose proof (campaign_sends (length emails) emails 0 s) as H. cbn zeta in H.
  destruct (debug_run DStarting s) as (t0 & E0 & Ht0).
  destruct (campaign_loop_run sender (length emails) subject content attachments
              emails 0 s) as (s' & ts & E & _ & _).
  rewrite E in H.
  unfold send_emails, enumerate, bind, emit. rewrite E0, E.
  unfold events_of in *. cbn [snd] in *.
  replace (t0 ++ [NewProgress] ++ [NewStatus] ++ ts ++ [StatusText SCompleted])
    with (t0 ++ [NewProgress; NewStatus] ++ ts ++ [StatusText SCompleted])
    by reflexivity.
  unfold smtp_calls, accepted_sends, sent_recipients in *.
  rewrite !campaign_projection by (reflexivity || exact Ht0).
  rewrite !(flat_map_visible _ ts) by reflexivity.
  exact H.
Qed.

(** *** The whole call *)

Lemma sent_recipients_outcomes (t : list event) :
  sent_recipients t = map fst (List.filter snd (outcomes t)).
Proof.
  unfold sent_recipients, outcomes.
  induction t as [| ev t IH]; [reflexivity |].
  destruct ev as [? | m | | | | | | | |]; cbn; try exact IH.
  destruct m; cbn; try exact IH. f_equal. exact IH.
Qed.

(** X10: whatever the relay answers and whatever the attachments are, the
    only calls [send_emails] makes on the relay are [send_message] calls,
    each with the message of the campaign (sender, subject, HTML body and
    attachments as given) addressed to one of the listed recipients. *)
Theorem only_listed_recipients (emails : list string) (s : store) :
  Forall (fun c => exists email r,
              In email emails
              /\ c = SendMessage
                       (campaign_message sender email subject content
                                         (default [] attachments)) r)
         (smtp_calls (events_of
                        (send_emails sender emails subject content attachments s))).
Proof.
  exact (proj1 (send_emails_sends emails s)).
Qed.

(** X11: the messages the relay accepted are, in order, the messages of
    the recipients logged as sent, one each; these recipients are the ones
    with a positive record, and they are a subsequence of the list: no
    listed recipient is sent the message more often than it is listed. *)
Theorem accepted_once_each (emails : list string) (s : store) :
  let t := events_of (send_emails sender emails subject content attachments s) in
  accepted_sends t
  = map (fun email => campaign_message sender email subject content
                                       (default [] attachments))
        (sent_recipients t)
  /\ sent_recipients t = map fst (List.filter snd (outcomes t))
  /\ sublist (sent_recipients t) emails
  /\ length (accepted_sends t) = successes t.
Proof.
  intros t.
  destruct (send_emails_sends emails s) as (_ & Ha & Hs). fold t in Ha, Hs.
  split; [exact Ha |]. split; [apply sent_recipients_outcomes |].
  split; [exact Hs |].
  rewrite Ha, List.length_map, sent_recipients_outcomes, List.length_map.
  reflexivity.
Qed.

(** X12: a call of [send_emails] for n recipients sleeps at most 5n
    seconds in all and calls the relay at most 3n times. *)
Theorem campaign_bounds (emails : list string) (s : store) :
  let t := events_of (send_emails sender emails subject content attachments s) in
  list_sum (sleeps t) <= 5 * length emails
  /\ length (smtp_calls t) <= 3 * length emails.
Proof.
  intros t. subst t.
  destruct (send_emails_run sender emails subject content attachments s)
    as (s' & t0 & ts & -> & Ht0 & Hrun & _).
  apply campaign_totals in Hrun as (H1 & H2 & _ & _).
  unfold events_of. cbn [snd]. unfold sleeps, smtp_calls in *.
  rewrite !campaign_projection by (reflexivity || exact Ht0).
  now split.
Qed.

Lemma send_emails_events (emails : list string) (s : store) :
  forallb send_event
          (events_of (send_emails sender emails subject content attachments s))
  = true.
Proof.
  destruct (send_emails_run sender emails subject content attachments s)
    as (s' & t0 & ts & -> & Ht0 & Hrun & Hf).
  apply campaign_totals in Hrun as (_ & _ & H3 & _).
  unfold events_of. cbn [snd].
  rewrite <- forallb_visible by reflexivity.
  rewrite !visible_app, Ht0. cbn [visible List.filter negb is_print app].
  cbn [forallb send_event andb]. rewrite forallb_app, H3. reflexivity.
Qed.

(** X13: [send_emails] returns normally and does nothing but write debug
    lines and its own four kinds of log lines, drive the progress bar and
    the status text, sleep, and call [send_message]: it never connects,
    logs in or quits, and shows no message box; and it leaves the
    connection in place if there was one. *)
Theorem send_emails_confined (emails : list string) (s : store) :
  let x := send_emails sender emails subject content attachments s in
  outcome_of x = Ok tt
  /\ forallb send_event (events_of x) = true
  /\ frame s (store_of x).
Proof.
  intros x. subst x.
  split; [| split; [apply send_emails_events |]];
    destruct (send_emails_run sender emails subject content attachments s)
      as (s' & t0 & ts & -> & _ & _ & Hf); [reflexivity | exact Hf].
Qed.

(** *** A relay that accepts every message *)



(** X15: without a connection object, [send_emails] still returns
    normally: it never calls the relay, makes three attempts for every
    recipient with a pause of two seconds after the first and the second,
    records every recipient as failed, in list order, and never moves the
    progress bar. *)
Theorem no_connection_run (emails : list string) (s : store)
    (Hserver : has_server s = false) :
  let x := send_emails sender emails subject content attachments s in
  outcome_of x = Ok tt
  /\ smtp_calls (events_of x) = []
  /\ markers (events_of x)
     = concat (map (fun _ => [Failed; Pause 2; Failed; Pause 2; Failed]) emails)
  /\ outcomes (events_of x) = map (fun email => (email, false)) emails
  /\ fractions (events_of x) = [].
Proof.
  intros x. subst x.
  destruct (send_emails_run sender emails subject content attachments s)
    as (s' & t0 & ts & -> & Ht0 & Hrun & _).
  rewrite Hserver in Hrun.
  apply campaign_offline in Hrun as (H1 & H2 & H3 & H4).
  unfold outcome_of, events_of. cbn [fst snd].
  unfold markers, outcomes, smtp_calls, fractions in *.
  rewrite !campaign_projection by (reflexivity || exact Ht0).
  repeat split; assumption.
Qed.

End WithPlatform.


Lemma no_connection_run_witness :
  let x := send_emails (P := Doubles.obliging) "s@x.com" ["a@x.com"; "b@y.com"]
             "Hi" "<p>x</p>" None (mkStore true false None) in
  outcome_of x = Ok tt
  /\ smtp_calls (events_of x) = []
  /\ markers (events_of x)
     = [Failed; Pause 2; Failed; Pause 2; Failed;
        Failed; Pause 2; Failed; Pause 2; Failed]
  /\ outcomes (events_of x) = [("a@x.com", false); ("b@y.com", false)]
  /\ fractions (events_of x) = [].
Proof.
  apply (no_connection_run (P := Doubles.obliging) "s@x.com" "Hi" "<p>x</p>" None
           ["a@x.com"; "b@y.com"] (mkStore true false None)).
  reflexivity.
Defined.

End EngineMore.

(** ** main, beyond the claims                                           *)

Module MainMore.
Import Effects Env Automation Observe Stated BuildFacts EngineFacts Dispatch CsvFacts
  MainFacts ValidatorFacts More ValidatorMore CsvMore BuildMore EngineMore.
Local Open Scope py_scope.

(** Projections of a trace whose events are all of a kind the projection
    does not see. *)
Lemma flat_map_none {B} (k : event -> bool) (f : event -> list B) (t : list event) :
  (forall ev, k ev = true -> f ev = []) ->
  forallb k t = true -> flat_map f t = [].
Proof.
  intros Hk. induction t as [| ev t IH]; [reflexivity |].
  cbn [forallb flat_map]. intros H. apply andb_true_iff in H as [Hev Ht].
  now rewrite (Hk ev Hev), IH.
Qed.

Lemma existsb_none (k g : event -> bool) (t : list event) :
  (forall ev, k ev = true -> g ev = false) ->
  forallb k t = true -> existsb g t = false.
Proof.
  intros Hk. induction t as [| ev t IH]; [reflexivity |].
  cbn [forallb existsb]. intros H. apply andb_true_iff in H as [Hev Ht].
  now rewrite (Hk ev Hev), IH.
Qed.

Lemma completed_shown_app t1 t2 :
  completed_shown (t1 ++ t2) = completed_shown t1 || completed_shown t2.
Proof. apply existsb_app. Qed.

Lemma session_opened_app t1 t2 :
  session_opened (t1 ++ t2) = session_opened t1 || session_opened t2.
Proof. apply existsb_app. Qed.

Lemma outcomes_app t1 t2 : outcomes (t1 ++ t2) = outcomes t1 ++ outcomes t2.
Proof. apply flat_map_app. Qed.

Ltac by_kind :=
  let ev := fresh "ev" in
  let Hk := fresh "Hk" in
  intros ev Hk; destruct ev as [? | [] | ? | | | ? | ? | ? | [] | []];
  (discriminate Hk || reflexivity).

Section WithPlatform.
Context {P : Platform}.

Local Abbreviation M := (Effects.M conn).
Local Abbreviation store := (Effects.store conn).

(** Extraction, as main sees it. *)
Lemma read_csv_content_events (csv_content : csv_input) (s : store) :
  exists r t,
    read_csv_content csv_content s = (r, s, t)
    /\ forallb csv_event t = true
    /\ match r with
       | Ok l => Forall stripped_valid l
       | Raised _ => True
       end.
Proof.
  destruct (read_csv_content_run csv_content s) as (t0 & t2 & ws & r & E & Ht0 & Hr).
  exists r, (t0 ++ map (fun e => Log (InvalidEmail e)) ws ++ t2).
  split; [exact E |].
  assert (Hprint : forall u, visible u = [] -> forallb csv_event u = true).
  { intros u Hu. rewrite <- forallb_visible by reflexivity. now rewrite Hu. }
  assert (Hws : forallb csv_event (map (fun e => Log (InvalidEmail e)) ws) = true)
    by (clear; induction ws; [reflexivity | assumption]).
  rewrite !forallb_app, Hws, (Hprint t0 Ht0).
  destruct r as [l | e].
  - destruct Hr as (Ht2 & Hl & _). now rewrite (Hprint t2 Ht2).
  - destruct Hr as (-> & _). now split.
Qed.

(** The [try] block of main, case by case. *)
Lemma main_try_cases (sender_password : string) (i : inputs) :
  match in_csv_file i with
  | None => main_try sender_password i initial = (Ok tt, initial, [Ui UiNoCsv])
  | Some raw =>
      if is_empty (in_subject i) || is_empty (in_content i)
      then main_try sender_password i initial
           = (Ok tt, initial, [Ui UiNoSubjectOrContent])
      else
        match setup_logging with
        | Some e => main_try sender_password i initial = (Raised e, initial, [])
        | None =>
            let s1 : store := mkStore true (in_debug_mode i) None in
            exists r1 t1,
              read_csv_content (CsvBytes raw) s1 = (r1, s1, t1)
              /\ match r1 with
                 | Raised e => main_try sender_password i initial = (Raised e, s1, t1)
                 | Ok [] =>
                     main_try sender_password i initial
                     = (Ok tt, s1, t1 ++ [Ui UiNoValidEmails])
                 | Ok (email :: rest) =>
                     exists r2 s2 t2,
                       setup_smtp sender_email sender_password s1 = (r2, s2, t2)
                       /\ match r2 with
                          | Raised e =>
                              main_try sender_password i initial
                              = (Raised e, s2,
                                 t1 ++ [Ui (UiFound (length (email :: rest)))] ++ t2)
                          | Ok _ =>
                              exists s3 t3,
                                send_emails sender_email (email :: rest)
                                  (in_subject i) (in_content i)
                                  (Some (in_attachment_files i)) s2
                                = (Ok tt, s3, t3)
                                /\ main_try sender_password i initial
                                   = (Ok tt, s3,
                                      t1 ++ [Ui (UiFound (length (email :: rest)))]
                                         ++ t2 ++ t3 ++ [Ui UiCompleted])
                          end
                 end
        end
  end.
Proof.
  unfold main_try.
  destruct (in_csv_file i) as [raw |]; [| reflexivity].
  destruct (is_empty (in_subject i) || is_empty (in_content i)); [reflexivity |].
  unfold new_automation.
  destruct setup_logging as [e |]; [reflexivity |].
  set (s1 := mkStore true (in_debug_mode i) None : store).
  destruct (read_csv_content_events (CsvBytes raw) s1) as (r1 & t1 & E1 & _ & _).
  exists r1, t1. split; [exact E1 |].
  destruct r1 as [[| email rest] | e];
    try (unfold bind at 1, put; unfold bind at 1; rewrite E1; reflexivity).
  destruct (setup_smtp sender_email sender_password s1) as [[r2 s2] t2] eqn:E2.
  exists r2, s2, t2. split; [reflexivity |].
  destruct r2 as [[] | e].
  - destruct (send_emails_run sender_email (email :: rest) (in_subject i)
                (in_content i) (Some (in_attachment_files i)) s2)
      as (s3 & t0 & ts & E & _).
    do 2 eexists. split; [exact E |].
    unfold bind at 1, put. unfold bind at 1. rewrite E1.
    unfold bind at 1, emit at 1. unfold bind at 1. rewrite E2.
    unfold bind at 1. rewrite E. reflexivity.
  - unfold bind at 1, put. unfold bind at 1. rewrite E1.
    unfold bind at 1, emit at 1. unfold bind at 1. rewrite E2. reflexivity.
Qed.

(** The [except] and [finally] blocks around a [try] block that leaves
    [automation] unassigned. *)
Lemma unguarded_run (body : M unit) r t :
  body initial = (r, initial, t) ->
  try_finally (try_except body main_except) main_finally initial
  = (Raised unbound, initial,
     t ++ match r with
          | Ok _ => []
          | Raised e => [Ui (UiErrorOccurred e); RootLogError e]
          end).
Proof.
  intros Hbody. unfold try_finally, try_except. rewrite Hbody.
  destruct r as [[] | e]; cbn; rewrite ?app_nil_r; reflexivity.
Qed.

(** A run of main that gets as far as creating the automation object,
    case by case: what extraction returns, then how far [setup_smtp] gets. *)
Lemma main_anatomy (sender_password : string) (i : inputs) (raw : list byte) :
  in_send_clicked i = true ->
  in_csv_file i = Some raw ->
  is_empty (in_subject i) || is_empty (in_content i) = false ->
  setup_logging = None ->
  let s1 : store := mkStore true (in_debug_mode i) None in
  let x := main sender_password i initial in
  exists r1 t1,
    read_csv_content (CsvBytes raw) s1 = (r1, s1, t1)
    /\ forallb csv_event t1 = true
    /\ match r1 with
       | Raised e =>
           outcome_of x = Ok tt
           /\ events_of x = t1 ++ [Ui (UiErrorOccurred e); RootLogError e]
       | Ok [] =>
           outcome_of x = Ok tt /\ events_of x = t1 ++ [Ui UiNoValidEmails]
       | Ok (email :: rest) =>
           Forall stripped_valid (email :: rest)
           /\ exists t0,
               visible t0 = []
               /\ let found := t1 ++ Ui (UiFound (length (email :: rest))) :: t0 in
                  match SMTP "smtp.gmail.com" 587 with
                  | inr e =>
                      outcome_of x = Ok tt
                      /\ events_of x
                         = found ++ [Smtp (Connect "smtp.gmail.com" 587 (Some e));
                                     Log (SmtpSetupFailed e);
                                     Ui (UiErrorOccurred e); RootLogError e]
                  | inl c =>
                      match starttls c with
                      | (c1, Some e) =>
                          outcome_of x = closing c1
                          /\ events_of x
                             = found ++ [Smtp (Connect "smtp.gmail.com" 587 None);
                                         Smtp (StartTls (Some e));
                                         Log (SmtpSetupFailed e);
                                         Ui (UiErrorOccurred e); RootLogError e;
                                         Smtp (Quit (snd (quit c1)))]
                      | (c1, None) =>
                          match login c1 sender_email sender_password with
                          | (c2, Some e) =>
                              outcome_of x = closing c2
                              /\ events_of x
                                 = found
                                   ++ [Smtp (Connect "smtp.gmail.com" 587 None);
                                       Smtp (StartTls None);
                                       Smtp (Login sender_email (Some e));
                                       Log (SmtpSetupFailed e);
                                       Ui (UiErrorOccurred e); RootLogError e;
                                       Smtp (Quit (snd (quit c2)))]
                          | (c2, None) =>
                              exists c3,
                                outcome_of x = closing c3
                                /\ events_of x
                                   = found
                                     ++ [Smtp (Connect "smtp.gmail.com" 587 None);
                                         Smtp (StartTls None);
                                         Smtp (Login sender_email None);
                                         Log SmtpEstablished]
                                     ++ events_of
                                          (send_emails sender_email (email :: rest)
                                             (in_subject i) (in_content i)
                                             (Some (in_attachment_files i))
                                             (mkStore true (in_debug_mode i)
                                                      (Some c2)))
                                     ++ [Ui UiCompleted; Smtp (Quit (snd (quit c3)))]
                          end
                      end
                  end
       end.
Proof.
  intros Hclick Hcsv Hin Hlog s1 x. subst x. unfold main. rewrite Hclick.
  pose proof (main_try_cases sender_password i) as H.
  rewrite Hcsv, Hin, Hlog in H. cbn zeta in H. fold s1 in H.
  destruct H as (r1 & t1 & E1 & H).
  destruct (read_csv_content_events (CsvBytes raw) s1) as (r1' & t1' & E1' & Hk & Hv).
  rewrite E1 in E1'. injection E1' as <- <-.
  exists r1, t1. split; [exact E1 |]. split; [exact Hk |].
  destruct r1 as [[| email rest] | e].
  - rewrite (guarded_run _ _ _ _ _ H eq_refl). cbn [smtp_server s1].
    unfold outcome_of, events_of. cbn [fst snd]. now rewrite !app_nil_r.
  - split; [exact Hv |].
    destruct H as (r2 & s2 & t2 & E2 & H).
    destruct (setup_smtp_cases sender_email sender_password s1) as (t0 & Ht0 & Es).
    rewrite Es in E2. exists t0. split; [exact Ht0 |]. cbn zeta.
    destruct (SMTP "smtp.gmail.com" 587) as [c | e];
      [destruct (starttls c) as [c1 [e1 |]];
       [| destruct (login c1 sender_email sender_password) as [c2 [e2 |]]] |];
      injection E2 as <- <- <-; subst s1; cbn [automation_bound debug_mode] in H.
    + rewrite (guarded_run _ _ _ _ _ H eq_refl). cbn [smtp_server].
      unfold outcome_of, events_of, closing. cbn [fst snd].
      split; [reflexivity |]. rewrite <- !app_assoc. reflexivity.
    + rewrite (guarded_run _ _ _ _ _ H eq_refl). cbn [smtp_server].
      unfold outcome_of, events_of, closing. cbn [fst snd].
      split; [reflexivity |]. rewrite <- !app_assoc. reflexivity.
    + destruct H as (s3 & t3 & E3 & H).
      destruct (send_emails_run sender_email (email :: rest) (in_subject i)
                  (in_content i) (Some (in_attachment_files i))
                  (mkStore true (in_debug_mode i) (Some c2)))
        as (s3' & t0' & ts & E' & _ & _ & Hb & _ & Hs).
      rewrite E3 in E'. injection E' as <- _. cbn in Hb, Hs.
      rewrite (guarded_run _ _ _ _ _ H Hb).
      unfold has_server in Hs. destruct (smtp_server s3) as [c3 |]; [| discriminate].
      exists c3. unfold outcome_of, events_of, closing. cbn [fst snd].
      rewrite E3. cbn [snd].
      split; [reflexivity |]. rewrite <- !app_assoc. reflexivity.
    + rewrite (guarded_run _ _ _ _ _ H eq_refl). cbn [smtp_server].
      unfold outcome_of, events_of. cbn [fst snd].
      split; [reflexivity |]. rewrite <- !app_assoc. reflexivity.
  - rewrite (guarded_run _ _ _ _ _ H eq_refl). cbn [smtp_server s1].
    unfold outcome_of, events_of. cbn [fst snd]. now rewrite !app_nil_r.
Qed.

(** A run of main that does not get as far as creating the automation
    object. *)
Lemma main_unbound_cases (sender_password : string) (i : inputs) :
  in_send_clicked i = true ->
  let x := main sender_password i initial in
  match in_csv_file i with
  | None => x = (Raised unbound, initial, [Ui UiNoCsv])
  | Some _ =>
      if is_empty (in_subject i) || is_empty (in_content i)
      then x = (Raised unbound, initial, [Ui UiNoSubjectOrContent])
      else match setup_logging with
           | Some e =>
               x = (Raised unbound, initial,
                    [Ui (UiErrorOccurred e); RootLogError e])
           | None => True
           end
  end.
Proof.
  intros Hclick x. subst x. unfold main. rewrite Hclick.
  pose proof (main_try_cases sender_password i) as H.
  destruct (in_csv_file i) as [raw |];
    [destruct (is_empty (in_subject i) || is_empty (in_content i));
     [| destruct setup_logging as [e |]; [| exact I]] |];
    now rewrite (unguarded_run _ _ _ H).
Qed.

Lemma preamble (t1 t0 : list event) (n : nat) :
  forallb csv_event t1 = true -> visible t0 = [] ->
  forallb preamble_event (t1 ++ Ui (UiFound n) :: t0) = true.
Proof.
  intros H1 H0. rewrite forallb_app. cbn [forallb preamble_event].
  rewrite <- (forallb_visible preamble_event t0), H0 by reflexivity.
  cbn [forallb]. rewrite andb_true_r.
  apply List.forallb_forall. intros ev Hin.
  apply (proj1 (List.forallb_forall _ _) H1) in Hin.
  destruct ev; try exact Hin. discriminate Hin.
Qed.

(** X16: whatever the inputs and whatever the relay answers, the calls a
    run of main makes on the relay are, in order: none at all; or a
    connection that is refused; or a connection, a refused STARTTLS or a
    refused login of the sender, and [quit]; or connection, STARTTLS and
    login of the sender, then nothing but [send_message] calls, then
    [quit]. *)
Theorem relay_protocol (sender_password : string) (i : inputs) :
  relay_session sender_email
                (smtp_calls (events_of (main sender_password i initial))).
Proof.
  destruct (in_send_clicked i) eqn:Hclick;
    [| unfold main; rewrite Hclick; constructor].
  pose proof (main_unbound_cases sender_password i Hclick) as Hearly.
  cbn zeta in Hearly.
  destruct (in_csv_file i) as [raw |] eqn:Hcsv; [| rewrite Hearly; constructor].
  destruct (is_empty (in_subject i) || is_empty (in_content i)) eqn:Hin;
    [rewrite Hearly; constructor |].
  destruct setup_logging as [e |] eqn:Hlog; [rewrite Hearly; constructor |].
  clear Hearly.
  destruct (main_anatomy sender_password i raw Hclick Hcsv Hin Hlog)
    as (r1 & t1 & _ & Hk & H).
  assert (H1 : smtp_calls t1 = [])
    by (apply (flat_map_none csv_event); [by_kind | exact Hk]).
  destruct r1 as [[| email rest] | e].
  - destruct H as [_ ->]. rewrite smtp_calls_app, H1. constructor.
  - destruct H as (_ & t0 & Ht0 & H). cbn zeta in H.
    assert (Hf : smtp_calls (t1 ++ Ui (UiFound (length (email :: rest))) :: t0)
                 = []).
    { apply (flat_map_none preamble_event); [by_kind | now apply preamble]. }
    destruct (SMTP "smtp.gmail.com" 587) as [c | e];
      [destruct (starttls c) as [c1 [e1 |]];
       [| destruct (login c1 sender_email sender_password) as [c2 [e2 |]]] |].
    + destruct H as [_ ->]. rewrite smtp_calls_app, Hf. constructor.
    + destruct H as [_ ->]. rewrite smtp_calls_app, Hf. constructor.
    + destruct H as (c3 & _ & ->).
      rewrite smtp_calls_app, Hf, !smtp_calls_app. cbn [app].
      apply (Session sender_email
               (smtp_calls (events_of
                  (send_emails sender_email (email :: rest) (in_subject i)
                     (in_content i) (Some (in_attachment_files i))
                     (mkStore true (in_debug_mode i) (Some c2)))))).
      destruct (send_emails_digest (mkStore true (in_debug_mode i) (Some c2))
                  sender_email (email :: rest) (in_subject i) (in_content i)
                  (Some (in_attachment_files i)))
        as (s3 & t3 & -> & _ & _ & _ & Hsend & _).
      exact Hsend.
    + destruct H as [_ ->]. rewrite smtp_calls_app, Hf. constructor.
  - destruct H as [_ ->]. rewrite smtp_calls_app, H1. constructor.
Qed.

(** X17: when the script runs with no CSV file, or with an empty subject
    or content, or when the constructor of the automation object fails, main
    shows the message of the case and then ends with the error of reading
    the local [automation] before any assignment; the relay is not
    called. *)
Theorem validation_ends_unbound (sender_password : string) (i : inputs) :
  in_send_clicked i = true ->
  in_csv_file i = None
  \/ is_empty (in_subject i) || is_empty (in_content i) = true
  \/ setup_logging <> None ->
  let x := main sender_password i initial in
  outcome_of x = Raised unbound
  /\ store_of x = initial
  /\ smtp_calls (events_of x) = []
  /\ events_of x
     = match in_csv_file i with
       | None => [Ui UiNoCsv]
       | Some _ =>
           if is_empty (in_subject i) || is_empty (in_content i)
           then [Ui UiNoSubjectOrContent]
           else match setup_logging with
                | Some e => [Ui (UiErrorOccurred e); RootLogError e]
                | None => []
                end
       end.
Proof.
  intros Hclick Hcase x. subst x.
  pose proof (main_unbound_cases sender_password i Hclick) as H. cbn zeta in H.
  destruct (in_csv_file i) as [raw |];
    [destruct (is_empty (in_subject i) || is_empty (in_content i));
     [| destruct setup_logging as [e |]] |];
    try (rewrite H; repeat split).
  destruct Hcase as [Hc | [Hc | Hc]]; [discriminate | discriminate | now elim Hc].
Qed.

(** X18: main shows the box of a completed campaign exactly when the
    login went through, whatever happened to the messages afterwards; and
    then every address extraction returned has its record, sent or given up,
    in the order of extraction. *)
Theorem completed_means_logged_in (sender_password : string) (i : inputs) :
  let t := events_of (main sender_password i initial) in
  completed_shown t = session_opened t
  /\ (session_opened t = true ->
      exists raw emails,
        in_csv_file i = Some raw
        /\ outcome_of (read_csv_content (CsvBytes raw)
                         (mkStore true (in_debug_mode i) None))
           = Ok emails
        /\ map fst (outcomes t) = emails).
Proof.
  intros t. subst t.
  destruct (in_send_clicked i) eqn:Hclick;
    [| unfold main; rewrite Hclick; split; [reflexivity | discriminate]].
  pose proof (main_unbound_cases sender_password i Hclick) as Hearly.
  cbn zeta in Hearly.
  destruct (in_csv_file i) as [raw |] eqn:Hcsv;
    [| rewrite Hearly; split; [reflexivity | discriminate]].
  destruct (is_empty (in_subject i) || is_empty (in_content i)) eqn:Hin;
    [rewrite Hearly; split; [reflexivity | discriminate] |].
  destruct setup_logging as [e |] eqn:Hlog;
    [rewrite Hearly; split; [reflexivity | discriminate] |].
  clear Hearly.
  destruct (main_anatomy sender_password i raw Hclick Hcsv Hin Hlog)
    as (r1 & t1 & E1 & Hk & H).
  assert (Hc1 : completed_shown t1 = false)
    by (apply (existsb_none csv_event); [by_kind | exact Hk]).
  assert (Hs1 : session_opened t1 = false)
    by (apply (existsb_none csv_event); [by_kind | exact Hk]).
  destruct r1 as [[| email rest] | e].
  - destruct H as [_ ->].
    rewrite completed_shown_app, session_opened_app, Hc1, Hs1.
    split; [reflexivity | discriminate].
  - destruct H as (_ & t0 & Ht0 & H). cbn zeta in H.
    pose proof (preamble t1 t0 (length (email :: rest)) Hk Ht0) as Hp.
    assert (Hcf : completed_shown
                    (t1 ++ Ui (UiFound (length (email :: rest))) :: t0) = false)
      by (apply (existsb_none preamble_event); [by_kind | exact Hp]).
    assert (Hsf : session_opened
                    (t1 ++ Ui (UiFound (length (email :: rest))) :: t0) = false)
      by (apply (existsb_none preamble_event); [by_kind | exact Hp]).
    assert (Hof : outcomes (t1 ++ Ui (UiFound (length (email :: rest))) :: t0)
                  = [])
      by (apply (flat_map_none preamble_event); [by_kind | exact Hp]).
    destruct (SMTP "smtp.gmail.com" 587) as [c | e];
      [destruct (starttls c) as [c1 [e1 |]];
       [| destruct (login c1 sender_email sender_password) as [c2 [e2 |]]] |].
    + destruct H as [_ ->].
      rewrite completed_shown_app, session_opened_app, Hcf, Hsf.
      split; [reflexivity | discriminate].
    + destruct H as [_ ->].
      rewrite completed_shown_app, session_opened_app, Hcf, Hsf.
      split; [reflexivity | discriminate].
    + destruct H as (c3 & _ & ->).
      destruct (send_emails_digest (mkStore true (in_debug_mode i) (Some c2))
                  sender_email (email :: rest) (in_subject i) (in_content i)
                  (Some (in_attachment_files i)))
        as (s3 & t3 & E3 & _ & Ho & _).
      pose proof (send_emails_events sender_email (in_subject i) (in_content i)
                    (Some (in_attachment_files i)) (email :: rest)
                    (mkStore true (in_debug_mode i) (Some c2))) as Hk3.
      rewrite E3 in *. unfold events_of in *. cbn [snd] in *.
      assert (Hc3 : completed_shown t3 = false)
        by (apply (existsb_none send_event); [by_kind | exact Hk3]).
      rewrite completed_shown_app, session_opened_app, Hcf, Hsf.
      rewrite !completed_shown_app, !session_opened_app, Hc3.
      split; [reflexivity |]. intros _. exists raw, (email :: rest).
      split; [reflexivity |]. split; [now rewrite E1 |].
      rewrite outcomes_app, Hof, !outcomes_app. cbn [app outcomes flat_map].
      now rewrite app_nil_r.
    + destruct H as [_ ->].
      rewrite completed_shown_app, session_opened_app, Hcf, Hsf.
      split; [reflexivity | discriminate].
  - destruct H as [_ ->].
    rewrite completed_shown_app, session_opened_app, Hc1, Hs1.
    split; [reflexivity | discriminate].
Qed.

(** X19: in a run of main that gets as far as extraction, the relay is
    contacted exactly when extraction returned at least one address, and the
    first call is then the connection to smtp.gmail.com, port 587; when
    extraction returns no address or raises, main shows the box of the case,
    ends normally and makes no call on the relay. *)
Theorem relay_contacted_for_addresses (sender_password : string) (i : inputs)
    (raw : list byte) :
  in_send_clicked i = true ->
  in_csv_file i = Some raw ->
  is_empty (in_subject i) || is_empty (in_content i) = false ->
  setup_logging = None ->
  let x := main sender_password i initial in
  match outcome_of (read_csv_content (CsvBytes raw)
                      (mkStore true (in_debug_mode i) None)) with
  | Ok (_ :: _) =>
      exists r calls,
        smtp_calls (events_of x) = Connect "smtp.gmail.com" 587 r :: calls
  | Ok [] =>
      outcome_of x = Ok tt
      /\ smtp_calls (events_of x) = []
      /\ In (Ui UiNoValidEmails) (events_of x)
  | Raised e =>
      outcome_of x = Ok tt
      /\ smtp_calls (events_of x) = []
      /\ In (Ui (UiErrorOccurred e)) (events_of x)
  end.
Proof.
  intros Hclick Hcsv Hin Hlog x. subst x.
  destruct (main_anatomy sender_password i raw Hclick Hcsv Hin Hlog)
    as (r1 & t1 & E1 & Hk & H).
  rewrite E1. unfold outcome_of at 1. cbn [fst].
  assert (H1 : smtp_calls t1 = [])
    by (apply (flat_map_none csv_event); [by_kind | exact Hk]).
  destruct r1 as [[| email rest] | e].
  - destruct H as [-> ->]. rewrite smtp_calls_app, H1.
    repeat split. apply in_or_app. right. now left.
  - destruct H as (_ & t0 & Ht0 & H). cbn zeta in H.
    assert (Hf : smtp_calls (t1 ++ Ui (UiFound (length (email :: rest))) :: t0)
                 = []).
    { apply (flat_map_none preamble_event); [by_kind | now apply preamble]. }
    destruct (SMTP "smtp.gmail.com" 587) as [c | e];
      [destruct (starttls c) as [c1 [e1 |]];
       [| destruct (login c1 sender_email sender_password) as [c2 [e2 |]]] |].
    + destruct H as [_ ->]. rewrite smtp_calls_app, Hf. now do 2 eexists.
    + destruct H as [_ ->]. rewrite smtp_calls_app, Hf. now do 2 eexists.
    + destruct H as (c3 & _ & ->). rewrite smtp_calls_app, Hf.
      now do 2 eexists.
    + destruct H as [_ ->]. rewrite smtp_calls_app, Hf. now do 2 eexists.
  - destruct H as [-> ->]. rewrite smtp_calls_app, H1.
    repeat split. apply in_or_app. right. now left.
Qed.

(** X20: whatever the inputs and whatever the relay answers, every message
    a run of main hands to the relay is the message of the campaign, from
    the sender of the script with the subject, content and attachments
    entered, addressed to an address that the validator accepts and that has
    the address grammar. *)
Theorem messages_go_to_valid_addresses (sender_password : string) (i : inputs) :
  Forall (fun c => match c with
                   | SendMessage m _ =>
                       exists email,
                         EmailValidator.is_valid_email email = true
                         /\ address_shape (list_ascii_of_string email)
                         /\ m = campaign_message sender_email email (in_subject i)
                                  (in_content i) (in_attachment_files i)
                   | _ => True
                   end)
         (smtp_calls (events_of (main sender_password i initial))).
Proof.
  destruct (in_send_clicked i) eqn:Hclick;
    [| unfold main; rewrite Hclick; constructor].
  pose proof (main_unbound_cases sender_password i Hclick) as Hearly.
  cbn zeta in Hearly.
  destruct (in_csv_file i) as [raw |] eqn:Hcsv; [| rewrite Hearly; constructor].
  destruct (is_empty (in_subject i) || is_empty (in_content i)) eqn:Hin;
    [rewrite Hearly; constructor |].
  destruct setup_logging as [e |] eqn:Hlog; [rewrite Hearly; constructor |].
  clear Hearly.
  destruct (main_anatomy sender_password i raw Hclick Hcsv Hin Hlog)
    as (r1 & t1 & _ & Hk & H).
  assert (H1 : smtp_calls t1 = [])
    by (apply (flat_map_none csv_event); [by_kind | exact Hk]).
  destruct r1 as [[| email rest] | e].
  - destruct H as [_ ->]. rewrite smtp_calls_app, H1. constructor.
  - destruct H as (Hv & t0 & Ht0 & H). cbn zeta in H.
    assert (Hf : smtp_calls (t1 ++ Ui (UiFound (length (email :: rest))) :: t0)
                 = []).
    { apply (flat_map_none preamble_event); [by_kind | now apply preamble]. }
    destruct (SMTP "smtp.gmail.com" 587) as [c | e];
      [destruct (starttls c) as [c1 [e1 |]];
       [| destruct (login c1 sender_email sender_password) as [c2 [e2 |]]] |].
    + destruct H as [_ ->]. rewrite smtp_calls_app, Hf. repeat constructor.
    + destruct H as [_ ->]. rewrite smtp_calls_app, Hf. repeat constructor.
    + destruct H as (c3 & _ & ->).
      rewrite smtp_calls_app, Hf, !smtp_calls_app.
      cbn [app smtp_calls flat_map].
      do 3 (constructor; [exact I |]).
      apply Forall_app. split; [| repeat constructor].
      destruct (send_emails_sends sender_email (in_subject i) (in_content i)
                  (Some (in_attachment_files i)) (email :: rest)
                  (mkStore true (in_debug_mode i) (Some c2))) as (Hc & _).
      eapply List.Forall_impl; [| exact Hc].
      intros call (email' & r & Hin' & ->). exists email'.
      pose proof (proj1 (List.Forall_forall _ _) Hv email' Hin') as Hsv.
      split; [apply Hsv |]. split; [now apply stripped_valid_shape | reflexivity].
    + destruct H as [_ ->]. rewrite smtp_calls_app, Hf. repeat constructor.
  - destruct H as [_ ->]. rewrite smtp_calls_app, H1. constructor.
Qed.

End WithPlatform.

Lemma validation_ends_unbound_witness :
  let x := main (P := Doubles.obliging) "secret" (Doubles.sample_inputs None)
                initial in
  outcome_of x = Raised unbound
  /\ store_of x = initial
  /\ smtp_calls (events_of x) = []
  /\ events_of x = [Ui UiNoCsv].
Proof.
  apply (validation_ends_unbound (P := Doubles.obliging) "secret"
           (Doubles.sample_inputs None)); [reflexivity | left; reflexivity].
Defined.

Lemma relay_contacted_for_addresses_witness :
  exists r calls,
    smtp_calls (events_of (main (P := Doubles.obliging) "secret"
                             (Doubles.sample_inputs (Some Doubles.sample_table))
                             initial))
    = Connect "smtp.gmail.com" 587 r :: calls.
Proof.
  apply (relay_contacted_for_addresses (P := Doubles.obliging) "secret"
           (Doubles.sample_inputs (Some Doubles.sample_table))
           Doubles.sample_table); reflexivity.
Defined.

End MainMore.

(** ** DebugLogger.debug                                                 *)

Module DebugMore.
Import Effects Env Automation Observe Stated EngineFacts More.
Local Open Scope py_scope.

Section Closure.
Context {conn : Type}.

Local Abbreviation M := (Effects.M conn).

Lemma echoes_ret {A} (a : A) : echoes (ret a : M A) (ret a).
Proof. intros s1 s2 Hm. now split. Qed.

Lemma echoes_raise {A} (e : exn) : echoes (raise e : M A) (raise e).
Proof. intros s1 s2 Hm. now split. Qed.

Lemma echoes_emit (ev : event) :
  is_print ev = false -> echoes (emit ev : M unit) (emit ev).
Proof.
  intros Hev s1 s2 Hm. unfold emit, outcome_of, store_of, events_of, visible.
  cbn. rewrite Hev. now split.
Qed.

Lemma echoes_bind {A B} (c1 c2 : M A) (k1 k2 : A -> M B) :
  echoes c1 c2 -> (forall a, echoes (k1 a) (k2 a)) ->
  echoes (bind c1 k1) (bind c2 k2).
Proof.
  intros Hc Hk s1 s2 Hm. unfold bind. specialize (Hc s1 s2 Hm).
  destruct (c1 s1) as [[r1 s1'] t1], (c2 s2) as [[r2 s2'] t2].
  unfold outcome_of, store_of, events_of in Hc. cbn [fst snd] in Hc.
  destruct Hc as (<- & Hm' & ->).
  destruct r1 as [a | e]; [| now (split; [| split])].
  specialize (Hk a s1' s2' Hm').
  destruct (k1 a s1') as [[r3 s3] t3], (k2 a s2') as [[r4 s4] t4].
  unfold outcome_of, store_of, events_of in *. cbn [fst snd] in *.
  destruct Hk as (<- & Hm'' & ->). rewrite visible_app. now (split; [| split]).
Qed.

Lemma echoes_try_except {A} (c1 c2 : M A) (h1 h2 : exn -> M A) :
  echoes c1 c2 -> (forall e, echoes (h1 e) (h2 e)) ->
  echoes (try_except c1 h1) (try_except c2 h2).
Proof.
  intros Hc Hh s1 s2 Hm. unfold try_except. specialize (Hc s1 s2 Hm).
  destruct (c1 s1) as [[r1 s1'] t1], (c2 s2) as [[r2 s2'] t2].
  unfold outcome_of, store_of, events_of in Hc. cbn [fst snd] in Hc.
  destruct Hc as (<- & Hm' & ->).
  destruct r1 as [a | e]; [now (split; [| split]) |].
  specialize (Hh e s1' s2' Hm').
  destruct (h1 e s1') as [[r3 s3] t3], (h2 e s2') as [[r4 s4] t4].
  unfold outcome_of, store_of, events_of in *. cbn [fst snd] in *.
  destruct Hh as (<- & Hm'' & ->). rewrite visible_app. now (split; [| split]).
Qed.

Lemma echoes_try_finally {A} (c1 c2 : M A) (f1 f2 : M unit) :
  echoes c1 c2 -> echoes f1 f2 ->
  echoes (try_finally c1 f1) (try_finally c2 f2).
Proof.
  intros Hc Hf s1 s2 Hm. unfold try_finally. specialize (Hc s1 s2 Hm).
  destruct (c1 s1) as [[r1 s1'] t1], (c2 s2) as [[r2 s2'] t2].
  unfold outcome_of, store_of, events_of in Hc. cbn [fst snd] in Hc.
  destruct Hc as (<- & Hm' & ->).
  specialize (Hf s1' s2' Hm').
  destruct (f1 s1') as [[r3 s3] t3], (f2 s2') as [[r4 s4] t4].
  unfold outcome_of, store_of, events_of in *. cbn [fst snd] in *.
  destruct Hf as (<- & Hm'' & ->).
  destruct r3; cbn [fst snd]; rewrite visible_app; now (split; [| split]).
Qed.

Lemma echoes_put (s1' s2' : store conn) :
  muted s1' s2' -> echoes (put s1') (put s2').
Proof. intros Hm s1 s2 _. now split. Qed.

Lemma echoes_get_bind {A} (k1 k2 : store conn -> M A) :
  (forall s1 s2, muted s1 s2 -> echoes (k1 s1) (k2 s2)) ->
  echoes (bind get k1) (bind get k2).
Proof.
  intros Hk s1 s2 Hm. unfold bind, get. specialize (Hk s1 s2 Hm s1 s2 Hm).
  destruct (k1 s1 s1) as [[r3 s3] t3], (k2 s2 s2) as [[r4 s4] t4].
  exact Hk.
Qed.

End Closure.

Section WithPlatform.
Context {P : Platform}.

Local Abbreviation M := (Effects.M conn).
Local Abbreviation store := (Effects.store conn).

Lemma echoes_debug (m : debug_msg) : echoes (debug m) (debug m).
Proof.
  intros [b1 d1 c1] [b2 d2 c2] (Hb & Hc & Hd). cbn in Hb, Hc, Hd.
  subst b1 c1 d2.
  unfold debug, bind, get, emit, ret, outcome_of, store_of, events_of, muted.
  destruct d1; cbn; now repeat split.
Qed.

Lemma echoes_log (m : log_msg) : echoes (log m) (log m).
Proof. now apply echoes_emit. Qed.

Lemma echoes_for_each {A} (l : list A) (body1 body2 : A -> M unit) :
  (forall x, echoes (body1 x) (body2 x)) ->
  echoes (for_each l body1) (for_each l body2).
Proof.
  intros Hb. induction l as [| x l IH]; cbn [for_each].
  - apply echoes_ret.
  - apply echoes_bind; [apply Hb | intros _; exact IH].
Qed.

Lemma echoes_for_fold {A B} (l : list A) (body : B -> A -> M B) :
  (forall acc x, echoes (body acc x) (body acc x)) ->
  forall acc, echoes (for_fold l body acc) (for_fold l body acc).
Proof.
  intros Hb. induction l as [| x l IH]; intros acc; cbn [for_fold].
  - apply echoes_ret.
  - apply echoes_bind; [apply Hb | intros acc'; apply IH].
Qed.

Lemma echoes_on_server (method : string) (op : conn -> conn * option exn)
    (record : option exn -> smtp_call) :
  echoes (on_server method op record) (on_server method op record).
Proof.
  intros [b1 d1 c1] [b2 d2 c2] (Hb & Hc & Hd). cbn in Hb, Hc, Hd.
  subst b1 c1 d2.
  unfold on_server, bind, get, put, emit, ret, raise, outcome_of, store_of,
    events_of, muted.
  cbn. destruct c2 as [c |]; [| now repeat split].
  destruct (op c) as [c' [e |]]; cbn; now repeat split.
Qed.

Ltac echo :=
  repeat first
    [ simple apply echoes_ret | simple apply echoes_raise
    | simple apply echoes_debug | simple apply echoes_log
    | simple apply echoes_on_server
    | simple apply echoes_emit; reflexivity
    | simple apply echoes_put; repeat split; cbn; assumption || reflexivity
    | simple apply echoes_get_bind; intros ? ? ?
    | simple apply echoes_bind; [| intros ?]
    | simple apply echoes_try_except; [| intros ?] ].

Lemma echoes_next_row (text : string) : echoes (next_row text) (next_row text).
Proof. unfold next_row. destruct (csv_error text); echo. Qed.

Lemma echoes_read_csv_content (csv_content : csv_input) :
  echoes (read_csv_content csv_content) (read_csv_content csv_content).
Proof.
  unfold read_csv_content. echo.
  - destruct csv_content as [text | raw]; [echo |].
    destruct (decode_utf8 raw); echo.
  - destruct (Csv.fieldnames (csv_reader _)); echo. apply echoes_next_row.
  - destruct (find_email_column _); echo; [| apply echoes_next_row].
    apply echoes_for_fold. intros acc row. unfold validate_row. echo.
    + unfold stripped_field. destruct (row !! _) as [[] |]; echo.
    + destruct (EmailValidator.is_valid_email _); echo.
Qed.

Lemma echoes_setup_smtp (email password : string) :
  echoes (setup_smtp email password) (setup_smtp email password).
Proof.
  unfold setup_smtp. echo.
  match goal with H : muted _ _ |- _ => destruct H as (Hb & Hc & Hd) end.
  destruct (SMTP "smtp.gmail.com" 587); echo.
Qed.

Lemma echoes_create_message sender recipient subject content attachments :
  echoes (create_message sender recipient subject content attachments)
         (create_message sender recipient subject content attachments).
Proof.
  unfold create_message. echo.
  destruct (truthy attachments); [| echo].
  apply echoes_for_fold. intros message [file_name file_content].
  unfold attach_file, MIMEImage. echo.
  destruct (what file_content); echo.
Qed.

Lemma echoes_send_emails sender emails subject content attachments :
  echoes (send_emails sender emails subject content attachments)
         (send_emails sender emails subject content attachments).
Proof.
  unfold send_emails. echo.
  apply echoes_for_each. intros [idx email].
  generalize 3. intros retries.
  induction retries as [| retries IH]; cbn [retry_loop]; echo.
  - unfold attempt. echo. apply echoes_create_message.
  - unfold on_failure. echo. destruct (0 <? retries); echo.
  - match goal with b : bool |- _ => destruct b end; [echo | exact IH].
Qed.

Lemma echoes_main_finally : echoes main_finally main_finally.
Proof.
  unfold main_finally. apply echoes_get_bind. intros s1 s2 (Hb & Hc & Hd).
  rewrite Hb, Hc.
  destruct (automation_bound s2); [destruct (smtp_server s2) |]; echo.
Qed.

Lemma echoes_main_try (sender_password : string) (i : inputs) :
  echoes (main_try sender_password i)
         (main_try sender_password (with_debug false i)).
Proof.
  unfold main_try. cbn [with_debug in_csv_file in_subject in_content
                        in_debug_mode in_attachment_files].
  destruct (in_csv_file i) as [raw |]; [| echo].
  destruct (is_empty (in_subject i) || is_empty (in_content i)); echo.
  - unfold new_automation. destruct setup_logging; echo.
  - apply echoes_read_csv_content.
  - match goal with l : list string |- _ => destruct l end; echo.
    + apply echoes_setup_smtp.
    + apply echoes_send_emails.
Qed.

(** X21: the debug checkbox changes nothing but the debug lines: a run
    of main with debug mode off ends as the run with the same inputs and
    debug mode on or off does, and performs the same events in the same
    order with the debug lines left out; with debug mode off nothing is
    printed. *)
Theorem debug_mode_only_adds_lines (sender_password : string) (i : inputs) :
  let x := main sender_password i initial in
  let quiet := main sender_password (with_debug false i) initial in
  outcome_of quiet = outcome_of x
  /\ events_of quiet = visible (events_of x)
  /\ forallb (fun ev => negb (is_print ev)) (events_of quiet) = true.
Proof.
  intros x quiet.
  assert (H : echoes (main sender_password i)
                     (main sender_password (with_debug false i))).
  { unfold main. cbn [with_debug in_send_clicked].
    destruct (in_send_clicked i); [| apply echoes_ret].
    apply echoes_try_finally; [| apply echoes_main_finally].
    apply echoes_try_except; [apply echoes_main_try |].
    intros e. unfold main_except. echo. }
  destruct (H initial initial) as (Ho & _ & Ht); [now repeat split |].
  fold x quiet in Ho, Ht. split; [now symmetry |]. split; [exact Ht |].
  rewrite Ht. unfold visible. apply List.forallb_forall.
  intros ev Hin. now apply List.filter_In in Hin.
Qed.

End WithPlatform.

End DebugMore.
